(** * Jellyfin / *arr cross-checker: report generation, verified

    A shallow embedding of [src/models.py], [src/clients/jellyfin.py],
    [src/service.py], [src/web/app.py] and the hand-over in [main.py].

    Python objects are mutable and shared: the [MovieInfo] and [SeriesInfo]
    instances appended to a user's watch list are the very objects that
    [_generate_report] later mutates and files into the buckets.  They are
    therefore kept in a store (a list indexed by reference) and every list
    of items holds references. *)

From stdpp Require Import base option list strings pretty gmap.
From Stdlib Require Import ZArith Lia Ascii.

Open Scope string_scope.
Open Scope list_scope.
Open Scope nat_scope.

(** ** Python values read from the external services *)

(** The scalar JSON values the program inspects ([str(...)], truthiness). *)
Inductive pyval :=
  | PyNone
  | PyBool (b : bool)
  | PyInt (z : Z)
  | PyStr (s : string).

(** Python truthiness [bool(v)]. *)
Definition truthy (v : pyval) : bool :=
  match v with
  | PyNone => false
  | PyBool b => b
  | PyInt z => negb (Z.eqb z 0)
  | PyStr s => negb (String.eqb s "")
  end.

(** Python [str(v)]. *)
Definition py_str (v : pyval) : string :=
  match v with
  | PyNone => "None"
  | PyBool true => "True"
  | PyBool false => "False"
  | PyInt z => pretty z
  | PyStr s => s
  end.

(** [dict.get(k)]: a missing key reads as [None]. *)
Definition py_get (field : option pyval) : pyval := default PyNone field.

(** Formatting of an [Optional[int]] inside an f-string. *)
Definition fmt_year (y : option Z) : string :=
  match y with
  | Some z => pretty z
  | None => "None"
  end.

(** ** models.py *)

Record MovieInfo := mkMovieInfo {
  m_title : string;
  m_year : option Z;
  m_tmdb_id : option string;
  m_imdb_id : option string;
  m_path : option string;
  m_in_radarr : bool;
  m_radarr_id : option Z;
  m_jellyfin_id : option string;
  m_watched_by_users : list string
}.

Record SeriesInfo := mkSeriesInfo {
  s_title : string;
  s_year : option Z;
  s_tvdb_id : option string;
  s_imdb_id : option string;
  s_path : option string;
  s_in_sonarr : bool;
  s_sonarr_id : option Z;
  s_sonarr_title_slug : option string;
  s_jellyfin_id : option string;
  s_total_episodes : Z;
  s_watched_episodes : Z;
  s_is_fully_watched : bool;
  s_watched_by_users : list string
}.

(** Object references: positions in the store. *)
Abbreviation ref := nat (only parsing).

Record UserWatchData := mkUserWatchData {
  user_id : string;
  username : string;
  watched_movies : list ref;
  watched_series : list ref
}.

Record Report := mkReport {
  users : list UserWatchData;
  movies_watched_by_all : list ref;
  movies_watched_by_some : list ref;
  series_fully_watched_by_all : list ref;
  series_fully_watched_by_some : list ref;
  series_partially_watched_by_all : list ref;
  series_partially_watched_by_some : list ref;
  jellyfin_url : option string;
  radarr_url : option string;
  sonarr_url : option string
}.

(** [Report()] with every field at its default. *)
Definition Report_default : Report :=
  mkReport [] [] [] [] [] [] [] None None None.

(** The store of model instances. *)
Record store := mkStore {
  movie_objs : list MovieInfo;
  series_objs : list SeriesInfo
}.

(** ** The grouping key of [_generate_report]: [f"{title}_{year}"] *)

Definition title_year_key (title : string) (year : option Z) : string :=
  title +:+ "_" +:+ fmt_year year.

Definition movie_key (m : MovieInfo) : string :=
  title_year_key (m_title m) (m_year m).

Definition series_key (s : SeriesInfo) : string :=
  title_year_key (s_title s) (s_year s).

(** Occurrence test for a character, used to analyse the key format. *)
Fixpoint has_char (c : ascii) (s : string) : bool :=
  match s with
  | EmptyString => false
  | String d s' => if Ascii.eqb c d then true else has_char c s'
  end.

(** ** Exceptions and the option-valued fold used for Python loops *)

Inductive exn :=
  | KeyError
  | TypeError
  | JSONDecodeError.

Inductive result (A : Type) :=
  | Ok (a : A)
  | Raise (e : exn).
Arguments Ok {A} a.
Arguments Raise {A} e.

(** A [for] loop whose body may fail: [None] stands for an exception
    leaving the loop ([KeyError] on a missing dict key, or a reference
    that names no object, which Python cannot produce). *)
Fixpoint foldlM {A B : Type} (f : B → A → option B) (b : B) (l : list A)
  : option B :=
  match l with
  | [] => Some b
  | x :: l' => match f b x with
               | Some b' => foldlM f b' l'
               | None => None
               end
  end.

(** ** Insertion-ordered dictionaries: [defaultdict(list)] *)

(** Items in insertion order; keys are unique. *)
Definition odict := list (string * list string).

(** [d[k].append(v)] on a [defaultdict(list)]: an existing key keeps its
    position, a new key is added at the end. *)
Fixpoint od_append (k v : string) (d : odict) : odict :=
  match d with
  | [] => [(k, [v])]
  | (k', vs) :: d' =>
      if decide (k = k') then (k', vs ++ [v]) :: d'
      else (k', vs) :: od_append k v d'
  end.

Fixpoint od_get (k : string) (d : odict) : option (list string) :=
  match d with
  | [] => None
  | (k', vs) :: d' => if decide (k = k') then Some vs else od_get k d'
  end.

(** ** service.py: [_generate_report] *)

Record ArrCleanerService := mkService {
  svc_jellyfin_url : option string;
  svc_radarr_url : option string;
  svc_sonarr_url : option string
}.

(** Attribute assignment [movie.watched_by_users = watchers]. *)
Definition set_movie_watchers (ws : list string) (m : MovieInfo) : MovieInfo :=
  mkMovieInfo (m_title m) (m_year m) (m_tmdb_id m) (m_imdb_id m) (m_path m)
    (m_in_radarr m) (m_radarr_id m) (m_jellyfin_id m) ws.

Definition set_series_watchers (ws : list string) (s : SeriesInfo) : SeriesInfo :=
  mkSeriesInfo (s_title s) (s_year s) (s_tvdb_id s) (s_imdb_id s) (s_path s)
    (s_in_sonarr s) (s_sonarr_id s) (s_sonarr_title_slug s) (s_jellyfin_id s)
    (s_total_episodes s) (s_watched_episodes s) (s_is_fully_watched s) ws.

(** Lines 174-181: the movie accumulators [(movie_watchers, movie_data)]. *)
Definition index_movie_step (objs : list MovieInfo) (user_data : UserWatchData)
    (acc : odict * gmap string ref) (r : ref) : option (odict * gmap string ref) :=
  let '(movie_watchers, movie_data) := acc in
  match objs !! r with
  | Some movie =>
      let key := movie_key movie in
      Some (od_append key (username user_data) movie_watchers,
            <[key := r]> movie_data)
  | None => None
  end.

Definition index_movies (objs : list MovieInfo) (users_data : list UserWatchData)
  : option (odict * gmap string ref) :=
  foldlM (λ acc user_data,
            foldlM (index_movie_step objs user_data) acc (watched_movies user_data))
         ([], ∅) users_data.

(** Lines 184-195: [(series_watchers_full, series_watchers_partial,
    series_data)]. *)
Definition index_series_step (objs : list SeriesInfo) (user_data : UserWatchData)
    (acc : odict * odict * gmap string ref) (r : ref)
  : option (odict * odict * gmap string ref) :=
  let '(series_watchers_full, series_watchers_partial, series_data) := acc in
  match objs !! r with
  | Some series =>
      let key := series_key series in
      if s_is_fully_watched series then
        Some (od_append key (username user_data) series_watchers_full,
              series_watchers_partial, <[key := r]> series_data)
      else
        Some (series_watchers_full,
              od_append key (username user_data) series_watchers_partial,
              <[key := r]> series_data)
  | None => None
  end.

Definition index_series (objs : list SeriesInfo) (users_data : list UserWatchData)
  : option (odict * odict * gmap string ref) :=
  foldlM (λ acc user_data,
            foldlM (index_series_step objs user_data) acc (watched_series user_data))
         ([], [], ∅) users_data.

(** The three categorisation loops (lines 200-206, 209-215, 218-224) have
    one shape: look the representative up, assign its watcher list, file
    it by comparing the list length with the number of users. *)
Section categorize.
Context {Obj : Type} (set_watchers : list string → Obj → Obj).

Definition categorize_step (total_users : nat) (data : gmap string ref)
    (acc : list Obj * list ref * list ref) (item : string * list string)
  : option (list Obj * list ref * list ref) :=
  let '(objs, by_all, by_some) := acc in
  let '(key, watchers) := item in
  match data !! key with
  | Some r =>
      match objs !! r with
      | Some o =>
          let objs' := <[r := set_watchers watchers o]> objs in
          if decide (length watchers = total_users)
          then Some (objs', by_all ++ [r], by_some)
          else Some (objs', by_all, by_some ++ [r])
      | None => None
      end
  | None => None
  end.

Definition categorize (total_users : nat) (watchers : odict)
    (data : gmap string ref) (objs : list Obj)
  : option (list Obj * list ref * list ref) :=
  foldlM (categorize_step total_users data) (objs, [], []) watchers.
End categorize.

Definition generate_report (svc : ArrCleanerService) (st : store)
    (users_data : list UserWatchData) : option (store * Report) :=
  let report := mkReport users_data [] [] [] [] [] []
                  (svc_jellyfin_url svc) (svc_radarr_url svc) (svc_sonarr_url svc) in
  match users_data with
  | [] => Some (st, report)
  | _ :: _ =>
    match index_movies (movie_objs st) users_data with
    | None => None
    | Some (movie_watchers, movie_data) =>
    match index_series (series_objs st) users_data with
    | None => None
    | Some (series_watchers_full, series_watchers_partial, series_data) =>
    let total_users := length users_data in
    match categorize set_movie_watchers total_users movie_watchers movie_data
            (movie_objs st) with
    | None => None
    | Some (mobjs, m_all, m_some) =>
    match categorize set_series_watchers total_users series_watchers_full
            series_data (series_objs st) with
    | None => None
    | Some (sobjs1, sf_all, sf_some) =>
    match categorize set_series_watchers total_users series_watchers_partial
            series_data sobjs1 with
    | None => None
    | Some (sobjs2, sp_all, sp_some) =>
        Some (mkStore mobjs sobjs2,
              mkReport users_data m_all m_some sf_all sf_some sp_all sp_some
                (svc_jellyfin_url svc) (svc_radarr_url svc) (svc_sonarr_url svc))
    end end end end end
  end.

(** ** clients/jellyfin.py *)

(** A decoded JSON document. *)
Inductive json :=
  | JNull
  | JBool (b : bool)
  | JNum (z : Z)
  | JStr (s : string)
  | JArr (items : list json)
  | JObj (fields : list (string * json)).

Fixpoint assoc {A : Type} (k : string) (l : list (string * A)) : option A :=
  match l with
  | [] => None
  | (k', x) :: l' => if decide (k = k') then Some x else assoc k l'
  end.

(** [v[k]] with a string key: only a dict can be indexed by a string, and
    a missing key raises. *)
Definition subscript (v : json) (k : string) : result json :=
  match v with
  | JObj fields =>
      match assoc k fields with
      | Some x => Ok x
      | None => Raise KeyError
      end
  | _ => Raise TypeError
  end.

(** What an [httpx] call produces: a response with its status code, or a
    transport error (an [httpx.HTTPError]). *)
Inductive http_response (A : Type) :=
  | Responded (status : Z) (payload : A)
  | TransportFailed.
Arguments Responded {A} status payload.
Arguments TransportFailed {A}.

(** The body of a response: [response.json()] raises on a body that is not
    JSON. *)
Inductive body :=
  | NotJson
  | Json (v : json).

(** [raise_for_status] accepts the 2xx codes only. *)
Definition is_success (status : Z) : bool :=
  (200 <=? status)%Z && (status <=? 299)%Z.

Record JfUser := mkJfUser {
  u_Id : string;
  u_Name : string
}.

(** An item of [/Users/{id}/Items], with the fields the program reads, at
    the types the models of models.py accept; [None] is a missing key.  A
    payload of another shape makes a model constructor raise and is not
    part of this model. *)
Record JfItem := mkJfItem {
  it_Name : option string;
  it_ProductionYear : option Z;
  it_ProviderIds : option (gmap string string);
  it_Path : option string;
  it_Id : option string
}.

Record Episode := mkEpisode {
  ep_UserData : option (gmap string pyval)
}.

(** The media server, as the answers it gives to the requests of the
    client; the last argument of the authenticated requests is the token
    header. *)
Record JellyfinServer := mkServer {
  post_AuthenticateByName : string → string → http_response body;
  get_Users : option json → http_response (list JfUser);
  get_Items_Movie : string → option json → http_response (list JfItem);
  get_Items_Series : string → option json → http_response (list JfItem);
  get_Episodes : option string → string → option json → http_response (list Episode)
}.

Record JellyfinClient := mkClient {
  jf_username : string;
  jf_password : string;
  access_token : option json;
  jf_user_id : option json
}.

(** Lines 31-58.  Only [httpx.HTTPError] is caught: a transport error or a
    status outside 2xx.  The statements after [raise_for_status] run
    unprotected, and [access_token] is assigned before [user_id]. *)
Definition authenticate (srv : JellyfinServer) (c : JellyfinClient)
  : result bool * JellyfinClient :=
  match post_AuthenticateByName srv (jf_username c) (jf_password c) with
  | TransportFailed => (Ok false, c)
  | Responded status payload =>
      if is_success status then
        match payload with
        | NotJson => (Raise JSONDecodeError, c)
        | Json data =>
            match subscript data "AccessToken" with
            | Raise e => (Raise e, c)
            | Ok token =>
                let c1 := mkClient (jf_username c) (jf_password c)
                            (Some token) (jf_user_id c) in
                match subscript data "User" with
                | Raise e => (Raise e, c1)
                | Ok user =>
                    match subscript user "Id" with
                    | Raise e => (Raise e, c1)
                    | Ok uid =>
                        (Ok true,
                         mkClient (jf_username c) (jf_password c)
                           (Some token) (Some uid))
                    end
                end
            end
        end
      else (Ok false, c)
  end.

(** What the program hands to the logger of logger.py: a level and a
    message.  A message is an f-string; the text an interpolated exception
    renders to is httpx's, so the exception itself is kept in its place. *)
Inductive log_level := INFO | ERROR.

(** The [httpx.HTTPError] a request ends with: raised by the transport, or
    by [raise_for_status] on a status outside 2xx. *)
Inductive http_error :=
  | TransportError
  | StatusError (status : Z).

Inductive log_part :=
  | Text (s : string)
  | Exc (e : http_error).

Record log_record := mkLog {
  log_level_of : log_level;
  log_message : list log_part
}.

Definition http_error_of {A : Type} (resp : http_response A) : option http_error :=
  match resp with
  | TransportFailed => Some TransportError
  | Responded status _ =>
      if is_success status then None else Some (StatusError status)
  end.

(** Line 33, line 53 and line 57. *)
Definition auth_started (c : JellyfinClient) : log_record :=
  mkLog INFO [Text "[cyan]Authenticating with Jellyfin as ";
              Text (jf_username c); Text "[/cyan]"].

Definition auth_succeeded : log_record :=
  mkLog INFO [Text "[green]Successfully authenticated with Jellyfin[/green]"].

Definition auth_failed (e : http_error) : log_record :=
  mkLog ERROR [Text "[red]Failed to authenticate with Jellyfin: "; Exc e;
               Text "[/red]"].

(** Lines 31-58 once more, with the records logged on the way: the
    [logger.error] of line 57 sits in the [except httpx.HTTPError] branch
    and nowhere else, so an exception that leaves the function is not
    logged by it. *)
Definition authenticate_logged (srv : JellyfinServer) (c : JellyfinClient)
  : result bool * JellyfinClient * list log_record :=
  match post_AuthenticateByName srv (jf_username c) (jf_password c) with
  | TransportFailed =>
      (Ok false, c, [auth_started c; auth_failed TransportError])
  | Responded status payload =>
      if is_success status then
        match payload with
        | NotJson => (Raise JSONDecodeError, c, [auth_started c])
        | Json data =>
            match subscript data "AccessToken" with
            | Raise e => (Raise e, c, [auth_started c])
            | Ok token =>
                let c1 := mkClient (jf_username c) (jf_password c)
                            (Some token) (jf_user_id c) in
                match subscript data "User" with
                | Raise e => (Raise e, c1, [auth_started c])
                | Ok user =>
                    match subscript user "Id" with
                    | Raise e => (Raise e, c1, [auth_started c])
                    | Ok uid =>
                        (Ok true,
                         mkClient (jf_username c) (jf_password c)
                           (Some token) (Some uid),
                         [auth_started c; auth_succeeded])
                    end
                end
            end
        end
      else (Ok false, c, [auth_started c; auth_failed (StatusError status)])
  end.

(** The list a fail-soft getter returns: the payload of a 2xx response,
    [[]] otherwise.  The payload stands for the decoded body: a 2xx answer
    whose body does not decode to the expected shape makes the getter of
    the source raise (it catches [httpx.HTTPError] only), and such answers
    are outside this type; what is proved through the getters is therefore
    about calls that return. *)
Definition fetched {A : Type} (resp : http_response (list A)) : list A :=
  match resp with
  | Responded status items => if is_success status then items else []
  | TransportFailed => []
  end.

Definition get_users (srv : JellyfinServer) (c : JellyfinClient) : list JfUser :=
  fetched (get_Users srv (access_token c)).

Definition get_watched_movies (srv : JellyfinServer) (c : JellyfinClient)
    (uid : string) : list JfItem :=
  fetched (get_Items_Movie srv uid (access_token c)).

Definition get_watched_series (srv : JellyfinServer) (c : JellyfinClient)
    (uid : string) : list JfItem :=
  fetched (get_Items_Series srv uid (access_token c)).

Definition get_series_episodes (srv : JellyfinServer) (c : JellyfinClient)
    (series_id : option string) (uid : string) : list Episode :=
  fetched (get_Episodes srv series_id uid (access_token c)).

(** [ep.get("UserData", {}).get("Played", False)], as a condition. *)
Definition played (ep : Episode) : bool :=
  truthy (default (PyBool false) (default ∅ (ep_UserData ep) !! "Played")).

(** Lines 162-180. *)
Definition is_series_fully_watched (srv : JellyfinServer) (c : JellyfinClient)
    (series_id : option string) (uid : string) : bool * Z * Z :=
  let episodes := get_series_episodes srv c series_id uid in
  match episodes with
  | [] => (false, 0%Z, 0%Z)
  | _ :: _ =>
      let total_episodes := Z.of_nat (length episodes) in
      let watched_episodes :=
        Z.of_nat (length (filter (λ ep, played ep = true) episodes)) in
      let is_fully_watched :=
        (watched_episodes =? total_episodes)%Z && (0 <? total_episodes)%Z in
      (is_fully_watched, watched_episodes, total_episodes)
  end.

(** ** clients/radarr.py, clients/sonarr.py *)

(** Catalog items, with the fields the program reads; the external
    identifier keeps its dynamic type ([None] when the key is missing). *)
Record RadarrMovie := mkRadarrMovie {
  rm_tmdbId : option pyval;
  rm_id : option Z
}.

Record SonarrSeries := mkSonarrSeries {
  ss_tvdbId : option pyval;
  ss_id : option Z;
  ss_titleSlug : option string
}.

(** The outcome of the library call behind [get_all_movies] and
    [get_all_series]; any exception is turned into the empty list. *)
Inductive catalog_call (A : Type) :=
  | Listed (items : list A)
  | CallFailed.
Arguments Listed {A} items.
Arguments CallFailed {A}.

Definition get_all {A : Type} (call : catalog_call A) : list A :=
  match call with
  | Listed items => items
  | CallFailed => []
  end.

(** ** service.py: [collect_data] *)

(** Lines 50-60: [{str(x.get(id)): x for x in items if x.get(id)}]. *)
Definition build_lookup {A : Type} (ident : A → option pyval) (items : list A)
  : gmap string A :=
  fold_left (λ lookup item,
               if truthy (py_get (ident item))
               then <[py_str (py_get (ident item)) := item]> lookup
               else lookup)
            items ∅.

(** [lookup.get(str(ext_id)) if ext_id else None] for a provider id. *)
Definition lookup_provider {A : Type} (lookup : gmap string A)
    (ext_id : option string) : option A :=
  match ext_id with
  | Some s => if truthy (PyStr s) then lookup !! py_str (PyStr s) else None
  | None => None
  end.

(** Lines 93-116.  [radarr_movie.get("id") if radarr_movie else None] is
    the bind below: an empty dict has no [id] either. *)
Definition parse_movie (movie : JfItem) (radarr_lookup : gmap string RadarrMovie)
  : MovieInfo :=
  let provider_ids := default ∅ (it_ProviderIds movie) in
  let tmdb_id := provider_ids !! "Tmdb" in
  let imdb_id := provider_ids !! "Imdb" in
  let radarr_movie := lookup_provider radarr_lookup tmdb_id in
  let in_radarr := bool_decide (is_Some radarr_movie) in
  let radarr_id := radarr_movie ≫= rm_id in
  mkMovieInfo (default "Unknown" (it_Name movie)) (it_ProductionYear movie)
    tmdb_id imdb_id (it_Path movie) in_radarr radarr_id (it_Id movie) [].

(** Lines 118-157: [None] for a series without a watched episode. *)
Definition parse_series (srv : JellyfinServer) (c : JellyfinClient)
    (series : JfItem) (uid : string) (sonarr_lookup : gmap string SonarrSeries)
  : option SeriesInfo :=
  let provider_ids := default ∅ (it_ProviderIds series) in
  let tvdb_id := provider_ids !! "Tvdb" in
  let imdb_id := provider_ids !! "Imdb" in
  let sonarr_series := lookup_provider sonarr_lookup tvdb_id in
  let in_sonarr := bool_decide (is_Some sonarr_series) in
  let sonarr_id := sonarr_series ≫= ss_id in
  let sonarr_title_slug := sonarr_series ≫= ss_titleSlug in
  let series_id := it_Id series in
  let '(is_fully_watched, watched_count, total_count) :=
    is_series_fully_watched srv c series_id uid in
  if (watched_count =? 0)%Z then None
  else Some (mkSeriesInfo (default "Unknown" (it_Name series))
               (it_ProductionYear series) tvdb_id imdb_id (it_Path series)
               in_sonarr sonarr_id sonarr_title_slug series_id
               total_count watched_count is_fully_watched []).

(** Creating a model instance: the new object gets the next reference. *)
Definition alloc_movie (st : store) (m : MovieInfo) : store * ref :=
  (mkStore (movie_objs st ++ [m]) (series_objs st), length (movie_objs st)).

Definition alloc_series (st : store) (s : SeriesInfo) : store * ref :=
  (mkStore (movie_objs st) (series_objs st ++ [s]), length (series_objs st)).

(** Lines 72-76: the movie loop of one user. *)
Definition collect_movies (radarr_lookup : gmap string RadarrMovie)
    (watched : list JfItem) (st : store) : store * list ref :=
  fold_left (λ acc movie,
               let '(st', r) := alloc_movie acc.1 (parse_movie movie radarr_lookup) in
               (st', acc.2 ++ [r]))
            watched (st, []).

(** Lines 78-83: the series loop of one user. *)
Definition collect_series (srv : JellyfinServer) (c : JellyfinClient)
    (sonarr_lookup : gmap string SonarrSeries) (uid : string)
    (watched : list JfItem) (st : store) : store * list ref :=
  fold_left (λ acc series,
               match parse_series srv c series uid sonarr_lookup with
               | Some series_info =>
                   let '(st', r) := alloc_series acc.1 series_info in
                   (st', acc.2 ++ [r])
               | None => acc
               end)
            watched (st, []).

(** Lines 64-85: one iteration of the loop over the users. *)
Definition collect_user (srv : JellyfinServer) (c : JellyfinClient)
    (radarr_lookup : gmap string RadarrMovie)
    (sonarr_lookup : gmap string SonarrSeries)
    (acc : store * list UserWatchData) (user : JfUser)
  : store * list UserWatchData :=
  let uid := u_Id user in
  let '(st1, movie_refs) :=
    collect_movies radarr_lookup (get_watched_movies srv c uid) acc.1 in
  let '(st2, series_refs) :=
    collect_series srv c sonarr_lookup uid (get_watched_series srv c uid) st1 in
  (st2, acc.2 ++ [mkUserWatchData uid (u_Name user) movie_refs series_refs]).

(** Everything [collect_data] talks to. *)
Record World := mkWorld {
  jellyfin : JellyfinServer;
  radarr_movies : catalog_call RadarrMovie;
  sonarr_series : catalog_call SonarrSeries
}.

(** Lines 29-91.  The result carries the client and the store as left by
    the call.  The two [test_connection] calls (lines 39-40) only log: their
    result is dropped and they raise nothing. *)
Definition collect_data (svc : ArrCleanerService) (w : World)
    (c : JellyfinClient) (st : store) : JellyfinClient * store * result Report :=
  match authenticate (jellyfin w) c with
  | (Raise e, c1) => (c1, st, Raise e)
  | (Ok false, c1) => (c1, st, Ok Report_default)
  | (Ok true, c1) =>
      let jellyfin_users := get_users (jellyfin w) c1 in
      let radarr_tmdb_lookup := build_lookup rm_tmdbId (get_all (radarr_movies w)) in
      let sonarr_tvdb_lookup := build_lookup ss_tvdbId (get_all (sonarr_series w)) in
      let '(st1, users_data) :=
        fold_left (collect_user (jellyfin w) c1 radarr_tmdb_lookup sonarr_tvdb_lookup)
                  jellyfin_users (st, []) in
      match generate_report svc st1 users_data with
      | Some (st2, report) => (c1, st2, Ok report)
      | None => (c1, st1, Raise KeyError)
      end
  end.

(** ** web/app.py and the hand-over in main.py *)

Definition dump_opt_int (o : option Z) : json :=
  match o with Some z => JNum z | None => JNull end.

Definition dump_opt_str (o : option string) : json :=
  match o with Some s => JStr s | None => JNull end.

Definition dump_strs (l : list string) : json := JArr (JStr <$> l).

(** [model_dump] of the models of models.py: a dict with the fields in
    declaration order, nested models dumped in place. *)
Definition dump_movie (m : MovieInfo) : json :=
  JObj [("title", JStr (m_title m));
        ("year", dump_opt_int (m_year m));
        ("tmdb_id", dump_opt_str (m_tmdb_id m));
        ("imdb_id", dump_opt_str (m_imdb_id m));
        ("path", dump_opt_str (m_path m));
        ("in_radarr", JBool (m_in_radarr m));
        ("radarr_id", dump_opt_int (m_radarr_id m));
        ("jellyfin_id", dump_opt_str (m_jellyfin_id m));
        ("watched_by_users", dump_strs (m_watched_by_users m))].

Definition dump_series (s : SeriesInfo) : json :=
  JObj [("title", JStr (s_title s));
        ("year", dump_opt_int (s_year s));
        ("tvdb_id", dump_opt_str (s_tvdb_id s));
        ("imdb_id", dump_opt_str (s_imdb_id s));
        ("path", dump_opt_str (s_path s));
        ("in_sonarr", JBool (s_in_sonarr s));
        ("sonarr_id", dump_opt_int (s_sonarr_id s));
        ("sonarr_title_slug", dump_opt_str (s_sonarr_title_slug s));
        ("jellyfin_id", dump_opt_str (s_jellyfin_id s));
        ("total_episodes", JNum (s_total_episodes s));
        ("watched_episodes", JNum (s_watched_episodes s));
        ("is_fully_watched", JBool (s_is_fully_watched s));
        ("watched_by_users", dump_strs (s_watched_by_users s))].

(** The objects a list of references names; [None] if one names nothing. *)
Definition movies_at (st : store) (refs : list ref) : option (list MovieInfo) :=
  mapM (λ r, movie_objs st !! r) refs.

Definition series_at (st : store) (refs : list ref) : option (list SeriesInfo) :=
  mapM (λ r, series_objs st !! r) refs.

(** The object graph below a user record and below a report, with every
    reference replaced by the object it names. *)
Record UserData := mkUserData {
  ud_user_id : string;
  ud_username : string;
  ud_movies : list MovieInfo;
  ud_series : list SeriesInfo
}.

Record ReportData := mkReportData {
  rd_users : list UserData;
  rd_movies_all : list MovieInfo;
  rd_movies_some : list MovieInfo;
  rd_full_all : list SeriesInfo;
  rd_full_some : list SeriesInfo;
  rd_partial_all : list SeriesInfo;
  rd_partial_some : list SeriesInfo;
  rd_jellyfin_url : option string;
  rd_radarr_url : option string;
  rd_sonarr_url : option string
}.

Definition user_data (st : store) (u : UserWatchData) : option UserData :=
  ms ← movies_at st (watched_movies u);
  ss ← series_at st (watched_series u);
  Some (mkUserData (user_id u) (username u) ms ss).

Definition report_data (st : store) (rep : Report) : option ReportData :=
  us ← mapM (user_data st) (users rep);
  m_all ← movies_at st (movies_watched_by_all rep);
  m_some ← movies_at st (movies_watched_by_some rep);
  sf_all ← series_at st (series_fully_watched_by_all rep);
  sf_some ← series_at st (series_fully_watched_by_some rep);
  sp_all ← series_at st (series_partially_watched_by_all rep);
  sp_some ← series_at st (series_partially_watched_by_some rep);
  Some (mkReportData us m_all m_some sf_all sf_some sp_all sp_some
          (jellyfin_url rep) (radarr_url rep) (sonarr_url rep)).

Definition dump_user (u : UserData) : json :=
  JObj [("user_id", JStr (ud_user_id u));
        ("username", JStr (ud_username u));
        ("watched_movies", JArr (dump_movie <$> ud_movies u));
        ("watched_series", JArr (dump_series <$> ud_series u))].

Definition dump_report (d : ReportData) : json :=
  JObj [("users", JArr (dump_user <$> rd_users d));
        ("movies_watched_by_all", JArr (dump_movie <$> rd_movies_all d));
        ("movies_watched_by_some", JArr (dump_movie <$> rd_movies_some d));
        ("series_fully_watched_by_all", JArr (dump_series <$> rd_full_all d));
        ("series_fully_watched_by_some", JArr (dump_series <$> rd_full_some d));
        ("series_partially_watched_by_all",
           JArr (dump_series <$> rd_partial_all d));
        ("series_partially_watched_by_some",
           JArr (dump_series <$> rd_partial_some d));
        ("jellyfin_url", dump_opt_str (rd_jellyfin_url d));
        ("radarr_url", dump_opt_str (rd_radarr_url d));
        ("sonarr_url", dump_opt_str (rd_sonarr_url d))].

(** [report.model_dump()]: [None] only if a reference names no object. *)
Definition model_dump (st : store) (rep : Report) : option json :=
  dump_report <$> report_data st rep.

(** The module-level [current_report]. *)
Record WebApp := mkApp {
  current_report : option Report
}.

Definition app_start : WebApp := mkApp None.

Definition set_report (app : WebApp) (report : Report) : WebApp :=
  mkApp (Some report).

Definition no_report : json := JObj [("error", JStr "No report available")].

(** [/api/report].  A model instance is always truthy, so the test
    [if current_report] only separates [None] from a report. *)
Definition get_report (st : store) (app : WebApp) : option json :=
  match current_report app with
  | Some report => model_dump st report
  | None => Some no_report
  end.

(** main.py lines 72-76: collect, then hand the report to the web app.
    An exception leaves [main] through its handlers before [set_report]. *)
Definition main_collect (svc : ArrCleanerService) (w : World)
    (c : JellyfinClient) (st : store) (app : WebApp)
  : JellyfinClient * store * result WebApp :=
  match collect_data svc w c st with
  | (c', st', Ok report) => (c', st', Ok (set_report app report))
  | (c', st', Raise e) => (c', st', Raise e)
  end.

(** ** Vocabulary for the client claims *)

(** The HTTP layer failed: no response, or a status outside 2xx. *)
Definition http_failed {A : Type} (resp : http_response A) : Prop :=
  match resp with
  | TransportFailed => True
  | Responded status _ => is_success status = false
  end.

(** The body [authenticate] needs: a JSON object with an [AccessToken]
    and a [User] object with an [Id]. *)
Definition auth_payload (p : body) (token uid : json) : Prop :=
  ∃ data user, p = Json data ∧ subscript data "AccessToken" = Ok token ∧
               subscript data "User" = Ok user ∧ subscript user "Id" = Ok uid.

(** A catalog identifier that is present and not null. *)
Definition present_non_null (field : option pyval) : Prop :=
  ∃ v, field = Some v ∧ v ≠ PyNone.

(** ** Vocabulary for stating what the loops compute *)

(** The accumulator left by appending the pairs [(key, username)] in order. *)
Definition od_build (kus : list (string * string)) : odict :=
  fold_left (λ d ku, od_append ku.1 ku.2 d) kus [].

(** The usernames recorded under key [k], in visiting order. *)
Definition ws_of (k : string) (kus : list (string * string)) : list string :=
  (filter (λ ku, ku.1 = k) kus).*2.

(** The dict left by the assignments [data[key] = r] in order. *)
Definition data_build (krs : list (string * ref)) : gmap string ref :=
  fold_left (λ m kr, <[kr.1 := kr.2]> m) krs ∅.

(** The last reference assigned under key [k]. *)
Definition last_ref (k : string) (krs : list (string * ref)) : option ref :=
  last (filter (λ kr, kr.1 = k) krs).*2.

(** One execution of an indexing loop body: user [v_user] contributes the
    object [v_ref], which carries the key [v_key]; [v_full] is the
    object's [is_fully_watched] flag ([true] for movies, which have none). *)
Record visit := mkVisit {
  v_key : string;
  v_user : string;
  v_ref : ref;
  v_full : bool
}.

Definition kus_of (vs : list visit) : list (string * string) :=
  (λ v, (v_key v, v_user v)) <$> vs.

Definition krs_of (vs : list visit) : list (string * ref) :=
  (λ v, (v_key v, v_ref v)) <$> vs.

Definition movie_visit (objs : list MovieInfo) (u : UserWatchData) (r : ref)
  : option visit :=
  (λ m, mkVisit (movie_key m) (username u) r true) <$> objs !! r.

Definition movie_visits (objs : list MovieInfo) (users_data : list UserWatchData)
  : list visit :=
  users_data ≫= λ u, omap (movie_visit objs u) (watched_movies u).

Definition series_visit (objs : list SeriesInfo) (u : UserWatchData) (r : ref)
  : option visit :=
  (λ s, mkVisit (series_key s) (username u) r (s_is_fully_watched s)) <$> objs !! r.

Definition series_visits (objs : list SeriesInfo) (users_data : list UserWatchData)
  : list visit :=
  users_data ≫= λ u, omap (series_visit objs u) (watched_series u).

Definition full_visits (vs : list visit) : list visit :=
  filter (λ v, v_full v = true) vs.

Definition partial_visits (vs : list visit) : list visit :=
  filter (λ v, v_full v = false) vs.

(** Every reference held by a user record names an object of the store. *)
Definition valid_users (st : store) (users_data : list UserWatchData) : Prop :=
  Forall (λ u, Forall (λ r, r < length (movie_objs st)) (watched_movies u) ∧
               Forall (λ r, r < length (series_objs st)) (watched_series u))
         users_data.

(** The keys of the items of one user record. *)
Definition user_movie_keys (st : store) (u : UserWatchData) : list string :=
  omap (λ r, movie_key <$> movie_objs st !! r) (watched_movies u).

Definition user_series_keys (st : store) (u : UserWatchData) : list string :=
  omap (λ r, series_key <$> series_objs st !! r) (watched_series u).

(** No user record holds two items with the same title/year key. *)
Definition distinct_user_keys (st : store) (users_data : list UserWatchData) : Prop :=
  Forall (λ u, NoDup (user_movie_keys st u) ∧ NoDup (user_series_keys st u))
         users_data.

Section grouping_vocabulary.
Context {Obj : Type} (key : Obj → string) (setw : list string → Obj → Obj).

(** Every representative recorded in [D] is an object carrying the key
    it is recorded under. *)
Definition faithful (D : gmap string ref) (objs : list Obj) : Prop :=
  ∀ k r, D !! k = Some r → ∃ o, objs !! r = Some o ∧ key o = k.

(** Every visit names an object of the store that carries the visit's key. *)
Definition tracked (objs : list Obj) (vs : list visit) : Prop :=
  ∀ v, v ∈ vs → ∃ o, objs !! v_ref v = Some o ∧ key o = v_key v.

(** The references a categorisation loop files under "by all" and under
    "by some". *)
Definition filed_all (total : nat) (D : gmap string ref) (W : odict) : list ref :=
  omap (λ kw, if decide (length kw.2 = total) then D !! kw.1 else None) W.

Definition filed_some (total : nat) (D : gmap string ref) (W : odict) : list ref :=
  omap (λ kw, if decide (length kw.2 = total) then None else D !! kw.1) W.

(** The object at reference [r] after a categorisation loop over [W]. *)
Definition attached (D : gmap string ref) (W : odict) (r : ref) (o : Obj) : Obj :=
  match od_get (key o) W with
  | Some ws => if decide (D !! key o = Some r) then setw ws o else o
  | None => o
  end.
End grouping_vocabulary.

(** ** Reading a report back through the store *)

(** Length of the watcher list of a filed item, [None] if the reference
    names no object. *)
Definition movie_watchers_len (st : store) (r : ref) : option nat :=
  (λ m, length (m_watched_by_users m)) <$> movie_objs st !! r.

Definition series_watchers_len (st : store) (r : ref) : option nat :=
  (λ s, length (s_watched_by_users s)) <$> series_objs st !! r.

Definition by_all_len (n : nat) (len : option nat) : Prop := len = Some n.

Definition by_some_len (n : nat) (len : option nat) : Prop :=
  ∃ l, len = Some l ∧ 1 ≤ l ≤ n - 1.

(** The length bounds of the six buckets, read in the store the report
    was generated into. *)
Definition report_lengths_ok (st : store) (rep : Report) : Prop :=
  let n := length (users rep) in
  (∀ r, r ∈ movies_watched_by_all rep → by_all_len n (movie_watchers_len st r)) ∧
  (∀ r, r ∈ movies_watched_by_some rep → by_some_len n (movie_watchers_len st r)) ∧
  (∀ r, r ∈ series_fully_watched_by_all rep →
        by_all_len n (series_watchers_len st r)) ∧
  (∀ r, r ∈ series_fully_watched_by_some rep →
        by_some_len n (series_watchers_len st r)) ∧
  (∀ r, r ∈ series_partially_watched_by_all rep →
        by_all_len n (series_watchers_len st r)) ∧
  (∀ r, r ∈ series_partially_watched_by_some rep →
        by_some_len n (series_watchers_len st r)).

(** Number of visits carrying key [k]. *)
Definition count_key (k : string) (vs : list visit) : nat :=
  length (filter (λ v, v_key v = k) vs).

(** ** Who contributes the representative of a key *)

(** The key of the object at reference [r]. *)
Definition movie_key_at (st : store) (r : ref) : option string :=
  movie_key <$> movie_objs st !! r.

Definition series_key_at (st : store) (r : ref) : option string :=
  series_key <$> series_objs st !! r.

(** The references of [refs] whose object carries key [k]. *)
Definition carrying (key_at : ref → option string) (k : string)
    (refs : list ref) : list ref :=
  filter (λ r, key_at r = Some k) refs.

(** The last user, in the order of the users list, who has an item with
    key [k]; and the last such item of that user. *)
Definition last_user_with (key_at : ref → option string)
    (items : UserWatchData → list ref) (users_data : list UserWatchData)
    (k : string) : option UserWatchData :=
  last (filter (λ u, carrying key_at k (items u) ≠ []) users_data).

Definition last_contribution (key_at : ref → option string)
    (items : UserWatchData → list ref) (users_data : list UserWatchData)
    (k : string) : option ref :=
  match last_user_with key_at items users_data k with
  | Some u => last (carrying key_at k (items u))
  | None => None
  end.

Definition movie_buckets (rep : Report) : list ref :=
  movies_watched_by_all rep ++ movies_watched_by_some rep.

Definition series_buckets (rep : Report) : list ref :=
  series_fully_watched_by_all rep ++ series_fully_watched_by_some rep ++
  series_partially_watched_by_all rep ++ series_partially_watched_by_some rep.

(** The report [rep], generated from [users_data] in store [st] and read in
    the resulting store [st'], files for every key its last contribution
    and nothing else: every filed object is the last contribution of its
    key, with its own fields and a new watcher list; no other item is
    filed; and every key that some user holds has its last contribution
    filed, once per bucket pair, as the only filed object with that key
    (for a series, in the bucket pair of every flag under which a user
    holds the key). *)
Definition files_last_contributions (st : store)
    (users_data : list UserWatchData) (st' : store) (rep : Report) : Prop :=
  (∀ r, r ∈ movie_buckets rep →
     ∃ m ws, movie_objs st !! r = Some m ∧
       last_contribution (movie_key_at st) watched_movies users_data
         (movie_key m) = Some r ∧
       movie_objs st' !! r = Some (set_movie_watchers ws m)) ∧
  (∀ r, r ∈ series_buckets rep →
     ∃ s ws, series_objs st !! r = Some s ∧
       last_contribution (series_key_at st) watched_series users_data
         (series_key s) = Some r ∧
       series_objs st' !! r = Some (set_series_watchers ws s)) ∧
  (∀ r' k, movie_key_at st r' = Some k →
     last_contribution (movie_key_at st) watched_movies users_data k ≠ Some r' →
     r' ∉ movie_buckets rep) ∧
  (∀ r' k, series_key_at st r' = Some k →
     last_contribution (series_key_at st) watched_series users_data k ≠ Some r' →
     r' ∉ series_buckets rep) ∧
  (∀ u r m, u ∈ users_data → r ∈ watched_movies u → movie_objs st !! r = Some m →
     ∃ e, last_contribution (movie_key_at st) watched_movies users_data
            (movie_key m) = Some e ∧
          e ∈ movie_buckets rep ∧
          ∀ e', e' ∈ movie_buckets rep →
                movie_key_at st e' = Some (movie_key m) → e' = e) ∧
  (∀ u r s, u ∈ users_data → r ∈ watched_series u → series_objs st !! r = Some s →
     ∃ e, last_contribution (series_key_at st) watched_series users_data
            (series_key s) = Some e ∧
          e ∈ (if s_is_fully_watched s
               then series_fully_watched_by_all rep ++
                    series_fully_watched_by_some rep
               else series_partially_watched_by_all rep ++
                    series_partially_watched_by_some rep) ∧
          ∀ e', e' ∈ series_buckets rep →
                series_key_at st e' = Some (series_key s) → e' = e) ∧
  NoDup (movie_buckets rep) ∧
  NoDup (series_fully_watched_by_all rep ++ series_fully_watched_by_some rep) ∧
  NoDup (series_partially_watched_by_all rep ++ series_partially_watched_by_some rep).

(** The report groups the watched items by title and year: every watched
    item is represented by a filed entry with its title and year, two
    filed entries coincide exactly when their title and year do, and no
    bucket pair files an entry twice.  External identifiers play no part. *)
Definition groups_by_title_year (st : store)
    (users_data : list UserWatchData) (st' : store) (rep : Report) : Prop :=
  (∀ u r m, u ∈ users_data → r ∈ watched_movies u → movie_objs st !! r = Some m →
     ∃ e me, e ∈ movie_buckets rep ∧ movie_objs st' !! e = Some me ∧
             m_title me = m_title m ∧ m_year me = m_year m) ∧
  (∀ e1 e2 m1 m2, e1 ∈ movie_buckets rep → e2 ∈ movie_buckets rep →
     movie_objs st' !! e1 = Some m1 → movie_objs st' !! e2 = Some m2 →
     (e1 = e2 ↔ m_title m1 = m_title m2 ∧ m_year m1 = m_year m2)) ∧
  NoDup (movie_buckets rep) ∧
  (∀ u r s, u ∈ users_data → r ∈ watched_series u → series_objs st !! r = Some s →
     ∃ e se, e ∈ (if s_is_fully_watched s
                  then series_fully_watched_by_all rep ++
                       series_fully_watched_by_some rep
                  else series_partially_watched_by_all rep ++
                       series_partially_watched_by_some rep) ∧
             series_objs st' !! e = Some se ∧
             s_title se = s_title s ∧ s_year se = s_year s) ∧
  (∀ e1 e2 s1 s2, e1 ∈ series_buckets rep → e2 ∈ series_buckets rep →
     series_objs st' !! e1 = Some s1 → series_objs st' !! e2 = Some s2 →
     (e1 = e2 ↔ s_title s1 = s_title s2 ∧ s_year s1 = s_year s2)) ∧
  NoDup (series_fully_watched_by_all rep ++ series_fully_watched_by_some rep) ∧
  NoDup (series_partially_watched_by_all rep ++ series_partially_watched_by_some rep).

(** ** Vocabulary for the collection claims *)

(** The watched-episode count [_parse_series] obtains for an item. *)
Definition watched_count (srv : JellyfinServer) (c : JellyfinClient)
    (item : JfItem) (uid : string) : Z :=
  (is_series_fully_watched srv c (it_Id item) uid).1.2.

(** The grouping key an item of the media server will get. *)
Definition item_key (item : JfItem) : string :=
  title_year_key (default "Unknown" (it_Name item)) (it_ProductionYear item).

(** The series of a user that survive [_parse_series]. *)
Definition parsed_series (srv : JellyfinServer) (c : JellyfinClient)
    (sonarr_lookup : gmap string SonarrSeries) (user : JfUser) : list SeriesInfo :=
  omap (λ item, parse_series srv c item (u_Id user) sonarr_lookup)
       (get_watched_series srv c (u_Id user)).

Definition parsed_movies (srv : JellyfinServer) (c : JellyfinClient)
    (radarr_lookup : gmap string RadarrMovie) (user : JfUser) : list MovieInfo :=
  (λ movie, parse_movie movie radarr_lookup) <$> get_watched_movies srv c (u_Id user).

(** The record [ud] is the one [collect_data] builds for [user]: its
    lists name, in store [st], the parsed items of that user. *)
Definition record_of (srv : JellyfinServer) (c : JellyfinClient)
    (radarr_lookup : gmap string RadarrMovie)
    (sonarr_lookup : gmap string SonarrSeries)
    (st : store) (user : JfUser) (ud : UserWatchData) : Prop :=
  user_id ud = u_Id user ∧ username ud = u_Name user ∧
  movies_at st (watched_movies ud) = Some (parsed_movies srv c radarr_lookup user) ∧
  series_at st (watched_series ud) = Some (parsed_series srv c sonarr_lookup user).

(** What a finished collection shows about unwatched series: the record
    of each user has one entry per fetched series with a nonzero watched
    count and each entry stems from such a series; and every entry of a
    series bucket has a nonzero count and names, as watchers, only users
    who have a series of that key with a nonzero count. *)
Definition zero_count_excluded (srv : JellyfinServer) (c : JellyfinClient)
    (sonarr_lookup : gmap string SonarrSeries) (jellyfin_users : list JfUser)
    (st' : store) (rep : Report) : Prop :=
  Forall2 (λ user ud,
      user_id ud = u_Id user ∧ username ud = u_Name user ∧
      length (watched_series ud) =
        length (filter (λ item, watched_count srv c item (u_Id user) ≠ 0%Z)
                  (get_watched_series srv c (u_Id user))) ∧
      ∀ r, r ∈ watched_series ud →
        ∃ s item, series_objs st' !! r = Some s ∧
          item ∈ get_watched_series srv c (u_Id user) ∧
          watched_count srv c item (u_Id user) ≠ 0%Z ∧
          parse_series srv c item (u_Id user) sonarr_lookup =
            Some (set_series_watchers [] s))
    jellyfin_users (users rep) ∧
  (∀ r, r ∈ series_buckets rep →
     ∃ s, series_objs st' !! r = Some s ∧ s_watched_episodes s ≠ 0%Z ∧
       ∀ name, name ∈ s_watched_by_users s →
         ∃ user item, user ∈ jellyfin_users ∧ u_Name user = name ∧
           item ∈ get_watched_series srv c (u_Id user) ∧
           item_key item = series_key s ∧
           watched_count srv c item (u_Id user) ≠ 0%Z).

(** ** Reading the JSON form back *)

Definition load_str (j : json) : option string :=
  match j with JStr s => Some s | _ => None end.

Definition load_int (j : json) : option Z :=
  match j with JNum z => Some z | _ => None end.

Definition load_bool (j : json) : option bool :=
  match j with JBool b => Some b | _ => None end.

Definition load_opt {A : Type} (f : json → option A) (j : json)
  : option (option A) :=
  match j with
  | JNull => Some None
  | _ => Some <$> f j
  end.

Definition load_list {A : Type} (f : json → option A) (j : json)
  : option (list A) :=
  match j with
  | JArr items => mapM f items
  | _ => None
  end.

(** A required field, and a field with a default. *)
Definition required {A : Type} (k : string) (f : json → option A) (j : json)
  : option A :=
  match j with
  | JObj fields => assoc k fields ≫= f
  | _ => None
  end.

Definition defaulted {A : Type} (k : string) (dflt : A) (f : json → option A)
    (j : json) : option A :=
  match j with
  | JObj fields =>
      match assoc k fields with
      | Some v => f v
      | None => Some dflt
      end
  | _ => None
  end.

(** Modelled from the spec: the way back of "serializing a Report to the
    JSON form and back".  The repository only serialises ([model_dump] in
    web/app.py); no deserialiser is part of it.  The one modelled here is
    the validation that the field declarations of models.py (names, types,
    defaults) describe: a field is read under its name, a field with a
    default may be absent, [Optional] accepts null, and nested models and
    lists are read element by element. *)
Definition load_movie (j : json) : option MovieInfo :=
  title ← required "title" load_str j;
  year ← defaulted "year" None (load_opt load_int) j;
  tmdb_id ← defaulted "tmdb_id" None (load_opt load_str) j;
  imdb_id ← defaulted "imdb_id" None (load_opt load_str) j;
  path ← defaulted "path" None (load_opt load_str) j;
  in_radarr ← defaulted "in_radarr" false load_bool j;
  radarr_id ← defaulted "radarr_id" None (load_opt load_int) j;
  jellyfin_id ← defaulted "jellyfin_id" None (load_opt load_str) j;
  watched_by_users ← defaulted "watched_by_users" [] (load_list load_str) j;
  Some (mkMovieInfo title year tmdb_id imdb_id path in_radarr radarr_id
          jellyfin_id watched_by_users).

(** Modelled from the spec: the same reading for a [SeriesInfo]. *)
Definition load_series (j : json) : option SeriesInfo :=
  title ← required "title" load_str j;
  year ← defaulted "year" None (load_opt load_int) j;
  tvdb_id ← defaulted "tvdb_id" None (load_opt load_str) j;
  imdb_id ← defaulted "imdb_id" None (load_opt load_str) j;
  path ← defaulted "path" None (load_opt load_str) j;
  in_sonarr ← defaulted "in_sonarr" false load_bool j;
  sonarr_id ← defaulted "sonarr_id" None (load_opt load_int) j;
  sonarr_title_slug ← defaulted "sonarr_title_slug" None (load_opt load_str) j;
  jellyfin_id ← defaulted "jellyfin_id" None (load_opt load_str) j;
  total_episodes ← defaulted "total_episodes" 0%Z load_int j;
  watched_episodes ← defaulted "watched_episodes" 0%Z load_int j;
  is_fully_watched ← defaulted "is_fully_watched" false load_bool j;
  watched_by_users ← defaulted "watched_by_users" [] (load_list load_str) j;
  Some (mkSeriesInfo title year tvdb_id imdb_id path in_sonarr sonarr_id
          sonarr_title_slug jellyfin_id total_episodes watched_episodes
          is_fully_watched watched_by_users).

(** Modelled from the spec: the same reading for a [UserWatchData], its
    nested models included. *)
Definition load_user (j : json) : option UserData :=
  uid ← required "user_id" load_str j;
  name ← required "username" load_str j;
  ms ← defaulted "watched_movies" [] (load_list load_movie) j;
  ss ← defaulted "watched_series" [] (load_list load_series) j;
  Some (mkUserData uid name ms ss).

(** Modelled from the spec: the same reading for a [Report]. *)
Definition load_report (j : json) : option ReportData :=
  us ← defaulted "users" [] (load_list load_user) j;
  m_all ← defaulted "movies_watched_by_all" [] (load_list load_movie) j;
  m_some ← defaulted "movies_watched_by_some" [] (load_list load_movie) j;
  sf_all ← defaulted "series_fully_watched_by_all" [] (load_list load_series) j;
  sf_some ← defaulted "series_fully_watched_by_some" [] (load_list load_series) j;
  sp_all ← defaulted "series_partially_watched_by_all" []
             (load_list load_series) j;
  sp_some ← defaulted "series_partially_watched_by_some" []
              (load_list load_series) j;
  j_url ← defaulted "jellyfin_url" None (load_opt load_str) j;
  r_url ← defaulted "radarr_url" None (load_opt load_str) j;
  s_url ← defaulted "sonarr_url" None (load_opt load_str) j;
  Some (mkReportData us m_all m_some sf_all sf_some sp_all sp_some
          j_url r_url s_url).

(** Modelled from the spec: creating the instances of a validated
    document, which the repository never does; every nested model becomes
    a new object. *)
Definition intern_movies (st : store) (ms : list MovieInfo) : store * list ref :=
  (mkStore (movie_objs st ++ ms) (series_objs st),
   seq (length (movie_objs st)) (length ms)).

Definition intern_series (st : store) (ss : list SeriesInfo) : store * list ref :=
  (mkStore (movie_objs st) (series_objs st ++ ss),
   seq (length (series_objs st)) (length ss)).

Definition intern_user (acc : store * list UserWatchData) (u : UserData)
  : store * list UserWatchData :=
  let '(st1, mrefs) := intern_movies acc.1 (ud_movies u) in
  let '(st2, srefs) := intern_series st1 (ud_series u) in
  (st2, acc.2 ++ [mkUserWatchData (ud_user_id u) (ud_username u) mrefs srefs]).

Definition intern_report (st : store) (d : ReportData) : store * Report :=
  let '(st1, us) := fold_left intern_user (rd_users d) (st, []) in
  let '(st2, m_all) := intern_movies st1 (rd_movies_all d) in
  let '(st3, m_some) := intern_movies st2 (rd_movies_some d) in
  let '(st4, sf_all) := intern_series st3 (rd_full_all d) in
  let '(st5, sf_some) := intern_series st4 (rd_full_some d) in
  let '(st6, sp_all) := intern_series st5 (rd_partial_all d) in
  let '(st7, sp_some) := intern_series st6 (rd_partial_some d) in
  (st7, mkReport us m_all m_some sf_all sf_some sp_all sp_some
          (rd_jellyfin_url d) (rd_radarr_url d) (rd_sonarr_url d)).

(** Modelled from the spec: deserialising the JSON form into a Report, in
    a store of its own; the repository has no such function. *)
Definition model_validate (j : json) : option (store * Report) :=
  intern_report (mkStore [] []) <$> load_report j.

(** Store [st'] holds every object of [st], under the same reference. *)
Definition extends (st st' : store) : Prop :=
  ∃ ms ss, movie_objs st' = movie_objs st ++ ms ∧
           series_objs st' = series_objs st ++ ss.

(** ** Vocabulary for further properties of [_generate_report] *)

(** The usernames of the users holding an item with key [k], in the order
    of the users list, once per such item. *)
Definition watchers_of (key_at : ref → option string)
    (items : UserWatchData → list ref) (users_data : list UserWatchData)
    (k : string) : list string :=
  users_data ≫= λ u, (λ _, username u) <$> carrying key_at k (items u).

(** The references of a user's series whose object has the given
    [is_fully_watched] flag. *)
Definition flagged (st : store) (full : bool) (u : UserWatchData) : list ref :=
  filter (λ r, s_is_fully_watched <$> series_objs st !! r = Some full)
         (watched_series u).

(** What [_generate_report] leaves alone: it returns the records it was
    given and the configured URLs, creates and drops no object, assigns
    nothing but watcher lists, touches no object it does not file, and
    files only objects of the records. *)
Definition report_frame (svc : ArrCleanerService) (st : store)
    (users_data : list UserWatchData) (st' : store) (rep : Report) : Prop :=
  users rep = users_data ∧
  jellyfin_url rep = svc_jellyfin_url svc ∧
  radarr_url rep = svc_radarr_url svc ∧
  sonarr_url rep = svc_sonarr_url svc ∧
  length (movie_objs st') = length (movie_objs st) ∧
  length (series_objs st') = length (series_objs st) ∧
  (∀ r m, movie_objs st !! r = Some m →
     ∃ ws, movie_objs st' !! r = Some (set_movie_watchers ws m)) ∧
  (∀ r s, series_objs st !! r = Some s →
     ∃ ws, series_objs st' !! r = Some (set_series_watchers ws s)) ∧
  (∀ r, r ∉ movie_buckets rep → movie_objs st' !! r = movie_objs st !! r) ∧
  (∀ r, r ∉ series_buckets rep → series_objs st' !! r = series_objs st !! r) ∧
  (∀ r, r ∈ movie_buckets rep → ∃ u, u ∈ users_data ∧ r ∈ watched_movies u) ∧
  (∀ r, r ∈ series_buckets rep → ∃ u, u ∈ users_data ∧ r ∈ watched_series u).

(** The watcher list every filed movie ends with. *)
Definition movie_watchers_exact (st : store) (users_data : list UserWatchData)
    (st' : store) (rep : Report) : Prop :=
  ∀ r, r ∈ movie_buckets rep →
    ∃ m, movie_objs st !! r = Some m ∧
      movie_objs st' !! r =
        Some (set_movie_watchers
                (watchers_of (movie_key_at st) watched_movies users_data
                   (movie_key m)) m).

(** The watcher list every filed series ends with: the users who watched
    the key partially if there are any, else those who watched it fully. *)
Definition series_watchers_exact (st : store) (users_data : list UserWatchData)
    (st' : store) (rep : Report) : Prop :=
  ∀ r, r ∈ series_buckets rep →
    ∃ s, series_objs st !! r = Some s ∧
      series_objs st' !! r =
        Some (set_series_watchers
                (match watchers_of (series_key_at st) (flagged st false)
                         users_data (series_key s) with
                 | [] => watchers_of (series_key_at st) (flagged st true)
                           users_data (series_key s)
                 | p => p
                 end) s).

(** What the two movie buckets mean when no record repeats a key: a filed
    movie is "watched by all" when every user holds its key, and "watched
    by some" when some user does not. *)
Definition movie_buckets_meaning (st : store) (users_data : list UserWatchData)
    (rep : Report) : Prop :=
  ∀ r m, r ∈ movie_buckets rep → movie_objs st !! r = Some m →
    (r ∈ movies_watched_by_all rep ↔
       ∀ u, u ∈ users_data → movie_key m ∈ user_movie_keys st u) ∧
    (r ∈ movies_watched_by_some rep ↔
       ∃ u, u ∈ users_data ∧ movie_key m ∉ user_movie_keys st u).

(** The keys of the series of a record whose [is_fully_watched] flag is
    [full]. *)
Definition user_flagged_keys (st : store) (full : bool) (u : UserWatchData)
  : list string :=
  omap (series_key_at st) (flagged st full u).

(** What the four series buckets mean when no record repeats a key: an
    entry filed under "fully watched by all" carries a key that every user
    holds fully watched, under "fully watched by some" a key that some
    user holds fully watched and some user does not; likewise for the
    partially watched.  The entry itself is the last item of its key and
    need not carry the flag of its bucket. *)
Definition series_buckets_meaning (st : store) (users_data : list UserWatchData)
    (rep : Report) : Prop :=
  ∀ r s, r ∈ series_buckets rep → series_objs st !! r = Some s →
    (r ∈ series_fully_watched_by_all rep ↔
       ∀ u, u ∈ users_data → series_key s ∈ user_flagged_keys st true u) ∧
    (r ∈ series_fully_watched_by_some rep ↔
       (∃ u, u ∈ users_data ∧ series_key s ∈ user_flagged_keys st true u) ∧
       (∃ u, u ∈ users_data ∧ series_key s ∉ user_flagged_keys st true u)) ∧
    (r ∈ series_partially_watched_by_all rep ↔
       ∀ u, u ∈ users_data → series_key s ∈ user_flagged_keys st false u) ∧
    (r ∈ series_partially_watched_by_some rep ↔
       (∃ u, u ∈ users_data ∧ series_key s ∈ user_flagged_keys st false u) ∧
       (∃ u, u ∈ users_data ∧ series_key s ∉ user_flagged_keys st false u)).

(** ** clients/radarr.py, clients/sonarr.py: lookup by scanning *)

(** The loop of [get_movie_by_tmdb_id] and [get_series_by_tvdb_id]: the
    first item whose identifier reads like the wanted one. *)
Fixpoint first_by_ident {A : Type} (ident : A → option pyval) (wanted : pyval)
    (items : list A) : option A :=
  match items with
  | [] => None
  | x :: items' =>
      if String.eqb (py_str (py_get (ident x))) (py_str wanted) then Some x
      else first_by_ident ident wanted items'
  end.

(** Lines 39-49 of radarr.py and of sonarr.py; [None] stands for the empty
    dict returned when nothing matches or the library call fails. *)
Definition get_by_ident {A : Type} (ident : A → option pyval)
    (call : catalog_call A) (wanted : pyval) : option A :=
  match call with
  | Listed items => first_by_ident ident wanted items
  | CallFailed => None
  end.

Definition get_movie_by_tmdb_id (call : catalog_call RadarrMovie)
    (tmdb_id : pyval) : option RadarrMovie :=
  get_by_ident rm_tmdbId call tmdb_id.

Definition get_series_by_tvdb_id (call : catalog_call SonarrSeries)
    (tvdb_id : pyval) : option SonarrSeries :=
  get_by_ident ss_tvdbId call tvdb_id.

(** ** The base URL of a client *)

(** [base_url.rstrip("/")], the first statement of the three client
    constructors. *)
Fixpoint rstrip_slash (s : string) : string :=
  match s with
  | EmptyString => EmptyString
  | String c s' =>
      match rstrip_slash s' with
      | EmptyString =>
          if Ascii.eqb c "/" then EmptyString else String c EmptyString
      | String d t => String c (String d t)
      end
  end.

(** [f"{self.base_url}/Users/AuthenticateByName"] for a client constructed
    with [base_url]. *)
Definition authenticate_url (base_url : string) : string :=
  rstrip_slash base_url +:+ "/Users/AuthenticateByName".

(** [n] slashes. *)
Fixpoint slashes (n : nat) : string :=
  match n with
  | O => EmptyString
  | S n' => String "/" (slashes n')
  end.

Fixpoint ends_with_slash (s : string) : bool :=
  match s with
  | EmptyString => false
  | String c EmptyString => Ascii.eqb c "/"
  | String _ s' => ends_with_slash s'
  end.

(** ** Vocabulary for the collection properties *)

(** What a finished collection holds, from store [st] to store [st']:
    every object that existed before is unchanged; the objects created
    since are named, each by exactly one reference and in order of
    creation, by the records of the users; a record carries its user's id
    and name, and its movies are, watcher lists apart, the parsed forms of
    the movies fetched for that user, one for one and in fetch order. *)
Definition collection_allocates (srv : JellyfinServer) (c : JellyfinClient)
    (radarr_lookup : gmap string RadarrMovie) (jellyfin_users : list JfUser)
    (st st' : store) (rep : Report) : Prop :=
  (∀ r, r < length (movie_objs st) → movie_objs st' !! r = movie_objs st !! r) ∧
  (∀ r, r < length (series_objs st) → series_objs st' !! r = series_objs st !! r) ∧
  mjoin (watched_movies <$> users rep) =
    seq (length (movie_objs st))
        (length (movie_objs st') - length (movie_objs st)) ∧
  mjoin (watched_series <$> users rep) =
    seq (length (series_objs st))
        (length (series_objs st') - length (series_objs st)) ∧
  Forall2 (λ user ud,
      user_id ud = u_Id user ∧ username ud = u_Name user ∧
      Forall2 (λ r movie,
                 set_movie_watchers [] <$> movie_objs st' !! r =
                 Some (parse_movie movie radarr_lookup))
              (watched_movies ud) (get_watched_movies srv c (u_Id user)))
    jellyfin_users (users rep).

(** ** Vocabulary for the web properties *)

(** Every reference of the report names an object of the store. *)
Definition report_valid (st : store) (rep : Report) : Prop :=
  valid_users st (users rep) ∧
  Forall (λ r, r < length (movie_objs st)) (movie_buckets rep) ∧
  Forall (λ r, r < length (series_objs st)) (series_buckets rep).

(** ** Vocabulary for the catalog properties *)

(** The catalog item a provider id [t] is joined with: the last item of
    the catalog whose identifier is truthy and reads [t] as a string. *)
Definition catalog_match {A : Type} (ident : A → option pyval) (t : string)
    (items : list A) : option A :=
  last (filter (λ x, truthy (py_get (ident x)) = true ∧
                     py_str (py_get (ident x)) = t) items).

(** ** Concrete scenarios *)

(** [MovieInfo(title=..., year=...)] and [SeriesInfo(...)] with the other
    fields at their defaults. *)
Definition movie_of (title : string) (year : option Z) : MovieInfo :=
  mkMovieInfo title year None None None false None None [].

Definition series_of (title : string) (year : option Z)
    (total watched : Z) (full : bool) : SeriesInfo :=
  mkSeriesInfo title year None None None false None None None
    total watched full [].

Definition no_urls : ArrCleanerService := mkService None None None.

(** Two users; alice watched two films, bob one of them. *)
Definition demo_store : store :=
  mkStore [movie_of "Dune" (Some 2021%Z); movie_of "Alien" (Some 1979%Z);
           movie_of "Dune" (Some 2021%Z)]
          [series_of "Dark" (Some 2017%Z) 26 26 true;
           series_of "Dark" (Some 2017%Z) 26 3 false].

Definition demo_users : list UserWatchData :=
  [mkUserWatchData "u1" "alice" [0; 1] [0];
   mkUserWatchData "u2" "bob" [2] [1]].

(** One user whose watched list holds the same title and year twice. *)
Definition twice_store : store :=
  mkStore [movie_of "Dune" (Some 2021%Z); movie_of "Dune" (Some 2021%Z)] [].

Definition twice_users : list UserWatchData :=
  [mkUserWatchData "u1" "alice" [0; 1] []].

(** The same with a second user, bob, who watched nothing. *)
Definition twice_and_bob : list UserWatchData :=
  [mkUserWatchData "u1" "alice" [0; 1] [];
   mkUserWatchData "u2" "bob" [] []].

(** Two users and one series key: alice finished the series, bob did not. *)
Definition split_store : store :=
  mkStore [] [series_of "Dark" (Some 2017%Z) 26 26 true;
              series_of "Dark" (Some 2017%Z) 26 3 false].

Definition split_users : list UserWatchData :=
  [mkUserWatchData "u1" "alice" [] [0];
   mkUserWatchData "u2" "bob" [] [1]].

(** Two same-titled films without a year and with different TMDB ids. *)
Definition noyear_store : store :=
  mkStore [mkMovieInfo "Solaris" None (Some "593") None None false None None [];
           mkMovieInfo "Solaris" None (Some "2103") None None false None None []]
          [].

Definition noyear_users : list UserWatchData :=
  [mkUserWatchData "u1" "alice" [0] [];
   mkUserWatchData "u2" "bob" [1] []].

(** A server that answers the login request as given and nothing else. *)
Definition login_only (answer : http_response body) : JellyfinServer :=
  mkServer (λ _ _, answer) (λ _, TransportFailed) (λ _ _, TransportFailed)
           (λ _ _, TransportFailed) (λ _ _ _, TransportFailed).

Definition admin_client : JellyfinClient := mkClient "admin" "secret" None None.

(** A 200 answer whose JSON object lacks [AccessToken]. *)
Definition empty_object_server : JellyfinServer :=
  login_only (Responded 200 (Json (JObj []))).

(** A 200 answer with a token and no [User]. *)
Definition token_only_server : JellyfinServer :=
  login_only (Responded 200 (Json (JObj [("AccessToken", JStr "t0k3n")]))).

Definition unauthorized_server : JellyfinServer :=
  login_only (Responded 401 NotJson).

Definition good_login : body :=
  Json (JObj [("AccessToken", JStr "t0k3n");
              ("User", JObj [("Id", JStr "u1"); ("Name", JStr "admin")])]).

(** A catalog of three films: a usual one, one with [tmdbId] 0, one with
    no [tmdbId] field. *)
Definition three_films : list RadarrMovie :=
  [mkRadarrMovie (Some (PyInt 603)) (Some 1%Z);
   mkRadarrMovie (Some (PyInt 0)) (Some 2%Z);
   mkRadarrMovie None (Some 3%Z)].

(** Two films whose identifiers read alike: the number 0 and the string
    "0". *)
Definition zero_films : list RadarrMovie :=
  [mkRadarrMovie (Some (PyInt 0)) (Some 1%Z);
   mkRadarrMovie (Some (PyStr "0")) (Some 2%Z)].

(** A household of two: both users see the series "Dark"; alice played
    both of its episodes, bob none. *)
Definition dark_item : JfItem :=
  mkJfItem (Some "Dark") (Some 2017%Z) None None (Some "s1").

Definition episode_of (is_played : bool) : Episode :=
  mkEpisode (Some {["Played" := PyBool is_played]}).

Definition family_server : JellyfinServer :=
  mkServer (λ _ _, Responded 200 good_login)
           (λ _, Responded 200 [mkJfUser "u1" "alice"; mkJfUser "u2" "bob"])
           (λ _ _, Responded 200 [])
           (λ _ _, Responded 200 [dark_item])
           (λ _ uid _, Responded 200
              (if decide (uid = "u1")
               then [episode_of true; episode_of true]
               else [episode_of false; episode_of false])).

Definition family_world : World := mkWorld family_server (Listed []) (Listed []).

Definition logged_in : JellyfinClient :=
  mkClient "admin" "secret" (Some (JStr "t0k3n")) (Some (JStr "u1")).

Definition empty_store : store := mkStore [] [].

(** The store and the report left by generating the report of the two
    users above, and the JSON form of that report. *)
Definition demo_after : store * Report :=
  Eval vm_compute in
    default (demo_store, Report_default)
            (generate_report no_urls demo_store demo_users).

Definition demo_json : json :=
  Eval vm_compute in default JNull (model_dump demo_after.1 demo_after.2).

(** The store and the web app after main.py has collected from that
    household. *)
Definition family_store : store :=
  Eval vm_compute in
    (collect_data no_urls family_world admin_client empty_store).1.2.

Definition family_app : WebApp :=
  Eval vm_compute in
    match main_collect no_urls family_world admin_client empty_store app_start with
    | (_, _, Ok app) => app
    | _ => app_start
    end.

(** A film known to the media server under TMDB id 603, and a catalog that
    lists that id twice. *)
Definition matrix_item : JfItem :=
  mkJfItem (Some "The Matrix") (Some 1999%Z) (Some {["Tmdb" := "603"]})
           None (Some "m1").

Definition matrix_catalog : list RadarrMovie :=
  [mkRadarrMovie (Some (PyInt 603)) (Some 11%Z);
   mkRadarrMovie (Some (PyStr "603")) (Some 12%Z);
   mkRadarrMovie (Some (PyInt 604)) (Some 13%Z)].

(** The series "Dark" with its TVDB id, and a catalog that lists it. *)
Definition dark_tvdb_item : JfItem :=
  mkJfItem (Some "Dark") (Some 2017%Z) (Some {["Tvdb" := "334824"]})
           None (Some "s1").

Definition dark_catalog : list SonarrSeries :=
  [mkSonarrSeries (Some (PyInt 334824)) (Some 7%Z) (Some "dark")].

(** A household with films: alice watched "The Matrix" and "Dune", bob
    "The Matrix"; both see "Dark", of which only alice played episodes.
    Both catalogs list what they know. *)
Definition dune_item : JfItem :=
  mkJfItem (Some "Dune") (Some 2021%Z) None None (Some "m2").

Definition cinema_server : JellyfinServer :=
  mkServer (λ _ _, Responded 200 good_login)
           (λ _, Responded 200 [mkJfUser "u1" "alice"; mkJfUser "u2" "bob"])
           (λ uid _, Responded 200
              (if decide (uid = "u1") then [matrix_item; dune_item]
               else [matrix_item]))
           (λ _ _, Responded 200 [dark_tvdb_item])
           (λ _ uid _, Responded 200
              (if decide (uid = "u1")
               then [episode_of true; episode_of true]
               else [episode_of false; episode_of false])).

Definition cinema_world : World :=
  mkWorld cinema_server (Listed matrix_catalog) (Listed dark_catalog).

(** The same household while neither catalog can be reached. *)
Definition cinema_outage : World := mkWorld cinema_server CallFailed CallFailed.

(** The store and the report [collect_data] leaves in either world, from
    a store that holds objects already. *)
Definition cinema_after : store * Report :=
  Eval vm_compute in
    match collect_data no_urls cinema_world admin_client demo_store with
    | (_, st', Ok rep) => (st', rep)
    | _ => (demo_store, Report_default)
    end.

Definition outage_after : store * Report :=
  Eval vm_compute in
    match collect_data no_urls cinema_outage admin_client demo_store with
    | (_, st', Ok rep) => (st', rep)
    | _ => (demo_store, Report_default)
    end.

(** * Properties *)

(** ** The key is injective on (title, year) *)

Lemma pretty_N_char_not_underscore x : Ascii.eqb "_" (pretty_N_char x) = false.
Proof. unfold pretty_N_char. by repeat case_match. Qed.

Lemma pretty_N_char_not_N x : pretty_N_char x ≠ "N"%char.
Proof. unfold pretty_N_char. by repeat case_match. Qed.

Lemma has_char_cons c d s :
  has_char c (String d s) = if Ascii.eqb c d then true else has_char c s.
Proof. reflexivity. Qed.

Lemma pretty_N_go_no_underscore n s :
  has_char "_"%char s = false → has_char "_"%char (pretty_N_go n s) = false.
Proof.
  revert s. induction (N.lt_wf_0 n) as [n _ IH]; intros s Hs.
  destruct (decide (n = 0)%N) as [->|Hn].
  - by rewrite pretty_N_go_0.
  - rewrite pretty_N_go_step by lia. apply IH.
    + apply N.div_lt; lia.
    + by rewrite has_char_cons, pretty_N_char_not_underscore.
Qed.

Lemma pretty_N_no_underscore (n : N) : has_char "_"%char (pretty n) = false.
Proof.
  unfold pretty, pretty_N. case_decide; [reflexivity|].
  by apply pretty_N_go_no_underscore.
Qed.

Lemma pretty_Z_no_underscore (z : Z) : has_char "_"%char (pretty z) = false.
Proof.
  destruct z as [|p|p]; [reflexivity|apply pretty_N_no_underscore|].
  change (pretty (Z.neg p)) with (String "-" (pretty (N.pos p))).
  rewrite has_char_cons. apply pretty_N_no_underscore.
Qed.

Lemma fmt_year_no_underscore y : has_char "_"%char (fmt_year y) = false.
Proof. destruct y; [apply pretty_Z_no_underscore|reflexivity]. Qed.

Lemma pretty_N_go_not_None n s : s ≠ "None" → pretty_N_go n s ≠ "None".
Proof.
  revert s. induction (N.lt_wf_0 n) as [n _ IH]; intros s Hs.
  destruct (decide (n = 0)%N) as [->|Hn].
  - by rewrite pretty_N_go_0.
  - rewrite pretty_N_go_step by lia. apply IH.
    + apply N.div_lt; lia.
    + intros [= Hc _]. by apply pretty_N_char_not_N in Hc.
Qed.

Lemma pretty_N_not_None (n : N) : pretty n ≠ "None".
Proof.
  unfold pretty, pretty_N. case_decide; [done|].
  by apply pretty_N_go_not_None.
Qed.

Lemma pretty_Z_not_None (z : Z) : pretty z ≠ "None".
Proof.
  destruct z as [|p|p]; [done|apply pretty_N_not_None|].
  change (pretty (Z.neg p)) with (String "-" (pretty (N.pos p))). done.
Qed.

Lemma fmt_year_inj y1 y2 : fmt_year y1 = fmt_year y2 → y1 = y2.
Proof.
  destruct y1 as [z1|], y2 as [z2|]; unfold fmt_year; intros H; try done.
  - f_equal. by apply (inj pretty).
  - by apply pretty_Z_not_None in H.
  - symmetry in H. by apply pretty_Z_not_None in H.
Qed.

Lemma has_char_sep t y : has_char "_"%char (t +:+ "_" +:+ y) = true.
Proof.
  induction t as [|e t IH]; [reflexivity|].
  change (String e t +:+ "_" +:+ y) with (String e (t +:+ "_" +:+ y)).
  rewrite has_char_cons, IH. by destruct (Ascii.eqb _ _).
Qed.

Lemma sep_suffix_inj t1 t2 y1 y2 :
  has_char "_"%char y1 = false → has_char "_"%char y2 = false →
  t1 +:+ "_" +:+ y1 = t2 +:+ "_" +:+ y2 → t1 = t2 ∧ y1 = y2.
Proof.
  intros H1 H2. revert t2.
  induction t1 as [|c t1 IH]; intros [|d t2] Heq.
  - change (String "_" y1 = String "_" y2) in Heq. by injection Heq as ->.
  - change (String "_" y1 = String d (t2 +:+ "_" +:+ y2)) in Heq.
    injection Heq as _ Heq. rewrite Heq in H1.
    by rewrite (has_char_sep t2 y2) in H1.
  - change (String c (t1 +:+ "_" +:+ y1) = String "_" y2) in Heq.
    injection Heq as _ Heq. rewrite <-Heq in H2.
    by rewrite (has_char_sep t1 y1) in H2.
  - change (String c (t1 +:+ "_" +:+ y1) = String d (t2 +:+ "_" +:+ y2)) in Heq.
    injection Heq as -> Heq. destruct (IH _ Heq) as [-> ->]. done.
Qed.

Lemma title_year_key_inj t1 y1 t2 y2 :
  title_year_key t1 y1 = title_year_key t2 y2 ↔ t1 = t2 ∧ y1 = y2.
Proof.
  split; [|by intros [-> ->]].
  unfold title_year_key. intros H.
  apply sep_suffix_inj in H as [-> Hy]; auto using fmt_year_no_underscore.
  split; [done|]. by apply fmt_year_inj.
Qed.

(** ** The option-valued fold *)

Lemma foldlM_cons {A B} (f : B → A → option B) b x l :
  foldlM f b (x :: l) =
  match f b x with Some b' => foldlM f b' l | None => None end.
Proof. reflexivity. Qed.

(** ** Insertion-ordered accumulators *)

Lemma od_get_append k k' v d :
  od_get k (od_append k' v d) =
  if decide (k = k') then Some (default [] (od_get k d) ++ [v]) else od_get k d.
Proof.
  induction d as [|[k0 vs] d IH]; simpl.
  - repeat case_decide; simplify_eq; done.
  - repeat (case_decide; simplify_eq/=); try done.
Qed.

Lemma od_keys_append k v d :
  (od_append k v d).*1 = if decide (k ∈ d.*1) then d.*1 else d.*1 ++ [k].
Proof.
  induction d as [|[k0 vs] d IH]; csimpl; [done|].
  destruct (decide (k = k0)) as [->|Hne]; csimpl.
  - rewrite decide_True by left. done.
  - rewrite IH. destruct (decide (k ∈ d.*1)) as [Hin|Hin].
    + rewrite decide_True by (by right). done.
    + rewrite decide_False; [done|]. rewrite elem_of_cons. naive_solver.
Qed.

Lemma od_append_NoDup k v d : NoDup d.*1 → NoDup (od_append k v d).*1.
Proof.
  intros Hd. rewrite od_keys_append. case_decide; [done|].
  apply NoDup_app. split_and!; [done| |apply NoDup_singleton].
  intros x Hx ->%list_elem_of_singleton. done.
Qed.

Lemma od_get_elem_of k ws (d : odict) :
  NoDup d.*1 → (k, ws) ∈ d ↔ od_get k d = Some ws.
Proof.
  induction d as [|[k0 vs] d IH]; simpl; intros Hd.
  - split; [by intros ?%elem_of_nil|done].
  - apply NoDup_cons in Hd as [Hk0 Hd]. rewrite elem_of_cons, IH by done.
    case_decide as Hk; simplify_eq.
    + split; [intros [?|Hget]; [by simplify_eq|]|intros [= ->]; by left].
      exfalso. apply Hk0. apply IH in Hget; [|done].
      change k0 with (fst (k0, ws)). by apply list_elem_of_fmap_2.
    + split; [intros [?|?]; by simplify_eq|by right].
Qed.

Lemma od_get_None k (d : odict) : od_get k d = None ↔ k ∉ d.*1.
Proof.
  induction d as [|[k0 vs] d IH]; simpl.
  - split; [intros _ ?%elem_of_nil; done|done].
  - rewrite elem_of_cons. case_decide; simplify_eq; naive_solver.
Qed.

Lemma od_build_snoc kus k u :
  od_build (kus ++ [(k, u)]) = od_append k u (od_build kus).
Proof. unfold od_build. by rewrite fold_left_app. Qed.

Lemma ws_of_snoc k kus k' u :
  ws_of k (kus ++ [(k', u)]) = ws_of k kus ++ (if decide (k' = k) then [u] else []).
Proof.
  unfold ws_of. rewrite filter_app, fmap_app. f_equal.
  rewrite filter_cons. simpl. case_decide; done.
Qed.

Lemma od_build_NoDup kus : NoDup (od_build kus).*1.
Proof.
  induction kus as [|[k u] kus IH] using rev_ind; [constructor|].
  rewrite od_build_snoc. by apply od_append_NoDup.
Qed.

Lemma od_get_build k kus :
  od_get k (od_build kus) =
  match ws_of k kus with [] => None | _ :: _ => Some (ws_of k kus) end.
Proof.
  induction kus as [|[k' u] kus IH] using rev_ind; [done|].
  rewrite od_build_snoc, od_get_append, ws_of_snoc, IH.
  destruct (decide (k = k')) as [->|Hne].
  - rewrite decide_True by done.
    destruct (ws_of k' kus); simpl; done.
  - rewrite decide_False by done. by rewrite app_nil_r.
Qed.

Lemma od_build_elem_of k ws kus :
  (k, ws) ∈ od_build kus ↔ ws = ws_of k kus ∧ ws ≠ [].
Proof.
  rewrite od_get_elem_of by apply od_build_NoDup. rewrite od_get_build.
  destruct (ws_of k kus) eqn:E; naive_solver.
Qed.

Lemma data_build_snoc krs k r :
  data_build (krs ++ [(k, r)]) = <[k := r]> (data_build krs).
Proof. unfold data_build. by rewrite fold_left_app. Qed.

Lemma data_build_lookup k krs : data_build krs !! k = last_ref k krs.
Proof.
  unfold last_ref.
  induction krs as [|[k' r] krs IH] using rev_ind; [done|].
  rewrite data_build_snoc, filter_app, fmap_app, filter_cons. simpl.
  destruct (decide (k' = k)) as [->|Hne].
  - rewrite lookup_insert_eq. simpl. by rewrite last_snoc.
  - rewrite lookup_insert_ne by done. simpl. by rewrite app_nil_r.
Qed.

(** ** One categorisation loop *)

Section grouping.
Context {Obj : Type} (key : Obj → string) (setw : list string → Obj → Obj).
Hypothesis key_setw : ∀ ws o, key (setw ws o) = key o.

Lemma faithful_insert D (objs : list Obj) r o ws :
  faithful key D objs → objs !! r = Some o →
  faithful key D (<[r := setw ws o]> objs).
Proof.
  intros HD Hr k r' Hk. destruct (HD k r' Hk) as (o' & Ho' & Hkey).
  destruct (decide (r = r')) as [<-|Hne].
  - exists (setw ws o). rewrite list_lookup_insert_eq
      by (by eapply lookup_lt_Some). split; [done|].
    rewrite key_setw. congruence.
  - exists o'. by rewrite list_lookup_insert_ne.
Qed.

Lemma filed_all_cons total D k ws (W : odict) r :
  D !! k = Some r →
  filed_all total D ((k, ws) :: W) =
  (if decide (length ws = total) then [r] else []) ++ filed_all total D W.
Proof.
  intros Hr. unfold filed_all. csimpl.
  case_decide; [by rewrite Hr|done].
Qed.

Lemma filed_some_cons total D k ws (W : odict) r :
  D !! k = Some r →
  filed_some total D ((k, ws) :: W) =
  (if decide (length ws = total) then [] else [r]) ++ filed_some total D W.
Proof.
  intros Hr. unfold filed_some. csimpl.
  case_decide; [done|by rewrite Hr].
Qed.

Lemma categorize_step_run total D (objs : list Obj) A S k ws r o :
  D !! k = Some r → objs !! r = Some o →
  categorize_step setw total D (objs, A, S) (k, ws) =
  Some (<[r := setw ws o]> objs,
        A ++ (if decide (length ws = total) then [r] else []),
        S ++ (if decide (length ws = total) then [] else [r])).
Proof.
  intros Hr Ho. unfold categorize_step. rewrite Hr, Ho.
  case_decide; by rewrite app_nil_r.
Qed.

Lemma attached_step D (W : odict) (objs : list Obj) k ws r o x :
  D !! k = Some r → objs !! r = Some o → key o = k → od_get k W = None →
  attached key setw D W x <$> <[r:=setw ws o]> objs !! x =
  attached key setw D ((k, ws) :: W) x <$> objs !! x.
Proof.
  intros Hr Ho Hkey HkW. destruct (decide (r = x)) as [<-|Hne].
  - rewrite list_lookup_insert_eq by (by eapply lookup_lt_Some).
    rewrite Ho. simpl. unfold attached. simpl.
    rewrite key_setw, Hkey, HkW.
    rewrite decide_True by done. by rewrite decide_True by done.
  - rewrite list_lookup_insert_ne by done.
    destruct (objs !! x) as [o'|] eqn:Ho'; [simpl|done].
    f_equal. unfold attached. simpl.
    destruct (decide (key o' = k)) as [Hk'|Hk']; [|done].
    rewrite Hk', HkW, Hr. rewrite decide_False; [done|congruence].
Qed.

Lemma categorize_fold total D (W : odict) : ∀ (objs : list Obj) A S,
  NoDup W.*1 → faithful key D objs →
  (∀ k, k ∈ W.*1 → is_Some (D !! k)) →
  ∃ objs',
    foldlM (categorize_step setw total D) (objs, A, S) W =
      Some (objs', A ++ filed_all total D W, S ++ filed_some total D W) ∧
    ∀ r, objs' !! r = attached key setw D W r <$> objs !! r.
Proof.
  induction W as [|[k ws] W IH]; intros objs A S Hnd HD Hcov.
  - exists objs. simpl. rewrite !app_nil_r. split; [done|].
    intros r. unfold attached. simpl. by destruct (objs !! r).
  - rewrite fmap_cons in Hnd. apply NoDup_cons in Hnd as [Hk Hnd].
    destruct (Hcov k) as [r Hr]; [rewrite fmap_cons; left|].
    destruct (HD k r Hr) as (o & Ho & Hkey).
    assert (od_get k W = None) as HkW by (by apply od_get_None).
    destruct (IH (<[r:=setw ws o]> objs)
                (A ++ (if decide (length ws = total) then [r] else []))
                (S ++ (if decide (length ws = total) then [] else [r])))
      as (objs' & Hrun & Hlook);
      [done|by apply faithful_insert
      |by intros k' ?; apply Hcov; rewrite fmap_cons; right|].
    exists objs'. split.
    + change (foldlM ?f ?b (?x :: ?l)) with
        (match f b x with Some b' => foldlM f b' l | None => None end).
      rewrite (categorize_step_run total D objs A S k ws r o Hr Ho), Hrun.
      rewrite (filed_all_cons total D k ws W r Hr).
      rewrite (filed_some_cons total D k ws W r Hr).
      by rewrite !app_assoc.
    + intros x. rewrite Hlook. by apply attached_step.
Qed.

Lemma categorize_spec total D (W : odict) (objs : list Obj) :
  NoDup W.*1 → faithful key D objs →
  (∀ k, k ∈ W.*1 → is_Some (D !! k)) →
  ∃ objs',
    categorize setw total W D objs =
      Some (objs', filed_all total D W, filed_some total D W) ∧
    ∀ r, objs' !! r = attached key setw D W r <$> objs !! r.
Proof. intros. unfold categorize. by apply (categorize_fold total D W objs [] []). Qed.

Lemma attached_key D W r o : key (attached key setw D W r o) = key o.
Proof.
  unfold attached. destruct (od_get _ _); [|done].
  case_decide; [apply key_setw|done].
Qed.

Lemma faithful_attached D D' W (objs objs' : list Obj) :
  faithful key D objs →
  (∀ r, objs' !! r = attached key setw D' W r <$> objs !! r) →
  faithful key D objs'.
Proof.
  intros HD Hlook k r Hk. destruct (HD k r Hk) as (o & Ho & Hkey).
  exists (attached key setw D' W r o). rewrite Hlook, Ho. split; [done|].
  by rewrite attached_key.
Qed.

Lemma elem_of_filed_all total D (W : odict) r :
  r ∈ filed_all total D W ↔
  ∃ k ws, (k, ws) ∈ W ∧ length ws = total ∧ D !! k = Some r.
Proof.
  unfold filed_all. rewrite list_elem_of_omap. split.
  - intros ([k ws] & Hin & Hsel). simpl in Hsel. case_decide; [|done]. eauto.
  - intros (k & ws & Hin & Hlen & Hr). exists (k, ws). split; [done|].
    simpl. by rewrite decide_True.
Qed.

Lemma elem_of_filed_some total D (W : odict) r :
  r ∈ filed_some total D W ↔
  ∃ k ws, (k, ws) ∈ W ∧ length ws ≠ total ∧ D !! k = Some r.
Proof.
  unfold filed_some. rewrite list_elem_of_omap. split.
  - intros ([k ws] & Hin & Hsel). simpl in Hsel. case_decide; [done|]. eauto.
  - intros (k & ws & Hin & Hlen & Hr). exists (k, ws). split; [done|].
    simpl. by rewrite decide_False.
Qed.
End grouping.

(** ** The indexing loops compute the accumulators of their visits *)

Lemma fold_movie_acc (vs : list visit) (d : odict) (m : gmap string ref) :
  fold_left (λ acc v, (od_append (v_key v) (v_user v) acc.1,
                       <[v_key v := v_ref v]> acc.2)) vs (d, m) =
  (fold_left (λ d ku, od_append ku.1 ku.2 d) (kus_of vs) d,
   fold_left (λ m kr, <[kr.1 := kr.2]> m) (krs_of vs) m).
Proof.
  revert d m. induction vs as [|v vs IH]; intros d m; [done|].
  simpl. by rewrite IH.
Qed.

Lemma index_movies_inner objs u refs acc :
  Forall (λ r, r < length objs) refs →
  foldlM (index_movie_step objs u) acc refs =
  Some (fold_left (λ acc v, (od_append (v_key v) (v_user v) acc.1,
                             <[v_key v := v_ref v]> acc.2))
          (omap (movie_visit objs u) refs) acc).
Proof.
  revert acc. induction refs as [|r refs IH]; intros [d m] Hv; [done|].
  apply Forall_cons in Hv as [Hr Hv].
  apply lookup_lt_is_Some_2 in Hr as [o Ho].
  assert (movie_visit objs u r = Some (mkVisit (movie_key o) (username u) r true))
    as Hvis by (unfold movie_visit; by rewrite Ho).
  simpl. rewrite Ho, Hvis. simpl. by rewrite IH.
Qed.

Lemma index_movies_outer st users_data acc :
  valid_users st users_data →
  foldlM (λ acc user_data,
            foldlM (index_movie_step (movie_objs st) user_data) acc
              (watched_movies user_data)) acc users_data =
  Some (fold_left (λ acc v, (od_append (v_key v) (v_user v) acc.1,
                             <[v_key v := v_ref v]> acc.2))
          (movie_visits (movie_objs st) users_data) acc).
Proof.
  intros Hv. revert acc.
  induction Hv as [|u us [Hm _] _ IH]; intros acc; [done|].
  rewrite foldlM_cons, index_movies_inner by done.
  unfold movie_visits. rewrite bind_cons, fold_left_app. apply IH.
Qed.

Lemma index_movies_spec st users_data :
  valid_users st users_data →
  index_movies (movie_objs st) users_data =
  Some (od_build (kus_of (movie_visits (movie_objs st) users_data)),
        data_build (krs_of (movie_visits (movie_objs st) users_data))).
Proof.
  intros Hv. unfold index_movies, od_build, data_build.
  rewrite <-fold_movie_acc. by apply index_movies_outer.
Qed.

(** The series loop feeds two watcher accumulators, selected by the flag. *)
Lemma fold_series_acc (vs : list visit) (f p : odict) (m : gmap string ref) :
  fold_left (λ acc v,
      if v_full v
      then (od_append (v_key v) (v_user v) acc.1.1, acc.1.2,
            <[v_key v := v_ref v]> acc.2)
      else (acc.1.1, od_append (v_key v) (v_user v) acc.1.2,
            <[v_key v := v_ref v]> acc.2)) vs (f, p, m) =
  (fold_left (λ d ku, od_append ku.1 ku.2 d) (kus_of (full_visits vs)) f,
   fold_left (λ d ku, od_append ku.1 ku.2 d) (kus_of (partial_visits vs)) p,
   fold_left (λ m kr, <[kr.1 := kr.2]> m) (krs_of vs) m).
Proof.
  revert f p m. induction vs as [|v vs IH]; intros f p m; [done|].
  unfold full_visits, partial_visits in *. rewrite !filter_cons.
  simpl. destruct (v_full v) eqn:Hf; simpl; by rewrite IH.
Qed.

Lemma index_series_inner objs u refs acc :
  Forall (λ r, r < length objs) refs →
  foldlM (index_series_step objs u) acc refs =
  Some (fold_left (λ acc v,
      if v_full v
      then (od_append (v_key v) (v_user v) acc.1.1, acc.1.2,
            <[v_key v := v_ref v]> acc.2)
      else (acc.1.1, od_append (v_key v) (v_user v) acc.1.2,
            <[v_key v := v_ref v]> acc.2))
          (omap (series_visit objs u) refs) acc).
Proof.
  revert acc. induction refs as [|r refs IH]; intros [[f p] m] Hv; [done|].
  apply Forall_cons in Hv as [Hr Hv].
  apply lookup_lt_is_Some_2 in Hr as [o Ho].
  assert (series_visit objs u r =
          Some (mkVisit (series_key o) (username u) r (s_is_fully_watched o)))
    as Hvis by (unfold series_visit; by rewrite Ho).
  simpl. rewrite Ho, Hvis. simpl.
  destruct (s_is_fully_watched o); by rewrite IH.
Qed.

Lemma index_series_outer st users_data acc :
  valid_users st users_data →
  foldlM (λ acc user_data,
            foldlM (index_series_step (series_objs st) user_data) acc
              (watched_series user_data)) acc users_data =
  Some (fold_left (λ acc v,
      if v_full v
      then (od_append (v_key v) (v_user v) acc.1.1, acc.1.2,
            <[v_key v := v_ref v]> acc.2)
      else (acc.1.1, od_append (v_key v) (v_user v) acc.1.2,
            <[v_key v := v_ref v]> acc.2))
          (series_visits (series_objs st) users_data) acc).
Proof.
  intros Hv. revert acc.
  induction Hv as [|u us [_ Hs] _ IH]; intros acc; [done|].
  rewrite foldlM_cons, index_series_inner by done.
  unfold series_visits. rewrite bind_cons, fold_left_app. apply IH.
Qed.

Lemma index_series_spec st users_data :
  valid_users st users_data →
  index_series (series_objs st) users_data =
  Some (od_build (kus_of (full_visits (series_visits (series_objs st) users_data))),
        od_build (kus_of (partial_visits (series_visits (series_objs st) users_data))),
        data_build (krs_of (series_visits (series_objs st) users_data))).
Proof.
  intros Hv. unfold index_series, od_build, data_build.
  rewrite <-fold_series_acc. by apply index_series_outer.
Qed.

(** ** From visits to the preconditions of a categorisation loop *)

Lemma last_ref_Some k r vs :
  last_ref k (krs_of vs) = Some r → ∃ v, v ∈ vs ∧ v_key v = k ∧ v_ref v = r.
Proof.
  unfold last_ref, krs_of. intros H. apply last_Some_elem_of in H.
  apply list_elem_of_fmap in H as ([k' r'] & -> & H).
  apply list_elem_of_filter in H as [Hk H]. simpl in Hk.
  apply list_elem_of_fmap in H as (v & [= -> ->] & Hv). eauto.
Qed.

Lemma last_is_Some_elem_of {A} (x : A) l : x ∈ l → is_Some (last l).
Proof.
  destruct l as [|y l _] using rev_ind; [by intros ?%elem_of_nil|].
  rewrite last_snoc. eauto.
Qed.

Lemma last_ref_is_Some v vs :
  v ∈ vs → is_Some (last_ref (v_key v) (krs_of vs)).
Proof.
  intros Hv. unfold last_ref. apply (last_is_Some_elem_of (v_ref v)).
  apply (list_elem_of_fmap_2' snd _ (v_key v, v_ref v)); [|done].
  apply list_elem_of_filter. split; [done|].
  unfold krs_of. by apply (list_elem_of_fmap_2 (λ v, (v_key v, v_ref v))).
Qed.

Lemma ws_of_nonempty k vs :
  ws_of k (kus_of vs) ≠ [] → ∃ v, v ∈ vs ∧ v_key v = k.
Proof.
  unfold ws_of, kus_of. intros H.
  destruct (filter _ _) as [|[k' u] l] eqn:E; [done|].
  assert ((k', u) ∈ filter (λ ku, ku.1 = k) ((λ v, (v_key v, v_user v)) <$> vs))
    as Hin by (rewrite E; left).
  apply list_elem_of_filter in Hin as [Hk Hin]. simpl in Hk.
  apply list_elem_of_fmap in Hin as (v & [= -> ->] & Hv). eauto.
Qed.

Section builds.
Context {Obj : Type} (key : Obj → string).

Lemma build_faithful (objs : list Obj) vs :
  tracked key objs vs → faithful key (data_build (krs_of vs)) objs.
Proof.
  intros Htr k r Hk. rewrite data_build_lookup in Hk.
  apply last_ref_Some in Hk as (v & Hv & <- & <-). by apply Htr.
Qed.

Lemma build_covered (wvs vs : list visit) k :
  (∀ v, v ∈ wvs → v ∈ vs) →
  k ∈ (od_build (kus_of wvs)).*1 → is_Some (data_build (krs_of vs) !! k).
Proof.
  intros Hsub Hk. rewrite data_build_lookup.
  destruct (od_get k (od_build (kus_of wvs))) as [ws|] eqn:Hget.
  - rewrite od_get_build in Hget.
    destruct (ws_of_nonempty k wvs) as (v & Hv & <-).
    { by destruct (ws_of k (kus_of wvs)). }
    apply last_ref_is_Some. by apply Hsub.
  - by apply od_get_None in Hget.
Qed.
End builds.

Lemma movie_visits_tracked objs users_data :
  tracked movie_key objs (movie_visits objs users_data).
Proof.
  intros v Hv. unfold movie_visits in Hv.
  apply list_elem_of_bind in Hv as (u & Hv & Hu).
  apply list_elem_of_omap in Hv as (r & Hr & Hv).
  unfold movie_visit in Hv. destruct (objs !! r) as [o|] eqn:Ho; [|done].
  injection Hv as <-. simpl. eauto.
Qed.

Lemma series_visits_tracked objs users_data :
  tracked series_key objs (series_visits objs users_data).
Proof.
  intros v Hv. unfold series_visits in Hv.
  apply list_elem_of_bind in Hv as (u & Hv & Hu).
  apply list_elem_of_omap in Hv as (r & Hr & Hv).
  unfold series_visit in Hv. destruct (objs !! r) as [o|] eqn:Ho; [|done].
  injection Hv as <-. simpl. eauto.
Qed.

Lemma movie_key_set ws m : movie_key (set_movie_watchers ws m) = movie_key m.
Proof. reflexivity. Qed.

Lemma series_key_set ws s : series_key (set_series_watchers ws s) = series_key s.
Proof. reflexivity. Qed.

(** ** What [_generate_report] returns *)

Lemma generate_report_spec svc st users_data :
  valid_users st users_data →
  let n := length users_data in
  let mv := movie_visits (movie_objs st) users_data in
  let sv := series_visits (series_objs st) users_data in
  let Wm := od_build (kus_of mv) in
  let Dm := data_build (krs_of mv) in
  let Wf := od_build (kus_of (full_visits sv)) in
  let Wp := od_build (kus_of (partial_visits sv)) in
  let Ds := data_build (krs_of sv) in
  ∃ mobjs sobjs,
    generate_report svc st users_data =
      Some (mkStore mobjs sobjs,
            mkReport users_data
              (filed_all n Dm Wm) (filed_some n Dm Wm)
              (filed_all n Ds Wf) (filed_some n Ds Wf)
              (filed_all n Ds Wp) (filed_some n Ds Wp)
              (svc_jellyfin_url svc) (svc_radarr_url svc) (svc_sonarr_url svc)) ∧
    (∀ r, mobjs !! r =
          attached movie_key set_movie_watchers Dm Wm r <$> movie_objs st !! r) ∧
    (∀ r, sobjs !! r =
          (λ o, attached series_key set_series_watchers Ds Wp r
                  (attached series_key set_series_watchers Ds Wf r o))
          <$> series_objs st !! r).
Proof.
  intros Hv n mv sv Wm Dm Wf Wp Ds.
  destruct users_data as [|u0 us].
  { exists (movie_objs st), (series_objs st). destruct st. simpl.
    split; [done|]. split; intros r.
    - by destruct (_ !! r).
    - by destruct (_ !! r). }
  set (users_data := u0 :: us) in *.
  destruct (categorize_spec movie_key set_movie_watchers movie_key_set
              n Dm Wm (movie_objs st)) as (mobjs & Hm & Hml).
  { apply od_build_NoDup. }
  { apply build_faithful, movie_visits_tracked. }
  { intros k. by apply build_covered. }
  assert (faithful series_key Ds (series_objs st)) as HDs
    by apply build_faithful, series_visits_tracked.
  destruct (categorize_spec series_key set_series_watchers series_key_set
              n Ds Wf (series_objs st)) as (sobjs1 & Hf & Hfl).
  { apply od_build_NoDup. }
  { done. }
  { intros k. apply build_covered. intros v.
    unfold full_visits. rewrite list_elem_of_filter. tauto. }
  destruct (categorize_spec series_key set_series_watchers series_key_set
              n Ds Wp sobjs1) as (sobjs2 & Hp & Hpl).
  { apply od_build_NoDup. }
  { exact (faithful_attached series_key set_series_watchers series_key_set
             Ds Ds Wf (series_objs st) sobjs1 HDs Hfl). }
  { intros k. apply build_covered. intros v.
    unfold partial_visits. rewrite list_elem_of_filter. tauto. }
  exists mobjs, sobjs2. split; [|split; [done|]].
  - unfold generate_report. fold users_data.
    rewrite index_movies_spec, index_series_spec by done.
    fold mv sv Wm Dm Wf Wp Ds n. rewrite Hm, Hf, Hp. done.
  - intros r. rewrite Hpl, Hfl. by destruct (series_objs st !! r).
Qed.

(** ** Counting the watchers of a key *)

Lemma ws_of_length k vs : length (ws_of k (kus_of vs)) = count_key k vs.
Proof.
  unfold ws_of, kus_of, count_key. rewrite length_fmap.
  induction vs as [|v vs IH]; [done|].
  rewrite fmap_cons, !filter_cons. simpl.
  case_decide; simpl; by rewrite IH.
Qed.

Lemma count_key_app k vs1 vs2 :
  count_key k (vs1 ++ vs2) = count_key k vs1 + count_key k vs2.
Proof. unfold count_key. by rewrite filter_app, length_app. Qed.

Lemma count_key_split k vs :
  count_key k (full_visits vs) + count_key k (partial_visits vs) = count_key k vs.
Proof.
  unfold count_key, full_visits, partial_visits.
  induction vs as [|v vs IH]; [done|].
  rewrite !(filter_cons _ v). destruct (v_full v) eqn:Hf.
  - rewrite decide_True by done. rewrite (decide_False (P:=true = false)) by done.
    rewrite filter_cons. case_decide; simpl; lia.
  - rewrite (decide_False (P:=false = true)) by done. rewrite decide_True by done.
    rewrite filter_cons. case_decide; simpl; lia.
Qed.

Lemma count_key_NoDup k vs : NoDup (v_key <$> vs) → count_key k vs ≤ 1.
Proof.
  unfold count_key. induction vs as [|v vs IH]; [simpl; lia|].
  rewrite fmap_cons, NoDup_cons, filter_cons. intros [Hv Hnd].
  case_decide as Hk; [|by apply IH].
  assert (filter (λ v, v_key v = k) vs = []) as ->; [|simpl; lia].
  destruct (filter _ vs) as [|v' l] eqn:E; [done|]. exfalso. apply Hv.
  assert (v' ∈ filter (λ v, v_key v = k) vs) as Hin by (rewrite E; left).
  apply list_elem_of_filter in Hin as [Hk' Hin].
  rewrite Hk, <-Hk'. by apply list_elem_of_fmap_2.
Qed.

Lemma count_key_bind {A} k (f : A → list visit) (l : list A) :
  Forall (λ x, count_key k (f x) ≤ 1) l → count_key k (l ≫= f) ≤ length l.
Proof.
  induction 1 as [|x l Hx _ IH]; [done|].
  rewrite bind_cons, count_key_app. simpl. lia.
Qed.

Lemma movie_visit_keys st u :
  v_key <$> omap (movie_visit (movie_objs st) u) (watched_movies u) =
  user_movie_keys st u.
Proof.
  unfold user_movie_keys. induction (watched_movies u) as [|r l IH]; [done|].
  csimpl. unfold movie_visit at 1. destruct (movie_objs st !! r); csimpl; by rewrite IH.
Qed.

Lemma series_visit_keys st u :
  v_key <$> omap (series_visit (series_objs st) u) (watched_series u) =
  user_series_keys st u.
Proof.
  unfold user_series_keys. induction (watched_series u) as [|r l IH]; [done|].
  csimpl. unfold series_visit at 1. destruct (series_objs st !! r); csimpl; by rewrite IH.
Qed.

Lemma movie_count_le st users_data k :
  distinct_user_keys st users_data →
  count_key k (movie_visits (movie_objs st) users_data) ≤ length users_data.
Proof.
  intros Hd. apply count_key_bind. eapply Forall_impl; [exact Hd|].
  intros u [Hm _]. simpl. apply count_key_NoDup. by rewrite movie_visit_keys.
Qed.

Lemma series_count_le st users_data k :
  distinct_user_keys st users_data →
  count_key k (series_visits (series_objs st) users_data) ≤ length users_data.
Proof.
  intros Hd. apply count_key_bind. eapply Forall_impl; [exact Hd|].
  intros u [_ Hs]. simpl. apply count_key_NoDup. by rewrite series_visit_keys.
Qed.

(** ** Reading the filed references back *)

Section filed_facts.
Context {Obj : Type} (key : Obj → string) (setw : list string → Obj → Obj).

Lemma attached_hit D (W : odict) r (o : Obj) ws :
  od_get (key o) W = Some ws → D !! key o = Some r →
  attached key setw D W r o = setw ws o.
Proof. intros Hget HD. unfold attached. rewrite Hget. by rewrite decide_True. Qed.

Lemma attached_miss D (W : odict) r (o : Obj) :
  od_get (key o) W = None → attached key setw D W r o = o.
Proof. intros Hget. unfold attached. by rewrite Hget. Qed.

Lemma filed_entry (objs : list Obj) vs wvs k ws r :
  tracked key objs vs →
  (k, ws) ∈ od_build (kus_of wvs) → data_build (krs_of vs) !! k = Some r →
  ∃ o, objs !! r = Some o ∧ key o = k ∧
       od_get k (od_build (kus_of wvs)) = Some ws ∧
       ws = ws_of k (kus_of wvs) ∧ 1 ≤ length ws.
Proof.
  intros Htr Hin HD.
  destruct (build_faithful key objs vs Htr k r HD) as (o & Ho & Hkey).
  exists o. split_and!; [done|done| | |].
  - by apply od_get_elem_of; [apply od_build_NoDup|].
  - by apply od_build_elem_of in Hin as [-> _].
  - apply od_build_elem_of in Hin as [_ Hne]. destruct ws; [done|simpl; lia].
Qed.
End filed_facts.

Lemma od_get_build_count k vs :
  od_get k (od_build (kus_of vs)) = None ↔ count_key k vs = 0.
Proof.
  rewrite od_get_build, <-ws_of_length.
  destruct (ws_of k (kus_of vs)); simpl; split; (done || lia).
Qed.

Lemma od_get_build_Some k vs ws :
  od_get k (od_build (kus_of vs)) = Some ws → length ws = count_key k vs.
Proof.
  rewrite od_get_build, <-ws_of_length.
  destruct (ws_of k (kus_of vs)); [done|]. by intros [= <-].
Qed.

(** ** Watcher lists of the filed items, in the final store *)

Section final_watchers.
Context (st : store) (users_data : list UserWatchData).
Context (mobjs : list MovieInfo) (sobjs : list SeriesInfo).
Local Abbreviation mv := (movie_visits (movie_objs st) users_data).
Local Abbreviation sv := (series_visits (series_objs st) users_data).
Local Abbreviation Wm := (od_build (kus_of mv)).
Local Abbreviation Dm := (data_build (krs_of mv)).
Local Abbreviation Wf := (od_build (kus_of (full_visits sv))).
Local Abbreviation Wp := (od_build (kus_of (partial_visits sv))).
Local Abbreviation Ds := (data_build (krs_of sv)).
Hypothesis Hml : ∀ r, mobjs !! r =
  attached movie_key set_movie_watchers Dm Wm r <$> movie_objs st !! r.
Hypothesis Hsl : ∀ r, sobjs !! r =
  (λ o, attached series_key set_series_watchers Ds Wp r
          (attached series_key set_series_watchers Ds Wf r o))
  <$> series_objs st !! r.

Lemma movie_final k ws r :
  (k, ws) ∈ Wm → Dm !! k = Some r →
  ∃ m, movie_objs st !! r = Some m ∧ movie_key m = k ∧
       mobjs !! r = Some (set_movie_watchers ws m).
Proof.
  intros Hin HD.
  destruct (filed_entry movie_key (movie_objs st) mv mv k ws r)
    as (o & Ho & Hkey & Hget & _); [apply movie_visits_tracked|done..|].
  exists o. split_and!; [done..|]. rewrite Hml, Ho. simpl. f_equal.
  apply attached_hit; by rewrite Hkey.
Qed.

Lemma series_final_full k ws r :
  (k, ws) ∈ Wf → Ds !! k = Some r →
  ∃ s, series_objs st !! r = Some s ∧ series_key s = k ∧
       sobjs !! r = Some (set_series_watchers (default ws (od_get k Wp)) s).
Proof.
  intros Hin HD.
  destruct (filed_entry series_key (series_objs st) sv (full_visits sv) k ws r)
    as (o & Ho & Hkey & Hget & _); [apply series_visits_tracked|done..|].
  exists o. split_and!; [done..|]. rewrite Hsl, Ho. simpl. f_equal.
  rewrite (attached_hit series_key set_series_watchers Ds Wf r o ws)
    by (by rewrite Hkey).
  destruct (od_get k Wp) as [wsp|] eqn:Hp; simpl.
  - rewrite (attached_hit series_key set_series_watchers Ds Wp r _ wsp); [done|..];
      by rewrite series_key_set, Hkey.
  - apply attached_miss. by rewrite series_key_set, Hkey.
Qed.

Lemma series_final_partial k ws r :
  (k, ws) ∈ Wp → Ds !! k = Some r →
  ∃ s, series_objs st !! r = Some s ∧ series_key s = k ∧
       sobjs !! r = Some (set_series_watchers ws s).
Proof.
  intros Hin HD.
  destruct (filed_entry series_key (series_objs st) sv (partial_visits sv) k ws r)
    as (o & Ho & Hkey & Hget & _); [apply series_visits_tracked|done..|].
  exists o. split_and!; [done..|]. rewrite Hsl, Ho. simpl. f_equal.
  assert (series_key (attached series_key set_series_watchers Ds Wf r o) = k)
    as Hkey' by (by rewrite attached_key; [|apply series_key_set]).
  rewrite (attached_hit series_key set_series_watchers Ds Wp r _ ws)
    by (by rewrite Hkey').
  unfold attached. destruct (od_get _ Wf); [|done]. by case_decide.
Qed.
End final_watchers.

(** ** C1: watcher-list lengths of the six buckets *)

(** Where the bounds do hold: when every reference is valid and no user
    record holds two items with the same title/year key, every item of a
    "watched by all" bucket has a watcher list as long as the number of
    users, and every item of a "watched by some" bucket has a watcher list
    of length between 1 and the number of users minus 1. *)
Lemma report_lengths_distinct_keys svc st users_data :
  valid_users st users_data → distinct_user_keys st users_data →
  ∃ st' rep, generate_report svc st users_data = Some (st', rep) ∧
             report_lengths_ok st' rep.
Proof.
  intros Hv Hd.
  destruct (generate_report_spec svc st users_data Hv)
    as (mobjs & sobjs & Hrun & Hml & Hsl).
  eexists _, _. split; [exact Hrun|].
  pose proof (movie_final st users_data mobjs Hml) as HM.
  pose proof (series_final_full st users_data sobjs Hsl) as HF.
  pose proof (series_final_partial st users_data sobjs Hsl) as HP.
  set (sv := series_visits (series_objs st) users_data) in *.
  set (mv := movie_visits (movie_objs st) users_data) in *.
  assert (∀ k, count_key k mv ≤ length users_data) as Hcm
    by (intros k; by apply movie_count_le).
  assert (∀ k, count_key k (full_visits sv) + count_key k (partial_visits sv)
               ≤ length users_data) as Hcs
    by (intros k; rewrite count_key_split; by apply series_count_le).
  unfold report_lengths_ok, by_all_len, by_some_len,
    movie_watchers_len, series_watchers_len. simpl.
  split_and!; intros r Hr.
  - apply elem_of_filed_all in Hr as (k & ws & Hin & Hlen & HD).
    destruct (HM k ws r Hin HD) as (m & _ & _ & ->). simpl. by rewrite Hlen.
  - apply elem_of_filed_some in Hr as (k & ws & Hin & Hlen & HD).
    destruct (HM k ws r Hin HD) as (m & _ & _ & ->). simpl.
    apply od_get_elem_of in Hin; [|apply od_build_NoDup].
    pose proof (od_get_build_Some _ _ _ Hin) as Hc. specialize (Hcm k).
    exists (length ws). split; [done|].
    assert (count_key k mv ≠ 0) by (intros ?%od_get_build_count; congruence).
    lia.
  - apply elem_of_filed_all in Hr as (k & ws & Hin & Hlen & HD).
    destruct (HF k ws r Hin HD) as (s & _ & _ & ->). simpl.
    apply od_get_elem_of in Hin; [|apply od_build_NoDup].
    pose proof (od_get_build_Some _ _ _ Hin) as Hc. specialize (Hcs k).
    assert (od_get k (od_build (kus_of (partial_visits sv))) = None) as ->
      by (apply od_get_build_count; lia).
    simpl. by rewrite Hlen.
  - apply elem_of_filed_some in Hr as (k & ws & Hin & Hlen & HD).
    destruct (HF k ws r Hin HD) as (s & _ & _ & ->). simpl.
    apply od_get_elem_of in Hin; [|apply od_build_NoDup].
    pose proof (od_get_build_Some _ _ _ Hin) as Hc. specialize (Hcs k).
    assert (count_key k (full_visits sv) ≠ 0)
      by (intros ?%od_get_build_count; congruence).
    destruct (od_get k (od_build (kus_of (partial_visits sv)))) as [wsp|] eqn:Hp;
      simpl.
    + pose proof (od_get_build_Some _ _ _ Hp) as Hcp.
      assert (count_key k (partial_visits sv) ≠ 0)
        by (intros ?%od_get_build_count; congruence).
      exists (length wsp). split; [done|lia].
    + exists (length ws). split; [done|lia].
  - apply elem_of_filed_all in Hr as (k & ws & Hin & Hlen & HD).
    destruct (HP k ws r Hin HD) as (s & _ & _ & ->). simpl. by rewrite Hlen.
  - apply elem_of_filed_some in Hr as (k & ws & Hin & Hlen & HD).
    destruct (HP k ws r Hin HD) as (s & _ & _ & ->). simpl.
    apply od_get_elem_of in Hin; [|apply od_build_NoDup].
    pose proof (od_get_build_Some _ _ _ Hin) as Hc. specialize (Hcs k).
    assert (count_key k (partial_visits sv) ≠ 0)
      by (intros ?%od_get_build_count; congruence).
    exists (length ws). split; [done|lia].
Qed.

Example report_lengths_demo :
  ∃ st' rep, generate_report no_urls demo_store demo_users = Some (st', rep) ∧
             report_lengths_ok st' rep.
Proof.
  apply report_lengths_distinct_keys.
  - unfold valid_users. repeat (constructor; simpl); lia.
  - unfold distinct_user_keys.
    repeat (constructor; [split; apply (bool_decide_unpack _); by vm_compute|]).
    constructor.
Qed.

(** C1 (evaluation at the failing input): one user, alice, whose list
    holds "Dune" (2021) twice.  The accumulator of the key receives her
    name once per item, so the entry filed for the key ends with the
    watcher list [alice; alice]: it stands under "watched by some" with
    two watchers, where the bound is 1 - 1 = 0, and the length bounds
    fail.  The list counts items, not users: with a second user, bob, who
    watched nothing, the two names match the two users and the same entry
    is filed under "watched by all". *)
Theorem report_lengths_repeated_key :
  (valid_users twice_store twice_users ∧
   ∃ st' rep, generate_report no_urls twice_store twice_users = Some (st', rep) ∧
              length (users rep) = 1 ∧
              movies_watched_by_all rep = [] ∧
              movies_watched_by_some rep = [1] ∧
              m_watched_by_users <$> movie_objs st' !! 1 =
                Some ["alice"; "alice"] ∧
              ¬ report_lengths_ok st' rep) ∧
  (valid_users twice_store twice_and_bob ∧
   ∃ st' rep, generate_report no_urls twice_store twice_and_bob = Some (st', rep) ∧
              length (users rep) = 2 ∧
              movies_watched_by_all rep = [1] ∧
              movies_watched_by_some rep = [] ∧
              m_watched_by_users <$> movie_objs st' !! 1 =
                Some ["alice"; "alice"]).
Proof.
  split.
  - split; [unfold valid_users; repeat (constructor; simpl); lia|].
    eexists _, _. split; [by vm_compute|]. split_and!; [done..|].
    intros (_ & Hsome & _). destruct (Hsome 1) as (l & Hl & Hb); [by left|].
    injection Hl as <-. simpl in Hb. lia.
  - split; [unfold valid_users; repeat (constructor; simpl); lia|].
    eexists _, _. split; [by vm_compute|]. by split_and!.
Qed.

(** ** C2: one object serves both series partitions *)

(** C2 (evaluation at the failing input): alice fully watched "Dark"
    (2017), bob partially.  The accumulators are [alice] (fully) and [bob]
    (partially), but both buckets receive the same object, reference 1,
    and after the last loop its watcher list is [bob]: the entry filed
    under "fully watched by some" no longer carries the fully-watchers. *)
Theorem series_entry_shared :
  ∃ full partial data st' rep,
    index_series (series_objs split_store) split_users = Some (full, partial, data) ∧
    full = [("Dark_2017", ["alice"])] ∧ partial = [("Dark_2017", ["bob"])] ∧
    generate_report no_urls split_store split_users = Some (st', rep) ∧
    series_fully_watched_by_some rep = [1] ∧
    series_partially_watched_by_some rep = [1] ∧
    s_watched_by_users <$> series_objs st' !! 1 = Some ["bob"].
Proof. eexists _, _, _, _, _. split_and!; by vm_compute. Qed.

(** The same in general: whenever a key has both fully-watching and
    partially-watching users, one object is filed into a "fully" bucket
    and into a "partially" bucket, and it ends with the partial-watchers
    as its watcher list. *)
Lemma shared_series_object svc st users_data k wsf wsp full partial data :
  valid_users st users_data →
  index_series (series_objs st) users_data = Some (full, partial, data) →
  (k, wsf) ∈ full → (k, wsp) ∈ partial →
  ∃ st' rep r s,
    generate_report svc st users_data = Some (st', rep) ∧
    data !! k = Some r ∧
    r ∈ series_fully_watched_by_all rep ++ series_fully_watched_by_some rep ∧
    r ∈ series_partially_watched_by_all rep ++
        series_partially_watched_by_some rep ∧
    series_objs st' !! r = Some s ∧ s_watched_by_users s = wsp.
Proof.
  intros Hv Hidx Hf Hp. rewrite index_series_spec in Hidx by done.
  injection Hidx as <- <- <-.
  destruct (generate_report_spec svc st users_data Hv)
    as (mobjs & sobjs & Hrun & _ & Hsl).
  destruct (build_covered (full_visits (series_visits (series_objs st) users_data))
              (series_visits (series_objs st) users_data) k) as [r Hr].
  { intros v. unfold full_visits. rewrite list_elem_of_filter. tauto. }
  { by apply (list_elem_of_fmap_2' fst _ (k, wsf)). }
  destruct (series_final_full st users_data sobjs Hsl k wsf r Hf Hr)
    as (s0 & _ & _ & Hfin).
  apply od_get_elem_of in Hp as Hget; [|apply od_build_NoDup].
  rewrite Hget in Hfin. simpl in Hfin.
  eexists _, _, r, _. split; [exact Hrun|]. simpl.
  split_and!; [done| | |exact Hfin|done].
  - apply elem_of_app. destruct (decide (length wsf = length users_data)).
    + left. apply elem_of_filed_all. eauto.
    + right. apply elem_of_filed_some. eauto.
  - apply elem_of_app. destruct (decide (length wsp = length users_data)).
    + left. apply elem_of_filed_all. eauto.
    + right. apply elem_of_filed_some. eauto.
Qed.

(** ** The representative of a key is its last contribution *)

Lemma omap_cons_Some {A B} (f : A → option B) x l y :
  f x = Some y → omap f (x :: l) = y :: omap f l.
Proof. intros H. csimpl. by rewrite H. Qed.

Lemma omap_cons_None {A B} (f : A → option B) x l :
  f x = None → omap f (x :: l) = omap f l.
Proof. intros H. csimpl. by rewrite H. Qed.

Lemma movie_visits_carrying st u k refs :
  (filter (λ kr, kr.1 = k)
     (krs_of (omap (movie_visit (movie_objs st) u) refs))).*2 =
  carrying (movie_key_at st) k refs.
Proof.
  unfold carrying, krs_of. induction refs as [|r refs IH]; [done|].
  rewrite (filter_cons _ r).
  destruct (movie_objs st !! r) as [m|] eqn:Hm.
  - rewrite (omap_cons_Some _ _ _ (mkVisit (movie_key m) (username u) r true))
      by (unfold movie_visit; by rewrite Hm).
    assert (movie_key_at st r = Some (movie_key m)) as Hk
      by (unfold movie_key_at; by rewrite Hm).
    rewrite fmap_cons, filter_cons. simpl.
    destruct (decide (movie_key m = k)) as [Heq|Hne].
    + rewrite decide_True by congruence. rewrite fmap_cons. simpl. by rewrite IH.
    + rewrite decide_False by congruence. done.
  - rewrite omap_cons_None by (unfold movie_visit; by rewrite Hm).
    assert (movie_key_at st r = None) as Hk
      by (unfold movie_key_at; by rewrite Hm).
    rewrite decide_False by congruence. done.
Qed.

Lemma series_visits_carrying st u k refs :
  (filter (λ kr, kr.1 = k)
     (krs_of (omap (series_visit (series_objs st) u) refs))).*2 =
  carrying (series_key_at st) k refs.
Proof.
  unfold carrying, krs_of. induction refs as [|r refs IH]; [done|].
  rewrite (filter_cons _ r).
  destruct (series_objs st !! r) as [m|] eqn:Hm.
  - rewrite (omap_cons_Some _ _ _
               (mkVisit (series_key m) (username u) r (s_is_fully_watched m)))
      by (unfold series_visit; by rewrite Hm).
    assert (series_key_at st r = Some (series_key m)) as Hk
      by (unfold series_key_at; by rewrite Hm).
    rewrite fmap_cons, filter_cons. simpl.
    destruct (decide (series_key m = k)) as [Heq|Hne].
    + rewrite decide_True by congruence. rewrite fmap_cons. simpl. by rewrite IH.
    + rewrite decide_False by congruence. done.
  - rewrite omap_cons_None by (unfold series_visit; by rewrite Hm).
    assert (series_key_at st r = None) as Hk
      by (unfold series_key_at; by rewrite Hm).
    rewrite decide_False by congruence. done.
Qed.

Lemma last_ref_bind {A} (f : A → list visit) (l : list A) k :
  last_ref k (krs_of (l ≫= f)) =
  match last (filter (λ x, (filter (λ kr, kr.1 = k) (krs_of (f x))).*2 ≠ []) l) with
  | Some x => last_ref k (krs_of (f x))
  | None => None
  end.
Proof.
  unfold last_ref.
  induction l as [|x l IH] using rev_ind; [done|].
  rewrite bind_app, bind_singleton. unfold krs_of at 1.
  rewrite fmap_app, !filter_app, fmap_app, filter_cons, filter_nil.
  fold (krs_of (l ≫= f)) (krs_of (f x)).
  rewrite last_app.
  destruct (last (filter (λ kr, kr.1 = k) (krs_of (f x))).*2) as [y|] eqn:E.
  - rewrite decide_True by (intros HL; by rewrite HL in E).
    by rewrite last_snoc.
  - apply last_None in E. rewrite decide_False by (by intros []).
    by rewrite app_nil_r.
Qed.

Lemma movie_data_last st users_data k :
  data_build (krs_of (movie_visits (movie_objs st) users_data)) !! k =
  last_contribution (movie_key_at st) watched_movies users_data k.
Proof.
  rewrite data_build_lookup. unfold movie_visits. rewrite last_ref_bind.
  unfold last_contribution, last_user_with, last_ref.
  rewrite (list_filter_iff _
             (λ u, carrying (movie_key_at st) k (watched_movies u) ≠ []))
    by (intros u; by rewrite movie_visits_carrying).
  destruct (last _) as [u|]; [|done]. by rewrite movie_visits_carrying.
Qed.

Lemma series_data_last st users_data k :
  data_build (krs_of (series_visits (series_objs st) users_data)) !! k =
  last_contribution (series_key_at st) watched_series users_data k.
Proof.
  rewrite data_build_lookup. unfold series_visits. rewrite last_ref_bind.
  unfold last_contribution, last_user_with, last_ref.
  rewrite (list_filter_iff _
             (λ u, carrying (series_key_at st) k (watched_series u) ≠ []))
    by (intros u; by rewrite series_visits_carrying).
  destruct (last _) as [u|]; [|done]. by rewrite series_visits_carrying.
Qed.

(** ** C6: grouping by title and year *)

Section filed_once.
Context {Obj : Type} (key : Obj → string).

Lemma filed_not_elem total D (W : odict) (objs : list Obj) k r :
  faithful key D objs → D !! k = Some r → k ∉ W.*1 →
  r ∉ filed_all total D W ++ filed_some total D W.
Proof.
  intros HD Hr Hk Hin. apply Hk.
  assert (∃ k' ws, (k', ws) ∈ W ∧ D !! k' = Some r) as (k' & ws & Hin' & Hr').
  { apply elem_of_app in Hin as [Hin|Hin];
      [apply elem_of_filed_all in Hin|apply elem_of_filed_some in Hin];
      destruct Hin as (k' & ws & ? & _ & ?); eauto. }
  destruct (HD k r Hr) as (o & Ho & Hkey).
  destruct (HD k' r Hr') as (o' & Ho' & Hkey').
  assert (k = k') as -> by congruence.
  by apply (list_elem_of_fmap_2' fst _ (k', ws)).
Qed.

Lemma filed_NoDup total D (W : odict) (objs : list Obj) :
  NoDup W.*1 → faithful key D objs →
  NoDup (filed_all total D W ++ filed_some total D W).
Proof.
  intros Hnd HD. induction W as [|[k ws] W IH]; [constructor|].
  rewrite fmap_cons in Hnd. apply NoDup_cons in Hnd as [Hk Hnd].
  specialize (IH Hnd).
  destruct (D !! k) as [r|] eqn:Hr.
  - pose proof (filed_not_elem total D W objs k r HD Hr Hk) as Hfresh.
    rewrite (filed_all_cons total D k ws W r Hr).
    rewrite (filed_some_cons total D k ws W r Hr).
    case_decide; simpl.
    + by apply NoDup_cons.
    + rewrite <-Permutation_middle. by apply NoDup_cons.
  - unfold filed_all, filed_some in *. csimpl. rewrite Hr.
    by case_decide.
Qed.
End filed_once.

Lemma movie_same_key m1 m2 :
  movie_key m1 = movie_key m2 ↔ m_title m1 = m_title m2 ∧ m_year m1 = m_year m2.
Proof. apply title_year_key_inj. Qed.

Lemma series_same_key s1 s2 :
  series_key s1 = series_key s2 ↔ s_title s1 = s_title s2 ∧ s_year s1 = s_year s2.
Proof. apply title_year_key_inj. Qed.

Lemma movie_visit_elem st users_data u r m :
  u ∈ users_data → r ∈ watched_movies u → movie_objs st !! r = Some m →
  mkVisit (movie_key m) (username u) r true ∈ movie_visits (movie_objs st) users_data.
Proof.
  intros Hu Hr Hm. unfold movie_visits. apply list_elem_of_bind.
  exists u. split; [|done]. apply list_elem_of_omap. exists r. split; [done|].
  unfold movie_visit. by rewrite Hm.
Qed.

Lemma series_visit_elem st users_data u r s :
  u ∈ users_data → r ∈ watched_series u → series_objs st !! r = Some s →
  mkVisit (series_key s) (username u) r (s_is_fully_watched s)
    ∈ series_visits (series_objs st) users_data.
Proof.
  intros Hu Hr Hs. unfold series_visits. apply list_elem_of_bind.
  exists u. split; [|done]. apply list_elem_of_omap. exists r. split; [done|].
  unfold series_visit. by rewrite Hs.
Qed.

(** A visit in the list feeding an accumulator puts its key there, and
    the representative of the key is filed by the loop over it. *)
Lemma visit_filed total (wvs vs : list visit) v :
  v ∈ wvs → (∀ v', v' ∈ wvs → v' ∈ vs) →
  ∃ ws e, (v_key v, ws) ∈ od_build (kus_of wvs) ∧
          data_build (krs_of vs) !! v_key v = Some e ∧
          e ∈ filed_all total (data_build (krs_of vs)) (od_build (kus_of wvs)) ++
              filed_some total (data_build (krs_of vs)) (od_build (kus_of wvs)).
Proof.
  intros Hv Hsub.
  destruct (od_get (v_key v) (od_build (kus_of wvs))) as [ws|] eqn:Hget.
  - apply od_get_elem_of in Hget; [|apply od_build_NoDup].
    destruct (build_covered wvs vs (v_key v) Hsub) as [e He].
    { by apply (list_elem_of_fmap_2' fst _ (v_key v, ws)). }
    exists ws, e. split_and!; [done..|]. apply elem_of_app.
    destruct (decide (length ws = total)).
    + left. apply elem_of_filed_all. eauto.
    + right. apply elem_of_filed_some. eauto.
  - apply od_get_build_count in Hget. exfalso.
    unfold count_key in Hget. apply length_zero_iff_nil in Hget.
    eapply (filter_nil_not_elem_of _ _ v); done.
Qed.

(** C6: the grouping key identifies two items exactly when their title
    and year coincide, whatever their external identifiers; a missing year
    is written "None" in the key; and for valid input the generated report
    has, for every watched item, one filed entry with its title and year,
    two filed entries being the same exactly when title and year agree. *)
Theorem grouping_by_title_year svc st users_data :
  valid_users st users_data →
  (∀ m1 m2, movie_key m1 = movie_key m2 ↔
            m_title m1 = m_title m2 ∧ m_year m1 = m_year m2) ∧
  (∀ s1 s2, series_key s1 = series_key s2 ↔
            s_title s1 = s_title s2 ∧ s_year s1 = s_year s2) ∧
  (∀ t, title_year_key t None = t +:+ "_None") ∧
  ∃ st' rep, generate_report svc st users_data = Some (st', rep) ∧
             groups_by_title_year st users_data st' rep.
Proof.
  intros Hv. split_and!; [apply movie_same_key|apply series_same_key|done|].
  destruct (generate_report_spec svc st users_data Hv)
    as (mobjs & sobjs & Hrun & Hml & Hsl).
  eexists _, _. split; [exact Hrun|].
  pose proof (movie_final st users_data mobjs Hml) as HM.
  pose proof (series_final_full st users_data sobjs Hsl) as HF.
  pose proof (series_final_partial st users_data sobjs Hsl) as HP.
  unfold groups_by_title_year, movie_buckets, series_buckets. simpl.
  set (n := length users_data) in *.
  set (mv := movie_visits (movie_objs st) users_data) in *.
  set (sv := series_visits (series_objs st) users_data) in *.
  set (Dm := data_build (krs_of mv)) in *.
  set (Ds := data_build (krs_of sv)) in *.
  set (Wm := od_build (kus_of mv)) in *.
  set (Wf := od_build (kus_of (full_visits sv))) in *.
  set (Wp := od_build (kus_of (partial_visits sv))) in *.
  assert (∀ v, v ∈ full_visits sv → v ∈ sv) as Hfsub
    by (intros v; unfold full_visits; rewrite list_elem_of_filter; tauto).
  assert (∀ v, v ∈ partial_visits sv → v ∈ sv) as Hpsub
    by (intros v; unfold partial_visits; rewrite list_elem_of_filter; tauto).
  assert (∀ e, e ∈ filed_all n Dm Wm ++ filed_some n Dm Wm →
            ∃ m0 ws, Dm !! movie_key m0 = Some e ∧
                     mobjs !! e = Some (set_movie_watchers ws m0)) as Hmov.
  { intros e He. apply elem_of_app in He as [He|He];
      [apply elem_of_filed_all in He as (k & ws & Hin & _ & HD)
      |apply elem_of_filed_some in He as (k & ws & Hin & _ & HD)];
      destruct (HM k ws e Hin HD) as (m0 & _ & <- & Hfin); eauto. }
  assert (∀ e, e ∈ filed_all n Ds Wf ++ filed_some n Ds Wf ++
                   filed_all n Ds Wp ++ filed_some n Ds Wp →
            ∃ s0 ws, Ds !! series_key s0 = Some e ∧
                     sobjs !! e = Some (set_series_watchers ws s0)) as Hser.
  { intros e He. rewrite !elem_of_app in He. destruct He as [He|[He|[He|He]]];
      [apply elem_of_filed_all in He as (k & ws & Hin & _ & HD);
       destruct (HF k ws e Hin HD) as (s0 & _ & <- & Hfin)
      |apply elem_of_filed_some in He as (k & ws & Hin & _ & HD);
       destruct (HF k ws e Hin HD) as (s0 & _ & <- & Hfin)
      |apply elem_of_filed_all in He as (k & ws & Hin & _ & HD);
       destruct (HP k ws e Hin HD) as (s0 & _ & <- & Hfin)
      |apply elem_of_filed_some in He as (k & ws & Hin & _ & HD);
       destruct (HP k ws e Hin HD) as (s0 & _ & <- & Hfin)]; eauto. }
  split_and!.
  - intros u r m Hu Hr Hm.
    pose proof (movie_visit_elem st users_data u r m Hu Hr Hm) as Hvis.
    destruct (visit_filed n mv mv _ Hvis) as (ws & e & Hin & HD & He); [done|].
    simpl in Hin, HD. destruct (HM _ ws e Hin HD) as (m0 & _ & Hk & Hfin).
    exists e, (set_movie_watchers ws m0). split_and!; [done..| |];
      by apply movie_same_key in Hk as [??].
  - intros e1 e2 m1 m2 He1 He2 Hm1 Hm2.
    destruct (Hmov e1 He1) as (a & wa & Da & Ha).
    destruct (Hmov e2 He2) as (b & wb & Db & Hb).
    assert (m1 = set_movie_watchers wa a) as -> by congruence.
    assert (m2 = set_movie_watchers wb b) as -> by congruence.
    simpl. split.
    { intros ->.
      assert (set_movie_watchers wa a = set_movie_watchers wb b) as Heq by congruence.
      unfold set_movie_watchers in Heq. by injection Heq. }
    intros Hty. apply (movie_same_key a b) in Hty. congruence.
  - apply (filed_NoDup movie_key n Dm Wm (movie_objs st));
      [apply od_build_NoDup|apply build_faithful, movie_visits_tracked].
  - intros u r s Hu Hr Hs.
    pose proof (series_visit_elem st users_data u r s Hu Hr Hs) as Hvis.
    destruct (s_is_fully_watched s) eqn:Hfull.
    + destruct (visit_filed n (full_visits sv) sv
                  (mkVisit (series_key s) (username u) r true))
        as (ws & e & Hin & HD & He); [|done|].
      { apply list_elem_of_filter. split; [done|exact Hvis]. }
      simpl in Hin, HD. destruct (HF _ ws e Hin HD) as (s0 & _ & Hk & Hfin).
      eexists e, _. split_and!; [done|exact Hfin| |];
        by apply series_same_key in Hk as [??].
    + destruct (visit_filed n (partial_visits sv) sv
                  (mkVisit (series_key s) (username u) r false))
        as (ws & e & Hin & HD & He); [|done|].
      { apply list_elem_of_filter. split; [done|exact Hvis]. }
      simpl in Hin, HD. destruct (HP _ ws e Hin HD) as (s0 & _ & Hk & Hfin).
      eexists e, _. split_and!; [done|exact Hfin| |];
        by apply series_same_key in Hk as [??].
  - intros e1 e2 s1 s2 He1 He2 Hs1 Hs2.
    destruct (Hser e1 He1) as (a & wa & Da & Ha).
    destruct (Hser e2 He2) as (b & wb & Db & Hb).
    assert (s1 = set_series_watchers wa a) as -> by congruence.
    assert (s2 = set_series_watchers wb b) as -> by congruence.
    simpl. split.
    { intros ->.
      assert (set_series_watchers wa a = set_series_watchers wb b) as Heq by congruence.
      unfold set_series_watchers in Heq. by injection Heq. }
    intros Hty. apply (series_same_key a b) in Hty. congruence.
  - apply (filed_NoDup series_key n Ds Wf (series_objs st));
      [apply od_build_NoDup|apply build_faithful, series_visits_tracked].
  - apply (filed_NoDup series_key n Ds Wp (series_objs st));
      [apply od_build_NoDup|apply build_faithful, series_visits_tracked].
Qed.

Lemma grouping_by_title_year_witness :
  (∀ m1 m2, movie_key m1 = movie_key m2 ↔
            m_title m1 = m_title m2 ∧ m_year m1 = m_year m2) ∧
  (∀ s1 s2, series_key s1 = series_key s2 ↔
            s_title s1 = s_title s2 ∧ s_year s1 = s_year s2) ∧
  (∀ t, title_year_key t None = t +:+ "_None") ∧
  ∃ st' rep, generate_report no_urls noyear_store noyear_users = Some (st', rep) ∧
             groups_by_title_year noyear_store noyear_users st' rep.
Proof.
  apply grouping_by_title_year.
  unfold valid_users. repeat (constructor; simpl); lia.
Defined.

(** ** C10: the filed object is the last user's *)

(** C10: for valid input, and for every title/year key that some user
    holds (so also for every key held by more than one user), report
    generation files exactly one representative per bucket pair: the last
    contribution of the key, which is the last item with that key of the
    last user, in the order of the users list, who has the key.  It is
    filed, it is the only filed object with that key, and it keeps all its
    own fields, only the watcher list being assigned.  Every other watched
    item, in particular the entry of an earlier user for the same key with
    its path, identifiers, catalog fields, episode counts and flag, is in
    no bucket. *)
Theorem representative_is_last svc st users_data :
  valid_users st users_data →
  ∃ st' rep, generate_report svc st users_data = Some (st', rep) ∧
             files_last_contributions st users_data st' rep.
Proof.
  intros Hv.
  destruct (generate_report_spec svc st users_data Hv)
    as (mobjs & sobjs & Hrun & Hml & Hsl).
  eexists _, _. split; [exact Hrun|].
  unfold files_last_contributions, movie_buckets, series_buckets. simpl.
  pose proof (movie_final st users_data mobjs Hml) as HM.
  pose proof (series_final_full st users_data sobjs Hsl) as HF.
  pose proof (series_final_partial st users_data sobjs Hsl) as HP.
  assert (∀ r, r ∈ filed_all (length users_data)
                 (data_build (krs_of (movie_visits (movie_objs st) users_data)))
                 (od_build (kus_of (movie_visits (movie_objs st) users_data))) ++
               filed_some (length users_data)
                 (data_build (krs_of (movie_visits (movie_objs st) users_data)))
                 (od_build (kus_of (movie_visits (movie_objs st) users_data))) →
       ∃ m ws, movie_objs st !! r = Some m ∧
         last_contribution (movie_key_at st) watched_movies users_data
           (movie_key m) = Some r ∧
         mobjs !! r = Some (set_movie_watchers ws m)) as Hmovies.
  { intros r Hr. apply elem_of_app in Hr as [Hr|Hr];
      [apply elem_of_filed_all in Hr as (k & ws & Hin & _ & HD)
      |apply elem_of_filed_some in Hr as (k & ws & Hin & _ & HD)];
      destruct (HM k ws r Hin HD) as (m & Hm & Hk & Hfin);
      exists m, ws; rewrite <-movie_data_last, Hk; done. }
  assert (∀ r, r ∈ filed_all (length users_data)
                 (data_build (krs_of (series_visits (series_objs st) users_data)))
                 (od_build (kus_of (full_visits
                    (series_visits (series_objs st) users_data)))) ++
               filed_some (length users_data)
                 (data_build (krs_of (series_visits (series_objs st) users_data)))
                 (od_build (kus_of (full_visits
                    (series_visits (series_objs st) users_data)))) ++
               filed_all (length users_data)
                 (data_build (krs_of (series_visits (series_objs st) users_data)))
                 (od_build (kus_of (partial_visits
                    (series_visits (series_objs st) users_data)))) ++
               filed_some (length users_data)
                 (data_build (krs_of (series_visits (series_objs st) users_data)))
                 (od_build (kus_of (partial_visits
                    (series_visits (series_objs st) users_data)))) →
       ∃ s ws, series_objs st !! r = Some s ∧
         last_contribution (series_key_at st) watched_series users_data
           (series_key s) = Some r ∧
         sobjs !! r = Some (set_series_watchers ws s)) as Hseries.
  { intros r Hr. rewrite !elem_of_app in Hr. destruct Hr as [Hr|[Hr|[Hr|Hr]]];
      [apply elem_of_filed_all in Hr as (k & ws & Hin & _ & HD);
       destruct (HF k ws r Hin HD) as (s & Hs & Hk & Hfin)
      |apply elem_of_filed_some in Hr as (k & ws & Hin & _ & HD);
       destruct (HF k ws r Hin HD) as (s & Hs & Hk & Hfin)
      |apply elem_of_filed_all in Hr as (k & ws & Hin & _ & HD);
       destruct (HP k ws r Hin HD) as (s & Hs & Hk & Hfin)
      |apply elem_of_filed_some in Hr as (k & ws & Hin & _ & HD);
       destruct (HP k ws r Hin HD) as (s & Hs & Hk & Hfin)];
      eexists s, _; rewrite <-series_data_last, Hk; done. }
  set (sv := series_visits (series_objs st) users_data) in *.
  split_and!; [exact Hmovies|exact Hseries| | | | | | |].
  - intros r' k Hk Hlast Hr'. destruct (Hmovies r' Hr') as (m & ws & Hm & Hl & _).
    unfold movie_key_at in Hk. rewrite Hm in Hk. injection Hk as <-. done.
  - intros r' k Hk Hlast Hr'. destruct (Hseries r' Hr') as (s & ws & Hs & Hl & _).
    unfold series_key_at in Hk. rewrite Hs in Hk. injection Hk as <-. done.
  - intros u r m Hu Hr Hm.
    pose proof (movie_visit_elem st users_data u r m Hu Hr Hm) as Hvis.
    destruct (visit_filed (length users_data)
                (movie_visits (movie_objs st) users_data)
                (movie_visits (movie_objs st) users_data) _ Hvis)
      as (ws & e & _ & HD & He); [done|].
    simpl in HD. rewrite movie_data_last in HD.
    exists e. split_and!; [exact HD|exact He|].
    intros e' He' Hk'. destruct (Hmovies e' He') as (m' & ws' & Hm' & Hl' & _).
    unfold movie_key_at in Hk'. rewrite Hm' in Hk'. injection Hk' as Hk'.
    rewrite Hk' in Hl'. congruence.
  - intros u r s Hu Hr Hs.
    pose proof (series_visit_elem st users_data u r s Hu Hr Hs) as Hvis.
    assert (∃ e, last_contribution (series_key_at st) watched_series users_data
                   (series_key s) = Some e ∧
                 e ∈ (if s_is_fully_watched s
                      then filed_all (length users_data)
                             (data_build (krs_of sv))
                             (od_build (kus_of (full_visits sv))) ++
                           filed_some (length users_data)
                             (data_build (krs_of sv))
                             (od_build (kus_of (full_visits sv)))
                      else filed_all (length users_data)
                             (data_build (krs_of sv))
                             (od_build (kus_of (partial_visits sv))) ++
                           filed_some (length users_data)
                             (data_build (krs_of sv))
                             (od_build (kus_of (partial_visits sv)))))
      as (e & Hlast & He).
    { destruct (s_is_fully_watched s) eqn:Hfull.
      - destruct (visit_filed (length users_data) (full_visits sv) sv
                    (mkVisit (series_key s) (username u) r true))
          as (ws & e & _ & HD & He).
        + apply list_elem_of_filter. split; [done|exact Hvis].
        + intros v. unfold full_visits. rewrite list_elem_of_filter. tauto.
        + simpl in HD. unfold sv in HD. rewrite series_data_last in HD. eauto.
      - destruct (visit_filed (length users_data) (partial_visits sv) sv
                    (mkVisit (series_key s) (username u) r false))
          as (ws & e & _ & HD & He).
        + apply list_elem_of_filter. split; [done|exact Hvis].
        + intros v. unfold partial_visits. rewrite list_elem_of_filter. tauto.
        + simpl in HD. unfold sv in HD. rewrite series_data_last in HD. eauto. }
    exists e. split_and!; [exact Hlast|exact He|].
    intros e' He' Hk'. destruct (Hseries e' He') as (s' & ws' & Hs' & Hl' & _).
    unfold series_key_at in Hk'. rewrite Hs' in Hk'. injection Hk' as Hk'.
    rewrite Hk' in Hl'. congruence.
  - apply (filed_NoDup movie_key (length users_data) _ _ (movie_objs st));
      [apply od_build_NoDup|apply build_faithful, movie_visits_tracked].
  - apply (filed_NoDup series_key (length users_data) _ _ (series_objs st));
      [apply od_build_NoDup|apply build_faithful, series_visits_tracked].
  - apply (filed_NoDup series_key (length users_data) _ _ (series_objs st));
      [apply od_build_NoDup|apply build_faithful, series_visits_tracked].
Qed.

Lemma representative_is_last_witness :
  ∃ st' rep, generate_report no_urls demo_store demo_users = Some (st', rep) ∧
             files_last_contributions demo_store demo_users st' rep.
Proof.
  apply representative_is_last.
  unfold valid_users. repeat (constructor; simpl); lia.
Defined.

(** In that household "Dune" (2021) is held by alice, reference 0, and by
    bob, reference 2: bob is the last user with the key, and his object is
    the one filed; alice's is in no bucket. *)
Example last_contribution_demo :
  last_contribution (movie_key_at demo_store) watched_movies demo_users
    "Dune_2021" = Some 2 ∧
  (movie_buckets ∘ snd) <$> generate_report no_urls demo_store demo_users =
    Some [2; 1].
Proof. split; by vm_compute. Qed.

(** The two year-less "Solaris" entries, with different TMDB ids, end up
    as one entry watched by both users. *)
Example noyear_collapse :
  ∃ st' rep, generate_report no_urls noyear_store noyear_users = Some (st', rep) ∧
    movie_key <$> movie_objs noyear_store !! 0 = Some "Solaris_None" ∧
    movies_watched_by_all rep = [1] ∧ movies_watched_by_some rep = [] ∧
    m_watched_by_users <$> movie_objs st' !! 1 = Some ["alice"; "bob"].
Proof. eexists _, _. split_and!; by vm_compute. Qed.

(** ** C3: [is_series_fully_watched] *)

(** C3: the triple returned by [is_series_fully_watched] holds the number
    of played episodes and the number of episodes fetched, and its boolean
    is true exactly when the two counts are equal and the total is
    positive; a total of 0 makes it false. *)
Theorem fully_watched_iff srv c series_id uid :
  ∃ b watched total,
    is_series_fully_watched srv c series_id uid = (b, watched, total) ∧
    watched = Z.of_nat (length (filter (λ ep, played ep = true)
                                  (get_series_episodes srv c series_id uid))) ∧
    total = Z.of_nat (length (get_series_episodes srv c series_id uid)) ∧
    (b = true ↔ watched = total ∧ (0 < total)%Z) ∧
    (total = 0%Z → b = false).
Proof.
  unfold is_series_fully_watched.
  destruct (get_series_episodes srv c series_id uid) as [|ep eps] eqn:E.
  - exists false, 0%Z, 0%Z. split_and!; try done. split; [done|lia].
  - eexists _, _, _. split_and!; [reflexivity..| |].
    + rewrite andb_true_iff, Z.eqb_eq, Z.ltb_lt. done.
    + simpl length. lia.
Qed.

(** ** C7: the catalog lookup maps *)

Lemma build_lookup_snoc {A} (ident : A → option pyval) items x :
  build_lookup ident (items ++ [x]) =
  if truthy (py_get (ident x))
  then <[py_str (py_get (ident x)) := x]> (build_lookup ident items)
  else build_lookup ident items.
Proof. unfold build_lookup. by rewrite fold_left_app. Qed.

Lemma truthy_spec v :
  truthy v = true ↔
  v ≠ PyNone ∧ v ≠ PyBool false ∧ v ≠ PyInt 0 ∧ v ≠ PyStr "".
Proof.
  destruct v as [|[]|z|s]; simpl.
  - naive_solver.
  - naive_solver.
  - naive_solver.
  - rewrite negb_true_iff, Z.eqb_neq. split; [|naive_solver].
    intros Hz. split_and!; congruence.
  - rewrite negb_true_iff, String.eqb_neq. split; [|naive_solver].
    intros Hs. split_and!; congruence.
Qed.

(** C7 (amended): the lookup map has an entry under a key [k] if and only
    if [k] is the string form of the identifier of some catalog item whose
    identifier is truthy, that is present and neither null, false, 0 nor
    the empty string; the entry is the last such item.  So every item with
    a truthy identifier has the string form of its identifier as a key of
    the map (a later item with the same key replaces an earlier one), and
    no item with a missing, null or otherwise falsy identifier is an
    entry. *)
Theorem build_lookup_spec {A} (ident : A → option pyval) (items : list A) :
  (∀ k, is_Some (build_lookup ident items !! k) ↔
        ∃ x, x ∈ items ∧ truthy (py_get (ident x)) = true ∧
             py_str (py_get (ident x)) = k) ∧
  (∀ x, truthy (py_get (ident x)) = true ↔
        ∃ v, ident x = Some v ∧ v ≠ PyNone ∧ v ≠ PyBool false ∧
             v ≠ PyInt 0 ∧ v ≠ PyStr "") ∧
  (∀ k, build_lookup ident items !! k =
        last (filter (λ x, truthy (py_get (ident x)) = true ∧
                           py_str (py_get (ident x)) = k) items)) ∧
  (∀ x, x ∈ items → truthy (py_get (ident x)) = true →
        is_Some (build_lookup ident items !! py_str (py_get (ident x)))) ∧
  (∀ k x, build_lookup ident items !! k = Some x →
        x ∈ items ∧ truthy (py_get (ident x)) = true ∧
        py_str (py_get (ident x)) = k).
Proof.
  assert (∀ k, build_lookup ident items !! k =
        last (filter (λ x, truthy (py_get (ident x)) = true ∧
                           py_str (py_get (ident x)) = k) items)) as Hlast.
  { intros k. induction items as [|x items IH] using rev_ind; [done|].
    rewrite build_lookup_snoc, filter_app, filter_cons, filter_nil, last_app.
    destruct (truthy (py_get (ident x))) eqn:Ht.
    - destruct (decide (py_str (py_get (ident x)) = k)) as [<-|Hne].
      + rewrite lookup_insert_eq. by rewrite decide_True.
      + rewrite lookup_insert_ne by done. rewrite decide_False by tauto. done.
    - rewrite decide_False by (intros [??]; congruence). done. }
  assert (∀ k x, build_lookup ident items !! k = Some x →
            x ∈ items ∧ truthy (py_get (ident x)) = true ∧
            py_str (py_get (ident x)) = k) as Hentry.
  { intros k x Hk. rewrite Hlast in Hk. apply last_Some_elem_of in Hk.
    apply list_elem_of_filter in Hk. tauto. }
  assert (∀ x, x ∈ items → truthy (py_get (ident x)) = true →
            is_Some (build_lookup ident items !! py_str (py_get (ident x))))
    as Hincl.
  { intros x Hx Ht. rewrite Hlast.
    apply (last_is_Some_elem_of x), list_elem_of_filter. done. }
  split_and!; [|
|exact Hlast|exact Hincl|exact Hentry].
  - intros k. split.
    + intros [x Hx]. exists x. by apply Hentry.
    + intros (x & Hx & Ht & <-). by apply Hincl.
  - intros x. rewrite truthy_spec. split.
    + intros Ht. destruct (ident x) as [v|]; [eauto|]. simpl in Ht. naive_solver.
    + intros (v & -> & Hne). exact Hne.
Qed.

Lemma build_lookup_witness :
  is_Some (build_lookup rm_tmdbId three_films !! "603") ∧
  build_lookup rm_tmdbId three_films !! "0" = None ∧
  build_lookup rm_tmdbId three_films !! "None" = None.
Proof.
  pose proof (build_lookup_spec rm_tmdbId three_films) as (Hkey & _ & Hlast & _).
  split_and!.
  - apply Hkey. exists (mkRadarrMovie (Some (PyInt 603)) (Some 1%Z)).
    split_and!; [by left|reflexivity|reflexivity].
  - by rewrite Hlast.
  - by rewrite Hlast.
Defined.

(** Why the equivalence is about keys: the string forms of a falsy and of
    a truthy identifier can coincide.  In [zero_films] the key "0" has an
    entry, the item whose identifier is the string "0", although the
    first item, with identifier 0, contributes none. *)
Example build_lookup_key_collision :
  build_lookup rm_tmdbId zero_films !! "0" =
    Some (mkRadarrMovie (Some (PyStr "0")) (Some 2%Z)) ∧
  build_lookup rm_tmdbId (take 1 zero_films) !! "0" = None.
Proof. split; by vm_compute. Qed.

(** C7 as stated fails: an identifier that is present and not null, but
    0, gives no entry. *)
Lemma build_lookup_counterexample :
  let item := mkRadarrMovie (Some (PyInt 0)) (Some 2%Z) in
  item ∈ three_films ∧ present_non_null (rm_tmdbId item) ∧
  build_lookup rm_tmdbId three_films !! py_str (py_get (rm_tmdbId item)) = None.
Proof.
  split_and!.
  - right. by left.
  - by exists (PyInt 0).
  - by vm_compute.
Qed.

(** ** C8: what [authenticate] returns and what it lets through *)

Lemma authenticate_logged_outcome srv c :
  (authenticate_logged srv c).1 = authenticate srv c.
Proof.
  unfold authenticate_logged, authenticate.
  destruct (post_AuthenticateByName srv (jf_username c) (jf_password c))
    as [status p|]; [|done].
  destruct (is_success status); [|done]. destruct p as [|data]; [done|].
  destruct (subscript data "AccessToken"); [|done].
  destruct (subscript data "User") as [user|]; [|done].
  by destruct (subscript user "Id").
Qed.

(** C8 (amended): on every transport error and on every status outside
    2xx, the two ways the request ends in an [httpx.HTTPError],
    [authenticate] logs the error and returns false, without raising and
    without touching the client; it returns false in no other case, and
    it logs an error in no other case.  On a 2xx answer it returns true
    when the body is a JSON object holding [AccessToken] and [User.Id],
    which it stores; on any other 2xx body the exception
    ([JSONDecodeError], [KeyError] or [TypeError]) reaches the caller,
    and nothing but the opening message has been logged. *)
Theorem authenticate_outcome srv c :
  let resp := post_AuthenticateByName srv (jf_username c) (jf_password c) in
  (http_failed resp → authenticate srv c = (Ok false, c)) ∧
  (∀ c', authenticate srv c = (Ok false, c') → http_failed resp) ∧
  (∀ status p, resp = Responded status p → is_success status = true →
     (∀ token uid, auth_payload p token uid →
        authenticate srv c =
        (Ok true, mkClient (jf_username c) (jf_password c) (Some token) (Some uid))) ∧
     ((∀ token uid, ¬ auth_payload p token uid) →
        ∃ e c', authenticate srv c = (Raise e, c'))) ∧
  (authenticate_logged srv c).1 = authenticate srv c ∧
  (http_failed resp ↔ is_Some (http_error_of resp)) ∧
  (∀ e, http_error_of resp = Some e →
     authenticate_logged srv c = (Ok false, c, [auth_started c; auth_failed e])) ∧
  (∀ rec, rec ∈ (authenticate_logged srv c).2 → log_level_of rec = ERROR →
     http_failed resp ∧ (authenticate srv c).1 = Ok false) ∧
  (∀ e, (authenticate srv c).1 = Raise e →
     (authenticate_logged srv c).2 = [auth_started c]).
Proof.
  intros resp.
  assert ((http_failed resp → authenticate srv c = (Ok false, c)) ∧
          (∀ c', authenticate srv c = (Ok false, c') → http_failed resp) ∧
          (∀ status p, resp = Responded status p → is_success status = true →
             (∀ token uid, auth_payload p token uid →
                authenticate srv c =
                (Ok true, mkClient (jf_username c) (jf_password c)
                            (Some token) (Some uid))) ∧
             ((∀ token uid, ¬ auth_payload p token uid) →
                ∃ e c', authenticate srv c = (Raise e, c')))) as Hout.
  { unfold authenticate. fold resp.
    destruct resp as [status p|] eqn:Hresp; simpl.
    - destruct (is_success status) eqn:Hs.
      + split_and!; [done| |].
        * intros c' H. exfalso.
          destruct p as [|data]; [done|].
          destruct (subscript data "AccessToken"); [|done].
          destruct (subscript data "User") as [user|]; [|done].
          destruct (subscript user "Id"); done.
        * intros status' p' [= <- <-] _. split.
          -- intros token uid (data & user & -> & Ht & Hu & Hi).
             by rewrite Ht, Hu, Hi.
          -- intros Hno. destruct p as [|data]; [eauto|].
             destruct (subscript data "AccessToken") as [token|] eqn:Ht; [|eauto].
             destruct (subscript data "User") as [user|] eqn:Hu; [|eauto].
             destruct (subscript user "Id") as [uid|] eqn:Hi; [|eauto].
             destruct (Hno token uid). by exists data, user.
      + split_and!; [done|done|]. intros status' p' [= <- <-] ?. congruence.
    - split_and!; done. }
  destruct Hout as (Hfail & Hfalse & Hgood).
  split_and!; [exact Hfail|exact Hfalse|exact Hgood
              |apply authenticate_logged_outcome| | | |].
  - unfold http_failed, http_error_of. destruct resp as [status p|].
    + destruct (is_success status); split; try done; by intros [??].
    + split; [by eexists|done].
  - unfold authenticate_logged, http_error_of. fold resp.
    destruct resp as [status p|].
    + destruct (is_success status); [done|]. by intros e [= <-].
    + by intros e [= <-].
  - unfold authenticate_logged, authenticate, http_failed. fold resp.
    destruct resp as [status p|].
    + destruct (is_success status) eqn:Hs.
      * intros rec Hrec Hlvl. exfalso.
        destruct p as [|data]; simpl in Hrec.
        { apply list_elem_of_singleton in Hrec as ->. done. }
        destruct (subscript data "AccessToken"); simpl in Hrec;
          [|apply list_elem_of_singleton in Hrec as ->; done].
        destruct (subscript data "User") as [user|]; simpl in Hrec;
          [|apply list_elem_of_singleton in Hrec as ->; done].
        destruct (subscript user "Id"); simpl in Hrec;
          [|apply list_elem_of_singleton in Hrec as ->; done].
        apply elem_of_cons in Hrec as [->|Hrec]; [done|].
        apply list_elem_of_singleton in Hrec as ->. done.
      * done.
    + done.
  - unfold authenticate_logged, authenticate. fold resp.
    destruct resp as [status p|]; [|done].
    destruct (is_success status); [|done]. destruct p as [|data]; [done|].
    destruct (subscript data "AccessToken"); [|done].
    destruct (subscript data "User") as [user|]; [|done].
    by destruct (subscript user "Id").
Qed.

Lemma authenticate_outcome_witness :
  authenticate unauthorized_server admin_client = (Ok false, admin_client) ∧
  authenticate (login_only (Responded 200 good_login)) admin_client =
    (Ok true, mkClient "admin" "secret" (Some (JStr "t0k3n")) (Some (JStr "u1"))) ∧
  authenticate_logged unauthorized_server admin_client =
    (Ok false, admin_client,
     [auth_started admin_client; auth_failed (StatusError 401)]).
Proof.
  destruct (authenticate_outcome unauthorized_server admin_client)
    as (Hfail & _ & _ & _ & _ & Hlog & _).
  destruct (authenticate_outcome (login_only (Responded 200 good_login))
              admin_client) as (_ & _ & Hgood & _).
  split_and!.
  - apply Hfail. reflexivity.
  - apply (Hgood 200%Z good_login); [reflexivity|reflexivity|].
    exists (JObj [("AccessToken", JStr "t0k3n");
                  ("User", JObj [("Id", JStr "u1"); ("Name", JStr "admin")])]),
           (JObj [("Id", JStr "u1"); ("Name", JStr "admin")]).
    split_and!; reflexivity.
  - apply Hlog. reflexivity.
Defined.

(** What the log holds in the three outcomes: the error after a 401, the
    success message after a good login, and the opening message alone when
    the call raises. *)
Example authenticate_logs :
  (authenticate_logged unauthorized_server admin_client).2 =
    [mkLog INFO [Text "[cyan]Authenticating with Jellyfin as "; Text "admin";
                 Text "[/cyan]"];
     mkLog ERROR [Text "[red]Failed to authenticate with Jellyfin: ";
                  Exc (StatusError 401); Text "[/red]"]] ∧
  (authenticate_logged (login_only (Responded 200 good_login)) admin_client).2 =
    [auth_started admin_client; auth_succeeded] ∧
  (authenticate_logged empty_object_server admin_client).2 =
    [auth_started admin_client].
Proof. split_and!; reflexivity. Qed.

(** C8 as stated fails: a 200 answer whose JSON object has no
    [AccessToken] makes [authenticate] raise [KeyError]; a 200 answer
    that is not JSON makes it raise [JSONDecodeError]. *)
Lemma authenticate_counterexample :
  authenticate empty_object_server admin_client = (Raise KeyError, admin_client) ∧
  authenticate (login_only (Responded 200 NotJson)) admin_client =
    (Raise JSONDecodeError, admin_client).
Proof. split; reflexivity. Qed.

(** ** C5: the report after a failed login *)

(** C5: when [authenticate] returns false, [collect_data] returns, without
    raising and without creating any object, the default report, whose
    users list and six buckets are empty; [main] hands it to [set_report],
    and [/api/report] then answers with the dump of that report, which is
    not the "No report available" object. *)
Theorem auth_failure_report svc w c st app :
  (authenticate (jellyfin w) c).1 = Ok false →
  ∃ c' rep j,
    collect_data svc w c st = (c', st, Ok rep) ∧
    users rep = [] ∧
    movies_watched_by_all rep = [] ∧ movies_watched_by_some rep = [] ∧
    series_fully_watched_by_all rep = [] ∧ series_fully_watched_by_some rep = [] ∧
    series_partially_watched_by_all rep = [] ∧
    series_partially_watched_by_some rep = [] ∧
    main_collect svc w c st app = (c', st, Ok (set_report app rep)) ∧
    current_report (set_report app rep) = Some rep ∧
    get_report st (set_report app rep) = Some j ∧
    model_dump st rep = Some j ∧
    j ≠ no_report.
Proof.
  intros Hauth.
  assert (collect_data svc w c st =
          ((authenticate (jellyfin w) c).2, st, Ok Report_default)) as Hcollect.
  { unfold collect_data. destruct (authenticate (jellyfin w) c) as [[[]|] c1];
      simpl in *; done. }
  eexists _, Report_default, _. split; [exact Hcollect|].
  split_and!; try reflexivity.
  - unfold main_collect. by rewrite Hcollect.
  - discriminate.
Qed.

Lemma auth_failure_report_witness :
  ∃ c' rep j,
    collect_data no_urls (mkWorld unauthorized_server CallFailed CallFailed)
      admin_client demo_store = (c', demo_store, Ok rep) ∧
    users rep = [] ∧
    movies_watched_by_all rep = [] ∧ movies_watched_by_some rep = [] ∧
    series_fully_watched_by_all rep = [] ∧ series_fully_watched_by_some rep = [] ∧
    series_partially_watched_by_all rep = [] ∧
    series_partially_watched_by_some rep = [] ∧
    main_collect no_urls (mkWorld unauthorized_server CallFailed CallFailed)
      admin_client demo_store app_start = (c', demo_store, Ok (set_report app_start rep)) ∧
    current_report (set_report app_start rep) = Some rep ∧
    get_report demo_store (set_report app_start rep) = Some j ∧
    model_dump demo_store rep = Some j ∧
    j ≠ no_report.
Proof. apply auth_failure_report. reflexivity. Defined.

(** Before [set_report], [/api/report] answers with the sentinel. *)
Example get_report_unset st : get_report st app_start = Some no_report.
Proof. reflexivity. Qed.

(** ** The collection loops *)

Lemma collect_movies_fold lookup items st refs :
  fold_left (λ acc movie,
               let '(st', r) := alloc_movie acc.1 (parse_movie movie lookup) in
               (st', acc.2 ++ [r])) items (st, refs) =
  (mkStore (movie_objs st ++ ((λ movie, parse_movie movie lookup) <$> items))
           (series_objs st),
   refs ++ seq (length (movie_objs st)) (length items)).
Proof.
  revert st refs. induction items as [|x items IH]; intros st refs.
  - simpl. rewrite !app_nil_r. by destruct st.
  - simpl. rewrite IH. simpl. rewrite length_app, <-!app_assoc. simpl.
    by rewrite Nat.add_1_r.
Qed.

Lemma collect_movies_spec lookup items st :
  collect_movies lookup items st =
  (mkStore (movie_objs st ++ ((λ movie, parse_movie movie lookup) <$> items))
           (series_objs st),
   seq (length (movie_objs st)) (length items)).
Proof. unfold collect_movies. by rewrite collect_movies_fold. Qed.

Lemma collect_series_fold srv c lookup uid items st refs :
  fold_left (λ acc series,
               match parse_series srv c series uid lookup with
               | Some series_info =>
                   let '(st', r) := alloc_series acc.1 series_info in
                   (st', acc.2 ++ [r])
               | None => acc
               end) items (st, refs) =
  (mkStore (movie_objs st)
     (series_objs st ++ omap (λ item, parse_series srv c item uid lookup) items),
   refs ++ seq (length (series_objs st))
             (length (omap (λ item, parse_series srv c item uid lookup) items))).
Proof.
  revert st refs. induction items as [|x items IH]; intros st refs.
  - simpl. rewrite !app_nil_r. by destruct st.
  - destruct (parse_series srv c x uid lookup) as [info|] eqn:Hp.
    + rewrite (omap_cons_Some _ _ _ info) by done.
      simpl. rewrite Hp. simpl. rewrite IH. simpl.
      rewrite length_app, <-!app_assoc. simpl. by rewrite Nat.add_1_r.
    + rewrite omap_cons_None by done. simpl. rewrite Hp. by rewrite IH.
Qed.

Lemma collect_series_spec srv c lookup uid items st :
  collect_series srv c lookup uid items st =
  (mkStore (movie_objs st)
     (series_objs st ++ omap (λ item, parse_series srv c item uid lookup) items),
   seq (length (series_objs st))
       (length (omap (λ item, parse_series srv c item uid lookup) items))).
Proof. unfold collect_series. by rewrite collect_series_fold. Qed.

Lemma collect_user_spec srv c rl sl st uds user :
  collect_user srv c rl sl (st, uds) user =
  (mkStore (movie_objs st ++ parsed_movies srv c rl user)
           (series_objs st ++ parsed_series srv c sl user),
   uds ++ [mkUserWatchData (u_Id user) (u_Name user)
             (seq (length (movie_objs st)) (length (parsed_movies srv c rl user)))
             (seq (length (series_objs st)) (length (parsed_series srv c sl user)))]).
Proof.
  unfold collect_user. simpl. rewrite collect_movies_spec, collect_series_spec.
  simpl. unfold parsed_movies, parsed_series. by rewrite length_fmap.
Qed.

Lemma mapM_lookup_seq {A} (l new : list A) :
  mapM (λ r, (l ++ new) !! r) (seq (length l) (length new)) = Some new.
Proof.
  apply mapM_Some. revert l. induction new as [|x new IH]; intros l; [constructor|].
  simpl. constructor.
  - by rewrite lookup_app_r, Nat.sub_diag by lia.
  - specialize (IH (l ++ [x])). rewrite length_app, Nat.add_1_r in IH.
    by rewrite <-app_assoc in IH.
Qed.

Lemma mapM_lookup_app {A} (l l' : list A) refs xs :
  mapM (λ r, l !! r) refs = Some xs → mapM (λ r, (l ++ l') !! r) refs = Some xs.
Proof.
  rewrite !mapM_Some. intros H. eapply Forall2_impl; [exact H|].
  intros r x Hr. by apply lookup_app_l_Some.
Qed.

Lemma Forall_seq_lt a n m : a + n ≤ m → Forall (λ r, r < m) (seq a n).
Proof. intros H. apply Forall_forall. intros r Hr%elem_of_seq. lia. Qed.

Lemma valid_users_grow st uds ms ss :
  valid_users st uds →
  valid_users (mkStore (movie_objs st ++ ms) (series_objs st ++ ss)) uds.
Proof.
  unfold valid_users. intros H. eapply Forall_impl; [exact H|].
  intros u [Hm Hs]. simpl. rewrite !length_app.
  split; (eapply Forall_impl; [eassumption|]); simpl; intros; lia.
Qed.

Lemma record_of_grow srv c rl sl st ms ss user ud :
  record_of srv c rl sl st user ud →
  record_of srv c rl sl (mkStore (movie_objs st ++ ms) (series_objs st ++ ss))
    user ud.
Proof.
  intros (Hi & Hn & Hm & Hs). split_and!; [done..| |].
  - by apply mapM_lookup_app.
  - by apply mapM_lookup_app.
Qed.

Lemma collect_users_spec srv c rl sl users : ∀ st uds done,
  valid_users st uds → Forall2 (record_of srv c rl sl st) done uds →
  ∃ st1 uds1,
    fold_left (collect_user srv c rl sl) users (st, uds) = (st1, uds1) ∧
    valid_users st1 uds1 ∧
    Forall2 (record_of srv c rl sl st1) (done ++ users) uds1.
Proof.
  induction users as [|user users IH]; intros st uds done Hv Hrec.
  - exists st, uds. rewrite app_nil_r. done.
  - simpl. rewrite collect_user_spec.
    destruct (IH (mkStore (movie_objs st ++ parsed_movies srv c rl user)
                          (series_objs st ++ parsed_series srv c sl user))
                 (uds ++ [mkUserWatchData (u_Id user) (u_Name user)
                    (seq (length (movie_objs st))
                         (length (parsed_movies srv c rl user)))
                    (seq (length (series_objs st))
                         (length (parsed_series srv c sl user)))])
                 (done ++ [user])) as (st1 & uds1 & Hrun & Hv1 & Hrec1).
    + apply Forall_app. split; [by apply valid_users_grow|].
      constructor; [|constructor]. simpl. rewrite !length_app.
      split; by apply Forall_seq_lt.
    + apply Forall2_app.
      * eapply Forall2_impl; [exact Hrec|]. intros ???. by apply record_of_grow.
      * constructor; [|constructor]. split_and!; [done..| |]; simpl.
        -- apply mapM_lookup_seq.
        -- apply mapM_lookup_seq.
    + exists st1, uds1. rewrite <-app_assoc in Hrec1. done.
Qed.

(** ** C4: series without a watched episode *)

Lemma parse_series_Some srv c item uid sl s :
  parse_series srv c item uid sl = Some s →
  watched_count srv c item uid ≠ 0%Z ∧
  s_watched_episodes s = watched_count srv c item uid ∧
  series_key s = item_key item ∧ s_watched_by_users s = [].
Proof.
  unfold parse_series, watched_count.
  destruct (is_series_fully_watched srv c (it_Id item) uid) as [[b wc] tc].
  simpl. destruct (wc =? 0)%Z eqn:Hz; [done|]. intros [= <-]. simpl.
  apply Z.eqb_neq in Hz. done.
Qed.

Lemma parse_series_None srv c item uid sl :
  parse_series srv c item uid sl = None ↔ watched_count srv c item uid = 0%Z.
Proof.
  unfold parse_series, watched_count.
  destruct (is_series_fully_watched srv c (it_Id item) uid) as [[b wc] tc].
  simpl. destruct (wc =? 0)%Z eqn:Hz.
  - apply Z.eqb_eq in Hz. done.
  - apply Z.eqb_neq in Hz. done.
Qed.

Lemma parsed_series_length srv c sl user :
  length (parsed_series srv c sl user) =
  length (filter (λ item, watched_count srv c item (u_Id user) ≠ 0%Z)
            (get_watched_series srv c (u_Id user))).
Proof.
  unfold parsed_series.
  induction (get_watched_series srv c (u_Id user)) as [|item items IH]; [done|].
  rewrite filter_cons.
  destruct (parse_series srv c item (u_Id user) sl) as [s|] eqn:Hp.
  - rewrite (omap_cons_Some _ _ _ s) by done.
    apply parse_series_Some in Hp as [Hc _].
    rewrite decide_True by done. simpl. by rewrite IH.
  - rewrite omap_cons_None by done. apply parse_series_None in Hp.
    rewrite decide_False by (intros H; by apply H). done.
Qed.

Lemma mapM_lookup_elem {A} (l : list A) refs xs r :
  mapM (λ r, l !! r) refs = Some xs → r ∈ refs →
  ∃ x, l !! r = Some x ∧ x ∈ xs.
Proof.
  rewrite mapM_Some. induction 1 as [|r' x refs xs Hx _ IH]; intros Hr.
  - by apply elem_of_nil in Hr.
  - apply elem_of_cons in Hr as [->|Hr].
    + exists x. split; [done|left].
    + destruct (IH Hr) as (y & Hy & Hin). exists y. split; [done|by right].
Qed.

Lemma Forall2_elem_r {A B} (R : A → B → Prop) l k y :
  Forall2 R l k → y ∈ k → ∃ x, x ∈ l ∧ R x y.
Proof.
  induction 1 as [|x y' l k HR _ IH]; intros Hy.
  - by apply elem_of_nil in Hy.
  - apply elem_of_cons in Hy as [->|Hy].
    + exists x. split; [left|done].
    + destruct (IH Hy) as (x' & Hx' & HR'). exists x'. split; [by right|done].
Qed.

Lemma record_series_entry srv c rl sl st users uds ud r s0 :
  Forall2 (record_of srv c rl sl st) users uds →
  ud ∈ uds → r ∈ watched_series ud → series_objs st !! r = Some s0 →
  ∃ user item, user ∈ users ∧ u_Name user = username ud ∧
    item ∈ get_watched_series srv c (u_Id user) ∧
    parse_series srv c item (u_Id user) sl = Some s0.
Proof.
  intros Hrec Hud Hr Hs0.
  destruct (Forall2_elem_r _ _ _ _ Hrec Hud) as (user & Huser & _ & Hn & _ & Hs).
  destruct (mapM_lookup_elem _ _ _ r Hs Hr) as (s & Hs' & Hin).
  assert (s = s0) as -> by congruence.
  apply list_elem_of_omap in Hin as (item & Hitem & Hp).
  exists user, item. done.
Qed.

Lemma series_visits_inv objs uds v :
  v ∈ series_visits objs uds →
  ∃ ud s, ud ∈ uds ∧ v_ref v ∈ watched_series ud ∧ objs !! v_ref v = Some s ∧
          v_key v = series_key s ∧ v_user v = username ud.
Proof.
  unfold series_visits. intros Hv.
  apply list_elem_of_bind in Hv as (ud & Hv & Hud).
  apply list_elem_of_omap in Hv as (r & Hr & Hv).
  unfold series_visit in Hv. destruct (objs !! r) as [s|] eqn:Hs; [|done].
  injection Hv as <-. exists ud, s. done.
Qed.

Lemma ws_of_elem name k vs :
  name ∈ ws_of k (kus_of vs) → ∃ v, v ∈ vs ∧ v_key v = k ∧ v_user v = name.
Proof.
  unfold ws_of, kus_of. intros H.
  apply list_elem_of_fmap in H as ([k' u] & -> & H).
  apply list_elem_of_filter in H as [Hk H]. simpl in Hk.
  apply list_elem_of_fmap in H as (v & [= -> ->] & Hv). eauto.
Qed.

Lemma set_nil_attached D (W : odict) r s :
  set_series_watchers []
    (attached series_key set_series_watchers D W r s) =
  set_series_watchers [] s.
Proof.
  unfold attached. destruct (od_get _ W); [|done]. by case_decide.
Qed.

Lemma set_nil_parsed srv c item uid sl s :
  parse_series srv c item uid sl = Some s → set_series_watchers [] s = s.
Proof.
  intros H. apply parse_series_Some in H as (_ & _ & _ & Hw).
  destruct s. simpl in *. by subst.
Qed.

Lemma od_get_build_ws k kus ws :
  od_get k (od_build kus) = Some ws → ws = ws_of k kus.
Proof.
  rewrite od_get_build. destruct (ws_of k kus); [done|]. by intros [= <-].
Qed.

(** Where the watcher list of a filed series entry comes from. *)
Section filed_series.
Context (st : store) (users_data : list UserWatchData) (sobjs : list SeriesInfo).
Local Abbreviation n := (length users_data).
Local Abbreviation sv := (series_visits (series_objs st) users_data).
Local Abbreviation Wf := (od_build (kus_of (full_visits sv))).
Local Abbreviation Wp := (od_build (kus_of (partial_visits sv))).
Local Abbreviation Ds := (data_build (krs_of sv)).
Hypothesis Hsl : ∀ r, sobjs !! r =
  (λ o, attached series_key set_series_watchers Ds Wp r
          (attached series_key set_series_watchers Ds Wf r o))
  <$> series_objs st !! r.

Lemma series_filed_watchers r :
  r ∈ filed_all n Ds Wf ++ filed_some n Ds Wf ++
      filed_all n Ds Wp ++ filed_some n Ds Wp →
  ∃ s0 ws, series_objs st !! r = Some s0 ∧
    sobjs !! r = Some (set_series_watchers ws s0) ∧
    Ds !! series_key s0 = Some r ∧
    ∀ name, name ∈ ws →
      ∃ v, v ∈ sv ∧ v_key v = series_key s0 ∧ v_user v = name.
Proof.
  intros Hr.
  pose proof (series_final_full st users_data sobjs Hsl) as HF.
  pose proof (series_final_partial st users_data sobjs Hsl) as HP.
  assert (∀ k ws name, (k, ws) ∈ od_build (kus_of (full_visits sv)) →
            name ∈ ws → ∃ v, v ∈ sv ∧ v_key v = k ∧ v_user v = name) as Hfull.
  { intros k ws name Hin Hname. apply od_build_elem_of in Hin as [-> _].
    apply ws_of_elem in Hname as (v & Hv & ? & ?). exists v. split; [|done].
    unfold full_visits in Hv. apply list_elem_of_filter in Hv. tauto. }
  assert (∀ k ws name, od_get k (od_build (kus_of (partial_visits sv))) = Some ws →
            name ∈ ws → ∃ v, v ∈ sv ∧ v_key v = k ∧ v_user v = name) as Hpart.
  { intros k ws name Hget Hname. apply od_get_build_ws in Hget as ->.
    apply ws_of_elem in Hname as (v & Hv & ? & ?). exists v. split; [|done].
    unfold partial_visits in Hv. apply list_elem_of_filter in Hv. tauto. }
  rewrite !elem_of_app in Hr.
  destruct Hr as [Hr|[Hr|[Hr|Hr]]].
  - apply elem_of_filed_all in Hr as (k & ws & Hin & _ & HD).
    destruct (HF k ws r Hin HD) as (s0 & Hs0 & <- & Hfin).
    eexists s0, _. split_and!; [done|exact Hfin|done|].
    intros name Hname.
    destruct (od_get _ (od_build (kus_of (partial_visits sv)))) eqn:Hp; eauto.
  - apply elem_of_filed_some in Hr as (k & ws & Hin & _ & HD).
    destruct (HF k ws r Hin HD) as (s0 & Hs0 & <- & Hfin).
    eexists s0, _. split_and!; [done|exact Hfin|done|].
    intros name Hname.
    destruct (od_get _ (od_build (kus_of (partial_visits sv)))) eqn:Hp; eauto.
  - apply elem_of_filed_all in Hr as (k & ws & Hin & _ & HD).
    destruct (HP k ws r Hin HD) as (s0 & Hs0 & <- & Hfin).
    eexists s0, _. split_and!; [done|exact Hfin|done|].
    intros name Hname. eapply Hpart; [|done].
    by apply od_get_elem_of; [apply od_build_NoDup|].
  - apply elem_of_filed_some in Hr as (k & ws & Hin & _ & HD).
    destruct (HP k ws r Hin HD) as (s0 & Hs0 & <- & Hfin).
    eexists s0, _. split_and!; [done|exact Hfin|done|].
    intros name Hname. eapply Hpart; [|done].
    by apply od_get_elem_of; [apply od_build_NoDup|].
Qed.
End filed_series.

(** C4: when the login succeeds, [collect_data] returns a report in which
    a fetched series with a watched count of 0 has no entry in its user's
    record (the record has exactly one entry per series with a nonzero
    count, each stemming from such a series), every entry of the series
    buckets has a nonzero count, and a username stands in the watcher list
    of a filed entry only if that user has a series of the same title and
    year with a nonzero count; the counts of other users play no part. *)
Theorem zero_watched_series_excluded svc w c st c1 :
  authenticate (jellyfin w) c = (Ok true, c1) →
  ∃ st' rep,
    collect_data svc w c st = (c1, st', Ok rep) ∧
    zero_count_excluded (jellyfin w) c1
      (build_lookup ss_tvdbId (get_all (sonarr_series w)))
      (get_users (jellyfin w) c1) st' rep.
Proof.
  intros Hauth. unfold collect_data. rewrite Hauth.
  set (srv := jellyfin w).
  set (rl := build_lookup rm_tmdbId (get_all (radarr_movies w))).
  set (sl := build_lookup ss_tvdbId (get_all (sonarr_series w))).
  set (jus := get_users srv c1).
  destruct (collect_users_spec srv c1 rl sl jus st [] [])
    as (st1 & uds & Hfold & Hv & Hrec); [constructor|constructor|].
  rewrite Hfold. simpl in Hrec.
  destruct (generate_report_spec svc st1 uds Hv)
    as (mobjs & sobjs & Hrun & _ & Hsl).
  rewrite Hrun. eexists _, _. split; [reflexivity|].
  assert (∀ r s0, series_objs st1 !! r = Some s0 →
            ∃ s, sobjs !! r = Some s ∧
                 set_series_watchers [] s = set_series_watchers [] s0) as Hkeep.
  { intros r s0 Hs0. rewrite Hsl, Hs0. simpl. eexists. split; [done|].
    by rewrite !set_nil_attached. }
  split.
  - simpl. eapply Forall2_impl; [exact Hrec|].
    intros user ud (Hi & Hn & _ & Hs). split_and!; [done|done| |].
    + apply length_mapM in Hs. rewrite Hs. apply parsed_series_length.
    + intros r Hr.
      destruct (mapM_lookup_elem _ _ _ r Hs Hr) as (s0 & Hs0 & Hin).
      apply list_elem_of_omap in Hin as (item & Hitem & Hp).
      destruct (Hkeep r s0 Hs0) as (s & Hfin & Hnil).
      exists s, item. split_and!; [done|done| |].
      * by apply parse_series_Some in Hp as [? _].
      * by rewrite Hnil, (set_nil_parsed _ _ _ _ _ _ Hp).
  - intros r Hr.
    destruct (series_filed_watchers st1 uds sobjs Hsl r) as
      (s0 & ws & Hs0 & Hfin & HD & Hnames).
    { exact Hr. }
    rewrite data_build_lookup in HD.
    apply last_ref_Some in HD as (v & Hv0 & Hk0 & Hr0).
    apply series_visits_inv in Hv0 as (ud & s1 & Hud & Hrud & Hs1 & _ & _).
    rewrite Hr0 in Hrud, Hs1. assert (s1 = s0) as -> by congruence.
    destruct (record_series_entry _ _ _ _ _ _ _ _ _ _ Hrec Hud Hrud Hs0)
      as (user & item & _ & _ & _ & Hp).
    apply parse_series_Some in Hp as (Hc & Hw & _ & _).
    exists (set_series_watchers ws s0). split_and!; [done|simpl; congruence|].
    simpl. intros name Hname.
    destruct (Hnames name Hname) as (v' & Hv' & Hk' & Hu').
    apply series_visits_inv in Hv' as (ud' & s' & Hud' & Hrud' & Hs' & Hks' & Hus').
    destruct (record_series_entry _ _ _ _ _ _ _ _ _ _ Hrec Hud' Hrud' Hs')
      as (user' & item' & Huser' & Hn' & Hitem' & Hp').
    apply parse_series_Some in Hp' as (Hc' & _ & Hkey' & _).
    exists user', item'. split_and!; [done|congruence|done| |done].
    rewrite <-Hkey'. change (series_key (set_series_watchers ws s0))
      with (series_key s0). congruence.
Qed.

Lemma zero_watched_series_excluded_witness :
  ∃ st' rep,
    collect_data no_urls family_world admin_client empty_store =
      (logged_in, st', Ok rep) ∧
    zero_count_excluded family_server logged_in
      (build_lookup ss_tvdbId []) (get_users family_server logged_in) st' rep.
Proof.
  apply (zero_watched_series_excluded no_urls family_world admin_client
           empty_store logged_in).
  reflexivity.
Defined.

(** In that household bob's record holds no series, and the only filed
    entry names alice alone. *)
Example family_report :
  ∃ st' rep,
    collect_data no_urls family_world admin_client empty_store =
      (logged_in, st', Ok rep) ∧
    watched_series <$> users rep = [[0]; []] ∧
    series_buckets rep = [0] ∧ series_fully_watched_by_some rep = [0] ∧
    s_watched_by_users <$> series_objs st' !! 0 = Some ["alice"].
Proof. eexists _, _. split_and!; by vm_compute. Qed.

(** ** C9: the JSON form and back *)

Lemma load_opt_int_dump y : load_opt load_int (dump_opt_int y) = Some y.
Proof. by destruct y. Qed.

Lemma load_opt_str_dump y : load_opt load_str (dump_opt_str y) = Some y.
Proof. by destruct y. Qed.

Lemma load_strs_dump l : mapM load_str (JStr <$> l) = Some l.
Proof. by apply mapM_fmap_Some. Qed.

Lemma load_movie_dump m : load_movie (dump_movie m) = Some m.
Proof.
  destruct m. unfold load_movie, dump_movie, required, defaulted.
  cbn [assoc decide]. simpl.
  rewrite !load_opt_int_dump, !load_opt_str_dump, load_strs_dump. done.
Qed.

Lemma load_series_dump s : load_series (dump_series s) = Some s.
Proof.
  destruct s. unfold load_series, dump_series, required, defaulted.
  cbn [assoc decide]. simpl.
  rewrite !load_opt_int_dump, !load_opt_str_dump, load_strs_dump. done.
Qed.

Lemma load_user_dump u : load_user (dump_user u) = Some u.
Proof.
  destruct u. unfold load_user, dump_user, required, defaulted.
  cbn [assoc decide]. simpl.
  rewrite (mapM_fmap_Some load_movie dump_movie) by apply load_movie_dump.
  rewrite (mapM_fmap_Some load_series dump_series) by apply load_series_dump.
  done.
Qed.

Lemma load_report_dump d : load_report (dump_report d) = Some d.
Proof.
  destruct d. unfold load_report, dump_report, required, defaulted.
  cbn [assoc decide]. simpl.
  rewrite (mapM_fmap_Some load_user dump_user) by apply load_user_dump.
  rewrite !(mapM_fmap_Some load_movie dump_movie) by apply load_movie_dump.
  rewrite !(mapM_fmap_Some load_series dump_series) by apply load_series_dump.
  rewrite !load_opt_str_dump. done.
Qed.

Lemma extends_refl st : extends st st.
Proof. exists [], []. by rewrite !app_nil_r. Qed.

Lemma extends_trans st1 st2 st3 :
  extends st1 st2 → extends st2 st3 → extends st1 st3.
Proof.
  intros (m1 & s1 & Hm1 & Hs1) (m2 & s2 & Hm2 & Hs2).
  exists (m1 ++ m2), (s1 ++ s2). rewrite Hm2, Hs2, Hm1, Hs1.
  by rewrite !app_assoc.
Qed.

Lemma movies_at_extends st st' refs ms :
  extends st st' → movies_at st refs = Some ms → movies_at st' refs = Some ms.
Proof.
  intros (m & s & Hm & _) H. unfold movies_at in *. rewrite Hm.
  by apply mapM_lookup_app.
Qed.

Lemma series_at_extends st st' refs ss :
  extends st st' → series_at st refs = Some ss → series_at st' refs = Some ss.
Proof.
  intros (m & s & _ & Hs) H. unfold series_at in *. rewrite Hs.
  by apply mapM_lookup_app.
Qed.

Lemma user_data_Some st u x :
  user_data st u = Some x ↔
  movies_at st (watched_movies u) = Some (ud_movies x) ∧
  series_at st (watched_series u) = Some (ud_series x) ∧
  ud_user_id x = user_id u ∧ ud_username x = username u.
Proof.
  unfold user_data.
  destruct (movies_at st (watched_movies u)) as [ms|]; simpl;
    [|split; [done|intros [? _]; done]].
  destruct (series_at st (watched_series u)) as [ss|]; simpl;
    [|split; [done|intros (_ & ? & _); done]].
  destruct x as [i n m s]. simpl. split.
  - intros [= <- <- <- <-]. done.
  - intros ([= ->] & [= ->] & -> & ->). done.
Qed.

Lemma user_data_extends st st' u x :
  extends st st' → user_data st u = Some x → user_data st' u = Some x.
Proof.
  intros Hext. rewrite !user_data_Some. intros (Hm & Hs & ? & ?).
  split_and!; [by eapply movies_at_extends|by eapply series_at_extends|done..].
Qed.

Lemma users_data_extends st st' us xs :
  extends st st' →
  mapM (user_data st) us = Some xs → mapM (user_data st') us = Some xs.
Proof.
  intros Hext. rewrite !mapM_Some. intros H. eapply Forall2_impl; [exact H|].
  intros u x. by apply user_data_extends.
Qed.

Lemma intern_movies_spec st ms :
  extends st (intern_movies st ms).1 ∧
  movies_at (intern_movies st ms).1 (intern_movies st ms).2 = Some ms.
Proof.
  split; [exists ms, []; simpl; by rewrite app_nil_r|].
  unfold movies_at. simpl. apply mapM_lookup_seq.
Qed.

Lemma intern_series_spec st ss :
  extends st (intern_series st ss).1 ∧
  series_at (intern_series st ss).1 (intern_series st ss).2 = Some ss.
Proof.
  split; [exists [], ss; simpl; by rewrite app_nil_r|].
  unfold series_at. simpl. apply mapM_lookup_seq.
Qed.

Lemma intern_user_spec st us u :
  extends st (intern_user (st, us) u).1 ∧
  ∃ ud, (intern_user (st, us) u).2 = us ++ [ud] ∧
        user_data (intern_user (st, us) u).1 ud = Some u.
Proof.
  unfold intern_user. simpl.
  destruct (intern_movies_spec st (ud_movies u)) as [He1 Hm].
  destruct (intern_series_spec (intern_movies st (ud_movies u)).1 (ud_series u))
    as [He2 Hs].
  split; [by eapply extends_trans|].
  eexists. split; [reflexivity|]. apply user_data_Some. simpl.
  split_and!; [|exact Hs|done..].
  eapply movies_at_extends; [exact He2|exact Hm].
Qed.

Lemma intern_users_spec uds : ∀ st us done,
  mapM (user_data st) us = Some done →
  extends st (fold_left intern_user uds (st, us)).1 ∧
  mapM (user_data (fold_left intern_user uds (st, us)).1)
       (fold_left intern_user uds (st, us)).2 = Some (done ++ uds).
Proof.
  induction uds as [|u uds IH]; intros st us done Hdone.
  - simpl. rewrite app_nil_r. split; [apply extends_refl|done].
  - simpl. destruct (intern_user_spec st us u) as (Hext & ud & Hus & Hud).
    destruct (intern_user (st, us) u) as [st1 us1] eqn:E. simpl in *. subst us1.
    destruct (IH st1 (us ++ [ud]) (done ++ [u])) as [Hext' Hmap].
    + rewrite mapM_Some. apply Forall2_app.
      * apply mapM_Some. by eapply users_data_extends.
      * by repeat constructor.
    + split; [by eapply extends_trans|]. by rewrite <-app_assoc in Hmap.
Qed.

Lemma report_data_intern st d :
  report_data (intern_report st d).1 (intern_report st d).2 = Some d.
Proof.
  destruct d as [us ma ms fa fs pa ps ju ru su].
  unfold intern_report. simpl rd_users. simpl rd_movies_all.
  simpl rd_movies_some. simpl rd_full_all. simpl rd_full_some.
  simpl rd_partial_all. simpl rd_partial_some.
  pose proof (intern_users_spec us st [] [] eq_refl) as [_ Hu].
  destruct (fold_left intern_user us (st, [])) as [st1 urefs].
  pose proof (intern_movies_spec st1 ma) as [He2 Hma].
  destruct (intern_movies st1 ma) as [st2 r_ma].
  pose proof (intern_movies_spec st2 ms) as [He3 Hms].
  destruct (intern_movies st2 ms) as [st3 r_ms].
  pose proof (intern_series_spec st3 fa) as [He4 Hfa].
  destruct (intern_series st3 fa) as [st4 r_fa].
  pose proof (intern_series_spec st4 fs) as [He5 Hfs].
  destruct (intern_series st4 fs) as [st5 r_fs].
  pose proof (intern_series_spec st5 pa) as [He6 Hpa].
  destruct (intern_series st5 pa) as [st6 r_pa].
  pose proof (intern_series_spec st6 ps) as [He7 Hps].
  destruct (intern_series st6 ps) as [st7 r_ps].
  simpl in *.
  assert (extends st6 st7) as H6 by done.
  assert (extends st5 st7) as H5 by (by eapply extends_trans).
  assert (extends st4 st7) as H4 by (by eapply extends_trans).
  assert (extends st3 st7) as H3 by (by eapply extends_trans).
  assert (extends st2 st7) as H2 by (by eapply extends_trans).
  assert (extends st1 st7) as H1 by (by eapply extends_trans).
  unfold report_data. simpl.
  rewrite (users_data_extends st1 st7 _ _ H1 Hu). simpl.
  rewrite (movies_at_extends st2 st7 _ _ H2 Hma). simpl.
  rewrite (movies_at_extends st3 st7 _ _ H3 Hms). simpl.
  rewrite (series_at_extends st4 st7 _ _ H4 Hfa). simpl.
  rewrite (series_at_extends st5 st7 _ _ H5 Hfs). simpl.
  rewrite (series_at_extends st6 st7 _ _ H6 Hpa). simpl.
  rewrite Hps. done.
Qed.

Lemma report_data_buckets st rep d :
  report_data st rep = Some d →
  movies_at st (movies_watched_by_all rep) = Some (rd_movies_all d) ∧
  movies_at st (movies_watched_by_some rep) = Some (rd_movies_some d) ∧
  series_at st (series_fully_watched_by_all rep) = Some (rd_full_all d) ∧
  series_at st (series_fully_watched_by_some rep) = Some (rd_full_some d) ∧
  series_at st (series_partially_watched_by_all rep) = Some (rd_partial_all d) ∧
  series_at st (series_partially_watched_by_some rep) = Some (rd_partial_some d).
Proof.
  unfold report_data.
  destruct (mapM (user_data st) (users rep)); [simpl|done].
  destruct (movies_at st (movies_watched_by_all rep)); [simpl|done].
  destruct (movies_at st (movies_watched_by_some rep)); [simpl|done].
  destruct (series_at st (series_fully_watched_by_all rep)); [simpl|done].
  destruct (series_at st (series_fully_watched_by_some rep)); [simpl|done].
  destruct (series_at st (series_partially_watched_by_all rep)); [simpl|done].
  destruct (series_at st (series_partially_watched_by_some rep)); [simpl|done].
  intros [= <-]. done.
Qed.

(** C9: if a report serialises to the JSON form [j], then [j]
    deserialises to a report whose object graph equals the original one:
    each of the six buckets names, in the same order, objects equal to the
    original ones, with equal [watched_by_users] lists in particular; and
    it serialises to [j] again. *)
Theorem dump_validate_roundtrip st rep j :
  model_dump st rep = Some j →
  ∃ st' rep',
    model_validate j = Some (st', rep') ∧
    report_data st' rep' = report_data st rep ∧
    movies_at st' (movies_watched_by_all rep') =
      movies_at st (movies_watched_by_all rep) ∧
    movies_at st' (movies_watched_by_some rep') =
      movies_at st (movies_watched_by_some rep) ∧
    series_at st' (series_fully_watched_by_all rep') =
      series_at st (series_fully_watched_by_all rep) ∧
    series_at st' (series_fully_watched_by_some rep') =
      series_at st (series_fully_watched_by_some rep) ∧
    series_at st' (series_partially_watched_by_all rep') =
      series_at st (series_partially_watched_by_all rep) ∧
    series_at st' (series_partially_watched_by_some rep') =
      series_at st (series_partially_watched_by_some rep) ∧
    model_dump st' rep' = Some j.
Proof.
  unfold model_dump, model_validate. intros Hdump.
  destruct (report_data st rep) as [d|] eqn:Hd; [|done].
  injection Hdump as <-. rewrite load_report_dump. simpl.
  pose proof (report_data_intern (mkStore [] []) d) as Hback.
  destruct (intern_report (mkStore [] []) d) as [st' rep']. simpl in Hback.
  exists st', rep'. split; [done|]. split; [done|].
  apply report_data_buckets in Hd as (-> & -> & -> & -> & -> & ->).
  pose proof (report_data_buckets _ _ _ Hback) as (-> & -> & -> & -> & -> & ->).
  split_and!; try done. by rewrite Hback.
Qed.

Lemma dump_validate_roundtrip_witness :
  ∃ st' rep',
    model_validate demo_json = Some (st', rep') ∧
    report_data st' rep' = report_data demo_after.1 demo_after.2 ∧
    movies_at st' (movies_watched_by_all rep') =
      movies_at demo_after.1 (movies_watched_by_all demo_after.2) ∧
    movies_at st' (movies_watched_by_some rep') =
      movies_at demo_after.1 (movies_watched_by_some demo_after.2) ∧
    series_at st' (series_fully_watched_by_all rep') =
      series_at demo_after.1 (series_fully_watched_by_all demo_after.2) ∧
    series_at st' (series_fully_watched_by_some rep') =
      series_at demo_after.1 (series_fully_watched_by_some demo_after.2) ∧
    series_at st' (series_partially_watched_by_all rep') =
      series_at demo_after.1 (series_partially_watched_by_all demo_after.2) ∧
    series_at st' (series_partially_watched_by_some rep') =
      series_at demo_after.1 (series_partially_watched_by_some demo_after.2) ∧
    model_dump st' rep' = Some demo_json.
Proof. apply dump_validate_roundtrip. by vm_compute. Defined.

(** The generated report of the two users: "Dune" is filed once, as bob's
    object, watched by all. *)
Example demo_report :
  generate_report no_urls demo_store demo_users = Some demo_after ∧
  movies_watched_by_all demo_after.2 = [2] ∧
  movies_watched_by_some demo_after.2 = [1] ∧
  m_watched_by_users <$> movie_objs demo_after.1 !! 2 = Some ["alice"; "bob"] ∧
  m_watched_by_users <$> movie_objs demo_after.1 !! 0 = Some [].
Proof. split_and!; by vm_compute. Qed.

(** * Further properties *)

(** ** What [_generate_report] leaves alone *)

Lemma length_of_lookups {A} (f : nat → A → A) (l l' : list A) :
  (∀ i, l' !! i = f i <$> l !! i) → length l' = length l.
Proof.
  intros H. apply Nat.le_antisymm.
  - destruct (decide (length l' ≤ length l)) as [|Hn]; [done|].
    assert (is_Some (l' !! length l)) as [x Hx]
      by (apply lookup_lt_is_Some; lia).
    rewrite H, (lookup_ge_None_2 l (length l)) in Hx by lia. done.
  - destruct (decide (length l ≤ length l')) as [|Hn]; [done|].
    assert (is_Some (l !! length l')) as [x Hx]
      by (apply lookup_lt_is_Some; lia).
    pose proof (H (length l')) as H'. rewrite Hx in H'.
    rewrite (lookup_ge_None_2 l' (length l')) in H' by lia. done.
Qed.

Lemma set_movie_watchers_id m : set_movie_watchers (m_watched_by_users m) m = m.
Proof. by destruct m. Qed.

Lemma set_series_watchers_id s : set_series_watchers (s_watched_by_users s) s = s.
Proof. by destruct s. Qed.

Lemma set_series_watchers_twice ws ws' s :
  set_series_watchers ws (set_series_watchers ws' s) = set_series_watchers ws s.
Proof. reflexivity. Qed.

Section attached_shape.
Context {Obj : Type} (key : Obj → string) (setw : list string → Obj → Obj).
Context (getw : Obj → list string).
Hypothesis setw_id : ∀ o, setw (getw o) o = o.

Lemma attached_is_set D (W : odict) r o :
  ∃ ws, attached key setw D W r o = setw ws o.
Proof.
  unfold attached. destruct (od_get (key o) W) as [ws|]; [|by exists (getw o)].
  case_decide; [by exists ws|by exists (getw o)].
Qed.

Lemma attached_unfiled total D (W : odict) r o :
  r ∉ filed_all total D W ++ filed_some total D W →
  NoDup W.*1 → attached key setw D W r o = o.
Proof.
  intros Hr Hnd. unfold attached.
  destruct (od_get (key o) W) as [ws|] eqn:Hget; [|done].
  case_decide as HD; [|done]. exfalso. apply Hr.
  apply od_get_elem_of in Hget; [|done]. apply elem_of_app.
  destruct (decide (length ws = total)).
  - left. apply elem_of_filed_all. eauto.
  - right. apply elem_of_filed_some. eauto.
Qed.
End attached_shape.

Lemma filed_from_visit (total : nat) (wvs vs : list visit) r :
  r ∈ filed_all total (data_build (krs_of vs)) (od_build (kus_of wvs)) ++
      filed_some total (data_build (krs_of vs)) (od_build (kus_of wvs)) →
  ∃ v, v ∈ vs ∧ v_ref v = r.
Proof.
  intros Hr.
  assert (∃ k, data_build (krs_of vs) !! k = Some r) as [k Hk].
  { apply elem_of_app in Hr as [Hr|Hr];
      [apply elem_of_filed_all in Hr|apply elem_of_filed_some in Hr];
      destruct Hr as (k & ws & _ & _ & ?); eauto. }
  rewrite data_build_lookup in Hk.
  apply last_ref_Some in Hk as (v & ? & _ & ?). eauto.
Qed.

Lemma movie_visits_inv objs uds v :
  v ∈ movie_visits objs uds →
  ∃ ud m, ud ∈ uds ∧ v_ref v ∈ watched_movies ud ∧ objs !! v_ref v = Some m ∧
          v_key v = movie_key m ∧ v_user v = username ud.
Proof.
  unfold movie_visits. intros Hv.
  apply list_elem_of_bind in Hv as (ud & Hv & Hud).
  apply list_elem_of_omap in Hv as (r & Hr & Hv).
  unfold movie_visit in Hv. destruct (objs !! r) as [m|] eqn:Hm; [|done].
  injection Hv as <-. exists ud, m. done.
Qed.

(** X1: for valid input [_generate_report] returns (no [KeyError]); the
    report holds the given records and the configured URLs; no object is
    created or dropped and no field other than [watched_by_users] is
    assigned; an object that is not filed is left as it was; and only
    objects of the given records are filed. *)
Theorem generate_report_frame svc st users_data :
  valid_users st users_data →
  ∃ st' rep, generate_report svc st users_data = Some (st', rep) ∧
             report_frame svc st users_data st' rep.
Proof.
  intros Hv.
  destruct (generate_report_spec svc st users_data Hv)
    as (mobjs & sobjs & Hrun & Hml & Hsl).
  eexists _, _. split; [exact Hrun|].
  unfold report_frame, movie_buckets, series_buckets. simpl.
  split_and!; try reflexivity.
  - apply (length_of_lookups _ _ _ Hml).
  - apply (length_of_lookups
             (λ r o, attached series_key set_series_watchers _ _ r
                       (attached series_key set_series_watchers _ _ r o)) _ _ Hsl).
  - intros r m Hm. rewrite Hml, Hm. simpl.
    destruct (attached_is_set movie_key set_movie_watchers m_watched_by_users
                set_movie_watchers_id
                (data_build (krs_of (movie_visits (movie_objs st) users_data)))
                (od_build (kus_of (movie_visits (movie_objs st) users_data)))
                r m) as [ws ->]. eauto.
  - intros r s Hs. rewrite Hsl, Hs. simpl.
    destruct (attached_is_set series_key set_series_watchers s_watched_by_users
                set_series_watchers_id
                (data_build (krs_of (series_visits (series_objs st) users_data)))
                (od_build (kus_of (full_visits
                   (series_visits (series_objs st) users_data))))
                r s) as [ws ->].
    destruct (attached_is_set series_key set_series_watchers s_watched_by_users
                set_series_watchers_id
                (data_build (krs_of (series_visits (series_objs st) users_data)))
                (od_build (kus_of (partial_visits
                   (series_visits (series_objs st) users_data))))
                r (set_series_watchers ws s)) as [ws' ->]. eauto.
  - intros r Hr. rewrite Hml. destruct (movie_objs st !! r) as [m|]; [|done].
    simpl. f_equal. by eapply attached_unfiled; [|apply od_build_NoDup].
  - intros r Hr. rewrite Hsl. destruct (series_objs st !! r) as [s|]; [|done].
    simpl. f_equal. rewrite !elem_of_app in Hr.
    set (Ds := data_build (krs_of (series_visits (series_objs st) users_data))).
    set (Wf := od_build (kus_of (full_visits
                 (series_visits (series_objs st) users_data)))).
    set (Wp := od_build (kus_of (partial_visits
                 (series_visits (series_objs st) users_data)))).
    rewrite (attached_unfiled series_key set_series_watchers
               (length users_data) Ds Wf r s);
      [|rewrite elem_of_app; tauto|apply od_build_NoDup].
    apply (attached_unfiled series_key set_series_watchers
             (length users_data) Ds Wp r s); [|apply od_build_NoDup].
    rewrite elem_of_app. tauto.
  - intros r Hr. apply filed_from_visit in Hr as (v & Hin & <-).
    apply movie_visits_inv in Hin as (ud & m & ? & ? & _). eauto.
  - intros r Hr.
    assert (∃ v, v ∈ series_visits (series_objs st) users_data ∧ v_ref v = r)
      as (v & Hin & <-).
    { rewrite app_assoc in Hr. apply elem_of_app in Hr as [Hr|Hr];
        by eapply filed_from_visit. }
    apply series_visits_inv in Hin as (ud & s & ? & ? & _). eauto.
Qed.

Lemma generate_report_frame_witness :
  ∃ st' rep, generate_report no_urls demo_store demo_users = Some (st', rep) ∧
             report_frame no_urls demo_store demo_users st' rep.
Proof.
  apply generate_report_frame.
  unfold valid_users. repeat (constructor; simpl); lia.
Defined.

(** ** The watcher lists, exactly *)

Lemma ws_of_app k vs1 vs2 :
  ws_of k (kus_of (vs1 ++ vs2)) = ws_of k (kus_of vs1) ++ ws_of k (kus_of vs2).
Proof. unfold ws_of, kus_of. by rewrite fmap_app, filter_app, fmap_app. Qed.

Lemma ws_of_cons k v vs :
  ws_of k (kus_of (v :: vs)) =
  (if decide (v_key v = k) then [v_user v] else []) ++ ws_of k (kus_of vs).
Proof.
  unfold ws_of, kus_of. rewrite fmap_cons, filter_cons. simpl.
  by case_decide.
Qed.

Lemma ws_of_movie_user st u k refs :
  ws_of k (kus_of (omap (movie_visit (movie_objs st) u) refs)) =
  (λ _, username u) <$> carrying (movie_key_at st) k refs.
Proof.
  unfold carrying. induction refs as [|r refs IH]; [done|].
  rewrite (filter_cons _ r).
  destruct (movie_objs st !! r) as [m|] eqn:Hm.
  - rewrite (omap_cons_Some _ _ _ (mkVisit (movie_key m) (username u) r true))
      by (unfold movie_visit; by rewrite Hm).
    assert (movie_key_at st r = Some (movie_key m)) as Hk
      by (unfold movie_key_at; by rewrite Hm).
    rewrite ws_of_cons, IH. simpl.
    destruct (decide (movie_key m = k)) as [Heq|Hne].
    + rewrite (decide_True (P:=movie_key_at st r = Some k)) by congruence. done.
    + rewrite (decide_False (P:=movie_key_at st r = Some k)) by congruence. done.
  - rewrite omap_cons_None by (unfold movie_visit; by rewrite Hm).
    assert (movie_key_at st r = None) as Hk
      by (unfold movie_key_at; by rewrite Hm).
    rewrite decide_False by congruence. done.
Qed.

Lemma ws_of_movie_visits st users_data k :
  ws_of k (kus_of (movie_visits (movie_objs st) users_data)) =
  watchers_of (movie_key_at st) watched_movies users_data k.
Proof.
  unfold movie_visits, watchers_of.
  induction users_data as [|u us IH]; [done|].
  by rewrite !bind_cons, ws_of_app, IH, ws_of_movie_user.
Qed.

Lemma ws_of_series_user st u k (full : bool) refs :
  ws_of k (kus_of (filter (λ v, v_full v = full)
                     (omap (series_visit (series_objs st) u) refs))) =
  (λ _, username u) <$>
    carrying (series_key_at st) k
      (filter (λ r, s_is_fully_watched <$> series_objs st !! r = Some full) refs).
Proof.
  unfold carrying. induction refs as [|r refs IH]; [done|].
  rewrite (filter_cons _ r).
  destruct (series_objs st !! r) as [s|] eqn:Hs.
  - rewrite (omap_cons_Some _ _ _
               (mkVisit (series_key s) (username u) r (s_is_fully_watched s)))
      by (unfold series_visit; by rewrite Hs).
    assert (series_key_at st r = Some (series_key s)) as Hk
      by (unfold series_key_at; by rewrite Hs).
    rewrite filter_cons. simpl.
    destruct (decide (s_is_fully_watched s = full)) as [Hf|Hf].
    + rewrite (decide_True (P:=Some (s_is_fully_watched s) = Some full))
        by congruence.
      rewrite ws_of_cons, IH, filter_cons. simpl.
      destruct (decide (series_key s = k)) as [Heq|Hne].
      * rewrite (decide_True (P:=series_key_at st r = Some k)) by congruence. done.
      * rewrite (decide_False (P:=series_key_at st r = Some k)) by congruence. done.
    + rewrite (decide_False (P:=Some (s_is_fully_watched s) = Some full))
        by congruence. done.
  - rewrite omap_cons_None by (unfold series_visit; by rewrite Hs).
    rewrite decide_False by done. done.
Qed.

Lemma ws_of_series_visits st users_data k (full : bool) :
  ws_of k (kus_of (filter (λ v, v_full v = full)
                     (series_visits (series_objs st) users_data))) =
  watchers_of (series_key_at st) (flagged st full) users_data k.
Proof.
  unfold series_visits, watchers_of, flagged.
  induction users_data as [|u us IH]; [done|].
  by rewrite !bind_cons, filter_app, ws_of_app, IH, ws_of_series_user.
Qed.

(** X2: for valid input, every filed movie ends with exactly this watcher
    list: the usernames of the users whose lists hold an item with its
    title/year key, in the order of the users list, one occurrence per
    such item. *)
Theorem movie_watchers_in_order svc st users_data :
  valid_users st users_data →
  ∃ st' rep, generate_report svc st users_data = Some (st', rep) ∧
             movie_watchers_exact st users_data st' rep.
Proof.
  intros Hv.
  destruct (generate_report_spec svc st users_data Hv)
    as (mobjs & sobjs & Hrun & Hml & _).
  eexists _, _. split; [exact Hrun|].
  pose proof (movie_final st users_data mobjs Hml) as HM.
  intros r Hr. unfold movie_buckets in Hr. simpl in *.
  assert (∃ k ws, (k, ws) ∈ od_build (kus_of (movie_visits (movie_objs st) users_data))
            ∧ data_build (krs_of (movie_visits (movie_objs st) users_data)) !! k
              = Some r) as (k & ws & Hin & HD).
  { apply elem_of_app in Hr as [Hr|Hr];
      [apply elem_of_filed_all in Hr|apply elem_of_filed_some in Hr];
      destruct Hr as (k & ws & ? & _ & ?); eauto. }
  destruct (HM k ws r Hin HD) as (m & Hm & Hk & Hfin).
  exists m. split; [done|]. rewrite Hfin. do 2 f_equal.
  apply od_build_elem_of in Hin as [-> _].
  by rewrite Hk, ws_of_movie_visits.
Qed.

Lemma movie_watchers_in_order_witness :
  ∃ st' rep, generate_report no_urls twice_store twice_users = Some (st', rep) ∧
             movie_watchers_exact twice_store twice_users st' rep.
Proof.
  apply movie_watchers_in_order.
  unfold valid_users. repeat (constructor; simpl); lia.
Defined.

(** X3: for valid input, every filed series, in a "fully" bucket or in a
    "partially" bucket, ends with this watcher list: the users who hold its
    key with [is_fully_watched] false, if there are any, and else the
    users who hold it with the flag true; in the order of the users list. *)
Theorem series_watchers_in_order svc st users_data :
  valid_users st users_data →
  ∃ st' rep, generate_report svc st users_data = Some (st', rep) ∧
             series_watchers_exact st users_data st' rep.
Proof.
  intros Hv.
  destruct (generate_report_spec svc st users_data Hv)
    as (mobjs & sobjs & Hrun & _ & Hsl).
  eexists _, _. split; [exact Hrun|].
  pose proof (series_final_full st users_data sobjs Hsl) as HF.
  pose proof (series_final_partial st users_data sobjs Hsl) as HP.
  intros r Hr. unfold series_buckets in Hr. simpl in *.
  set (sv := series_visits (series_objs st) users_data) in *.
  assert (∀ k, od_get k (od_build (kus_of (partial_visits sv))) =
               match watchers_of (series_key_at st) (flagged st false)
                       users_data k with
               | [] => None
               | p => Some p
               end) as Hpart.
  { intros k. rewrite od_get_build. unfold partial_visits, sv.
    rewrite ws_of_series_visits. by destruct (watchers_of _ _ _ _). }
  rewrite !elem_of_app in Hr. destruct Hr as [Hr|[Hr|[Hr|Hr]]].
  - apply elem_of_filed_all in Hr as (k & ws & Hin & _ & HD).
    destruct (HF k ws r Hin HD) as (s & Hs & Hk & Hfin).
    exists s. split; [done|]. rewrite Hfin, Hpart, Hk. do 2 f_equal.
    apply od_build_elem_of in Hin as [-> _]. unfold full_visits, sv.
    rewrite ws_of_series_visits. by destruct (watchers_of _ (flagged st false) _ _).
  - apply elem_of_filed_some in Hr as (k & ws & Hin & _ & HD).
    destruct (HF k ws r Hin HD) as (s & Hs & Hk & Hfin).
    exists s. split; [done|]. rewrite Hfin, Hpart, Hk. do 2 f_equal.
    apply od_build_elem_of in Hin as [-> _]. unfold full_visits, sv.
    rewrite ws_of_series_visits. by destruct (watchers_of _ (flagged st false) _ _).
  - apply elem_of_filed_all in Hr as (k & ws & Hin & _ & HD).
    destruct (HP k ws r Hin HD) as (s & Hs & Hk & Hfin).
    exists s. split; [done|]. rewrite Hfin, Hk. do 2 f_equal.
    apply od_build_elem_of in Hin as [-> Hne]. unfold partial_visits, sv in *.
    rewrite ws_of_series_visits in *.
    by destruct (watchers_of _ (flagged st false) _ _).
  - apply elem_of_filed_some in Hr as (k & ws & Hin & _ & HD).
    destruct (HP k ws r Hin HD) as (s & Hs & Hk & Hfin).
    exists s. split; [done|]. rewrite Hfin, Hk. do 2 f_equal.
    apply od_build_elem_of in Hin as [-> Hne]. unfold partial_visits, sv in *.
    rewrite ws_of_series_visits in *.
    by destruct (watchers_of _ (flagged st false) _ _).
Qed.

Lemma series_watchers_in_order_witness :
  ∃ st' rep, generate_report no_urls split_store split_users = Some (st', rep) ∧
             series_watchers_exact split_store split_users st' rep.
Proof.
  apply series_watchers_in_order.
  unfold valid_users. repeat (constructor; simpl); lia.
Defined.

(** ** What "by all" and "by some" mean *)

Lemma count_key_pos k vs : 0 < count_key k vs ↔ k ∈ v_key <$> vs.
Proof.
  unfold count_key. induction vs as [|v vs IH].
  - simpl. split; [lia|by intros ?%elem_of_nil].
  - rewrite filter_cons, fmap_cons, elem_of_cons.
    case_decide; simpl; [split; [eauto|lia]|].
    rewrite IH. split; [by right|]. intros [?|?]; [congruence|done].
Qed.

Lemma count_key_bind_all {A} k (f : A → list visit) (l : list A) :
  Forall (λ x, count_key k (f x) ≤ 1) l →
  count_key k (l ≫= f) = length l ↔ Forall (λ x, count_key k (f x) = 1) l.
Proof.
  induction 1 as [|x l Hx Hl IH]; [done|].
  pose proof (count_key_bind k f l Hl) as Hle.
  rewrite bind_cons, count_key_app, Forall_cons. simpl.
  rewrite <-IH. lia.
Qed.

Lemma movie_count_all st users_data k :
  distinct_user_keys st users_data →
  count_key k (movie_visits (movie_objs st) users_data) = length users_data ↔
  ∀ u, u ∈ users_data → k ∈ user_movie_keys st u.
Proof.
  intros Hd. unfold movie_visits. rewrite count_key_bind_all.
  - unfold distinct_user_keys in Hd. rewrite Forall_forall in Hd.
    rewrite Forall_forall.
    split; intros H u Hu; specialize (H u Hu); destruct (Hd u Hu) as [Hnd _];
      rewrite <-movie_visit_keys in Hnd; apply (count_key_NoDup k) in Hnd;
      rewrite <-movie_visit_keys, <-count_key_pos in *; lia.
  - eapply Forall_impl; [exact Hd|]. intros u [Hm _]. simpl.
    apply count_key_NoDup. by rewrite movie_visit_keys.
Qed.

(** X4: for valid input in which no record repeats a title/year key, a
    filed movie is in "watched by all" exactly when every user holds an
    item with its key, and in "watched by some" exactly when some user
    holds none. *)
Theorem movie_buckets_by_coverage svc st users_data :
  valid_users st users_data → distinct_user_keys st users_data →
  ∃ st' rep, generate_report svc st users_data = Some (st', rep) ∧
             movie_buckets_meaning st users_data rep.
Proof.
  intros Hv Hd.
  destruct (generate_report_spec svc st users_data Hv)
    as (mobjs & sobjs & Hrun & Hml & _).
  eexists _, _. split; [exact Hrun|].
  pose proof (movie_final st users_data mobjs Hml) as HM.
  intros r m Hr Hm. unfold movie_buckets in Hr. simpl in *.
  set (mv := movie_visits (movie_objs st) users_data) in *.
  assert (∀ k ws, (k, ws) ∈ od_build (kus_of mv) →
            data_build (krs_of mv) !! k = Some r →
            k = movie_key m ∧ length ws = count_key (movie_key m) mv) as Hent.
  { intros k ws Hin HD. destruct (HM k ws r Hin HD) as (m' & Hm' & Hk & _).
    assert (m' = m) as -> by congruence. split; [done|].
    apply od_get_elem_of in Hin; [|apply od_build_NoDup].
    rewrite Hk. by apply od_get_build_Some. }
  assert (∃ k ws, (k, ws) ∈ od_build (kus_of mv) ∧
                  data_build (krs_of mv) !! k = Some r) as (k & ws & Hin & HD).
  { apply elem_of_app in Hr as [Hr|Hr];
      [apply elem_of_filed_all in Hr|apply elem_of_filed_some in Hr];
      destruct Hr as (k & ws & ? & _ & ?); eauto. }
  destruct (Hent k ws Hin HD) as [-> Hlen].
  assert (r ∈ filed_all (length users_data) (data_build (krs_of mv))
                (od_build (kus_of mv)) ↔
          count_key (movie_key m) mv = length users_data) as Hall.
  { rewrite elem_of_filed_all. split.
    - intros (k' & ws' & Hin' & Hlen' & HD').
      destruct (Hent k' ws' Hin' HD') as [_ <-]. done.
    - intros Hc. exists (movie_key m), ws. split_and!; [done|lia|done]. }
  assert (r ∈ filed_some (length users_data) (data_build (krs_of mv))
                (od_build (kus_of mv)) ↔
          count_key (movie_key m) mv ≠ length users_data) as Hsome.
  { rewrite elem_of_filed_some. split.
    - intros (k' & ws' & Hin' & Hlen' & HD').
      destruct (Hent k' ws' Hin' HD') as [_ <-]. done.
    - intros Hc. exists (movie_key m), ws. split_and!; [done|lia|done]. }
  split.
  - rewrite Hall. by apply movie_count_all.
  - pose proof (movie_count_all st users_data (movie_key m) Hd) as Hc.
    fold mv in Hc. rewrite Hsome, Hc.
    split.
    + intros Hnot.
      assert (¬ Forall (λ u, movie_key m ∈ user_movie_keys st u) users_data)
        as Hnf by (rewrite Forall_forall; exact Hnot).
      apply not_Forall_Exists in Hnf; [|apply _].
      apply Exists_exists in Hnf as (u & Hu & Hk). eauto.
    + intros (u & Hu & Hk) Hall'. by apply Hk, Hall'.
Qed.

Lemma movie_buckets_by_coverage_witness :
  ∃ st' rep, generate_report no_urls demo_store demo_users = Some (st', rep) ∧
             movie_buckets_meaning demo_store demo_users rep.
Proof.
  apply movie_buckets_by_coverage.
  - unfold valid_users. repeat (constructor; simpl); lia.
  - unfold distinct_user_keys.
    repeat (constructor; [split; apply (bool_decide_unpack _); by vm_compute|]).
    constructor.
Defined.

(** ** Episodes, counts and the series that are dropped *)

Lemma filter_length_all {A} (P : A → Prop) `{∀ x, Decision (P x)} (l : list A) :
  length (filter P l) = length l ↔ Forall P l.
Proof.
  induction l as [|x l IH]; [by split; [constructor|]|].
  rewrite filter_cons, Forall_cons. pose proof (length_filter P l).
  case_decide; simpl.
  - rewrite <-IH. split; [intros [= ?]; done|intros [_ ->]; done].
  - split; [lia|tauto].
Qed.

Lemma filter_length_none {A} (P : A → Prop) `{∀ x, Decision (P x)} (l : list A) :
  length (filter P l) = 0 ↔ Forall (λ x, ¬ P x) l.
Proof.
  induction l as [|x l IH]; [by split; [constructor|]|].
  rewrite filter_cons, Forall_cons.
  case_decide; simpl; [split; [lia|tauto]|]. rewrite IH. tauto.
Qed.

(** X5: [is_series_fully_watched] reports a series as fully watched
    exactly when the episode list it fetched is not empty and every
    episode in it is played; and its counts satisfy
    0 <= watched <= total. *)
Theorem fully_watched_all_played srv c series_id uid :
  ∃ b watched total,
    is_series_fully_watched srv c series_id uid = (b, watched, total) ∧
    (0 ≤ watched ≤ total)%Z ∧
    (b = true ↔
       get_series_episodes srv c series_id uid ≠ [] ∧
       Forall (λ ep, played ep = true) (get_series_episodes srv c series_id uid)).
Proof.
  unfold is_series_fully_watched.
  destruct (get_series_episodes srv c series_id uid) as [|ep eps] eqn:E.
  - exists false, 0%Z, 0%Z. split_and!; [done|lia|lia|]. split; [done|tauto].
  - eexists _, _, _. split; [reflexivity|].
    pose proof (length_filter (λ ep, played ep = true) (ep :: eps)) as Hle.
    split; [lia|].
    rewrite andb_true_iff, Z.eqb_eq, Z.ltb_lt, Nat2Z.inj_iff, filter_length_all.
    split; [intros [? _]; done|].
    intros [_ ?]. split; [done|]. rewrite length_cons. lia.
Qed.

(** X6: a series survives [_parse_series] with at least one watched
    episode: the [SeriesInfo] built has
    1 <= watched_episodes <= total_episodes, is flagged fully watched
    exactly when the two counts are equal, starts with an empty watcher
    list, and takes title (or "Unknown"), year, path and id from the item;
    a series is dropped exactly when its watched count is 0. *)
Theorem parse_series_result srv c item uid sonarr_lookup :
  match parse_series srv c item uid sonarr_lookup with
  | Some s =>
      (1 ≤ s_watched_episodes s ≤ s_total_episodes s)%Z ∧
      (s_is_fully_watched s = true ↔ s_watched_episodes s = s_total_episodes s) ∧
      s_watched_episodes s = watched_count srv c item uid ∧
      s_watched_by_users s = [] ∧
      s_title s = default "Unknown" (it_Name item) ∧
      s_year s = it_ProductionYear item ∧
      s_path s = it_Path item ∧ s_jellyfin_id s = it_Id item
  | None => watched_count srv c item uid = 0%Z
  end.
Proof.
  unfold parse_series, watched_count, is_series_fully_watched.
  destruct (get_series_episodes srv c (it_Id item) uid) as [|ep eps] eqn:E.
  - reflexivity.
  - pose proof (length_filter (λ ep, played ep = true) (ep :: eps)) as Hle.
    set (w := Z.of_nat (length (filter (λ ep, played ep = true) (ep :: eps)))) in *.
    set (t := Z.of_nat (length (ep :: eps))) in *.
    assert (0 ≤ w ≤ t)%Z as Hrange by (unfold w, t; lia).
    cbn [fst snd]. destruct (w =? 0)%Z eqn:Hz.
    + by apply Z.eqb_eq in Hz.
    + apply Z.eqb_neq in Hz. cbn.
      rewrite andb_true_iff, Z.eqb_eq, Z.ltb_lt.
      split_and!; try done; [lia|lia|].
      split; [tauto|]. intros ?. split; [done|lia].
Qed.

Lemma watched_count_spec srv c item uid :
  watched_count srv c item uid =
  Z.of_nat (length (filter (λ ep, played ep = true)
                      (get_series_episodes srv c (it_Id item) uid))).
Proof.
  unfold watched_count, is_series_fully_watched.
  by destruct (get_series_episodes srv c (it_Id item) uid).
Qed.

Lemma fetched_failed {A} (resp : http_response (list A)) :
  http_failed resp → fetched resp = [].
Proof. destruct resp as [status items|]; simpl; [by intros ->|done]. Qed.

(** X7: [_parse_series] drops a series exactly when no episode of the
    fetched episode list is played.  In particular a series is dropped,
    silently, whenever the episodes request fails (transport error or a
    status outside 2xx) or returns no episode. *)
Theorem series_dropped_iff srv c item uid sonarr_lookup :
  (parse_series srv c item uid sonarr_lookup = None ↔
   Forall (λ ep, played ep ≠ true)
          (get_series_episodes srv c (it_Id item) uid)) ∧
  (http_failed (get_Episodes srv (it_Id item) uid (access_token c)) →
   parse_series srv c item uid sonarr_lookup = None).
Proof.
  assert (parse_series srv c item uid sonarr_lookup = None ↔
          Forall (λ ep, played ep ≠ true)
                 (get_series_episodes srv c (it_Id item) uid)) as Hiff.
  { rewrite parse_series_None, watched_count_spec.
    rewrite <-(filter_length_none (λ ep, played ep = true)). lia. }
  split; [exact Hiff|].
  intros Hfail. apply Hiff. unfold get_series_episodes.
  rewrite fetched_failed by done. constructor.
Qed.

Lemma series_dropped_iff_witness :
  parse_series unauthorized_server admin_client dark_item "u1" ∅ = None.
Proof.
  apply (series_dropped_iff unauthorized_server admin_client dark_item "u1" ∅).
  reflexivity.
Defined.

(** ** Joining watched items with the catalogs *)

Lemma build_lookup_match {A} (ident : A → option pyval) (items : list A) k :
  build_lookup ident items !! k = catalog_match ident k items.
Proof.
  unfold catalog_match.
  induction items as [|x items IH] using rev_ind; [done|].
  rewrite build_lookup_snoc, filter_app, filter_cons, filter_nil, last_app.
  destruct (truthy (py_get (ident x))) eqn:Ht.
  - destruct (decide (py_str (py_get (ident x)) = k)) as [<-|Hne].
    + rewrite lookup_insert_eq. by rewrite decide_True.
    + rewrite lookup_insert_ne by done. rewrite decide_False by tauto. done.
  - rewrite decide_False by (intros [??]; congruence). done.
Qed.

Lemma lookup_provider_match {A} (ident : A → option pyval) items ext :
  lookup_provider (build_lookup ident items) ext =
  match ext with
  | Some t => if decide (t = "") then None else catalog_match ident t items
  | None => None
  end.
Proof.
  destruct ext as [t|]; [|done]. unfold lookup_provider. simpl.
  destruct (decide (t = "")) as [->|Hne]; [done|].
  apply String.eqb_neq in Hne. rewrite Hne. simpl. apply build_lookup_match.
Qed.

Lemma catalog_match_is_Some {A} (ident : A → option pyval) t items :
  is_Some (catalog_match ident t items) ↔
  ∃ x, x ∈ items ∧ truthy (py_get (ident x)) = true ∧
       py_str (py_get (ident x)) = t.
Proof.
  unfold catalog_match. split.
  - intros [x Hx]. apply last_Some_elem_of, list_elem_of_filter in Hx.
    exists x. tauto.
  - intros (x & Hx & Ht & Hs). apply (last_is_Some_elem_of x).
    apply list_elem_of_filter. done.
Qed.

(** X8: [_parse_movie] against the lookup built from a catalog marks a
    movie as present ([in_radarr]) exactly when its [Tmdb] provider id is
    a non-empty string equal to the string form of the truthy [tmdbId] of
    some catalog item, so a numeric catalog id matches its decimal
    rendering; [radarr_id] is then the [id] of the last such item, and it
    is null whenever the movie is not present.  The other fields come
    from the item, the watcher list starts empty. *)
Theorem parse_movie_catalog movie (items : list RadarrMovie) :
  let m := parse_movie movie (build_lookup rm_tmdbId items) in
  let tmdb := default ∅ (it_ProviderIds movie) !! "Tmdb" in
  (m_in_radarr m = true ↔
     ∃ t item, tmdb = Some t ∧ t ≠ "" ∧ item ∈ items ∧
       truthy (py_get (rm_tmdbId item)) = true ∧
       py_str (py_get (rm_tmdbId item)) = t) ∧
  (m_in_radarr m = false → m_radarr_id m = None) ∧
  (∀ t, tmdb = Some t → t ≠ "" →
     m_radarr_id m = catalog_match rm_tmdbId t items ≫= rm_id) ∧
  m_tmdb_id m = tmdb ∧
  m_title m = default "Unknown" (it_Name movie) ∧
  m_year m = it_ProductionYear movie ∧
  m_watched_by_users m = [].
Proof.
  intros m tmdb. unfold m, parse_movie. fold tmdb. simpl.
  rewrite lookup_provider_match.
  split_and!; try done.
  - rewrite bool_decide_eq_true. destruct tmdb as [t|].
    + destruct (decide (t = "")) as [->|Hne].
      * split; [by intros [??]|]. intros (t' & ? & [= <-] & ? & _). done.
      * rewrite catalog_match_is_Some. split.
        -- intros (x & ? & ? & ?). exists t, x. done.
        -- intros (t' & x & [= <-] & _ & ? & ? & ?). eauto.
    + split; [by intros [??]|]. by intros (? & ? & ? & _).
  - rewrite bool_decide_eq_false. intros Hnone.
    destruct tmdb as [t|]; [|done]. destruct (decide (t = "")); [done|].
    destruct (catalog_match rm_tmdbId t items); [|done].
    destruct Hnone. eauto.
  - intros t -> Hne. by rewrite decide_False.
Qed.

(** With the catalog above, the film is joined with the second entry for
    603, the last one, whether the catalog id is a number or a string. *)
Example matrix_joined :
  let m := parse_movie matrix_item (build_lookup rm_tmdbId matrix_catalog) in
  m_in_radarr m = true ∧ m_radarr_id m = Some 12%Z.
Proof. by vm_compute. Qed.

Lemma parse_movie_catalog_witness :
  m_radarr_id (parse_movie matrix_item (build_lookup rm_tmdbId matrix_catalog)) =
  catalog_match rm_tmdbId "603" matrix_catalog ≫= rm_id.
Proof.
  apply (parse_movie_catalog matrix_item matrix_catalog); [reflexivity|done].
Defined.

(** X9: a series that survives [_parse_series] against the lookup built
    from a catalog is marked present ([in_sonarr]) exactly when its [Tvdb]
    provider id is a non-empty string equal to the string form of the
    truthy [tvdbId] of some catalog item; [sonarr_id] and
    [sonarr_title_slug] are then those of the last such item, and both are
    null when the series is not present. *)
Theorem parse_series_catalog srv c item uid (items : list SonarrSeries) :
  let tvdb := default ∅ (it_ProviderIds item) !! "Tvdb" in
  match parse_series srv c item uid (build_lookup ss_tvdbId items) with
  | Some s =>
      (s_in_sonarr s = true ↔
         ∃ t entry, tvdb = Some t ∧ t ≠ "" ∧ entry ∈ items ∧
           truthy (py_get (ss_tvdbId entry)) = true ∧
           py_str (py_get (ss_tvdbId entry)) = t) ∧
      (s_in_sonarr s = false →
         s_sonarr_id s = None ∧ s_sonarr_title_slug s = None) ∧
      (∀ t, tvdb = Some t → t ≠ "" →
         s_sonarr_id s = catalog_match ss_tvdbId t items ≫= ss_id ∧
         s_sonarr_title_slug s = catalog_match ss_tvdbId t items ≫= ss_titleSlug) ∧
      s_tvdb_id s = tvdb
  | None => True
  end.
Proof.
  intros tvdb. unfold parse_series. fold tvdb.
  destruct (is_series_fully_watched srv c (it_Id item) uid) as [[b wc] tc].
  destruct (wc =? 0)%Z; [done|]. simpl.
  rewrite lookup_provider_match.
  split_and!; try done.
  - rewrite bool_decide_eq_true. destruct tvdb as [t|].
    + destruct (decide (t = "")) as [->|Hne].
      * split; [by intros [??]|]. intros (t' & ? & [= <-] & ? & _). done.
      * rewrite catalog_match_is_Some. split.
        -- intros (x & ? & ? & ?). exists t, x. done.
        -- intros (t' & x & [= <-] & _ & ? & ? & ?). eauto.
    + split; [by intros [??]|]. by intros (? & ? & ? & _).
  - rewrite bool_decide_eq_false. intros Hnone.
    destruct tvdb as [t|]; [|done]. destruct (decide (t = "")); [done|].
    destruct (catalog_match ss_tvdbId t items); [|done].
    destruct Hnone. eauto.
  - intros t -> Hne. by rewrite decide_False.
Qed.

(** In the household above alice's "Dark" survives and is joined with the
    catalog entry; bob's is dropped. *)
Example dark_joined :
  (λ s, (s_in_sonarr s, s_sonarr_id s, s_sonarr_title_slug s)) <$>
    parse_series family_server logged_in dark_tvdb_item "u1"
      (build_lookup ss_tvdbId dark_catalog) =
    Some (true, Some 7%Z, Some "dark") ∧
  parse_series family_server logged_in dark_tvdb_item "u2"
    (build_lookup ss_tvdbId dark_catalog) = None.
Proof. split; by vm_compute. Qed.

(** ** Looking an item up by scanning the catalog *)

Lemma first_by_ident_Some {A} (ident : A → option pyval) wanted items x :
  first_by_ident ident wanted items = Some x ↔
  ∃ l1 l2, items = l1 ++ x :: l2 ∧
    py_str (py_get (ident x)) = py_str wanted ∧
    Forall (λ y, py_str (py_get (ident y)) ≠ py_str wanted) l1.
Proof.
  induction items as [|y items IH]; simpl.
  - split; [done|]. intros ([|??] & ? & ? & _); done.
  - destruct (String.eqb _ _) eqn:E.
    + apply String.eqb_eq in E. split.
      * intros [= <-]. exists [], items. by repeat split.
      * intros (l1 & l2 & Heq & Hx & Hl1).
        destruct l1 as [|z l1]; simpl in Heq; injection Heq as -> ->; [done|].
        apply Forall_cons in Hl1 as [Hz _]. done.
    + apply String.eqb_neq in E. rewrite IH. split.
      * intros (l1 & l2 & -> & Hx & Hl1). exists (y :: l1), l2.
        split_and!; [done|done|by constructor].
      * intros (l1 & l2 & Heq & Hx & Hl1).
        destruct l1 as [|z l1]; simpl in Heq; injection Heq as -> ->; [done|].
        apply Forall_cons in Hl1 as [_ Hl1]. eauto.
Qed.

Lemma first_by_ident_None {A} (ident : A → option pyval) wanted items :
  first_by_ident ident wanted items = None ↔
  Forall (λ y, py_str (py_get (ident y)) ≠ py_str wanted) items.
Proof.
  induction items as [|y items IH]; simpl; [by split; [constructor|]|].
  rewrite Forall_cons. destruct (String.eqb _ _) eqn:E.
  - apply String.eqb_eq in E. split; [done|tauto].
  - apply String.eqb_neq in E. rewrite IH. tauto.
Qed.

(** X10: [get_movie_by_tmdb_id] and [get_series_by_tvdb_id] return the
    first catalog item whose identifier has the same string form as the
    wanted one, and the empty answer exactly when the call fails or no
    item has it.  Whenever the lookup map of [collect_data] has an entry
    under that string, the scan finds an item too (the first such item,
    where the map keeps the last). *)
Theorem get_by_ident_spec {A} (ident : A → option pyval)
    (call : catalog_call A) (wanted : pyval) :
  (∀ x, get_by_ident ident call wanted = Some x ↔
     ∃ l1 l2, call = Listed (l1 ++ x :: l2) ∧
       py_str (py_get (ident x)) = py_str wanted ∧
       Forall (λ y, py_str (py_get (ident y)) ≠ py_str wanted) l1) ∧
  (get_by_ident ident call wanted = None ↔
     Forall (λ y, py_str (py_get (ident y)) ≠ py_str wanted) (get_all call)) ∧
  (is_Some (build_lookup ident (get_all call) !! py_str wanted) →
   is_Some (get_by_ident ident call wanted)).
Proof.
  destruct call as [items|]; simpl.
  - split_and!.
    + intros x. rewrite first_by_ident_Some. split.
      * intros (l1 & l2 & -> & ? & ?). eauto.
      * intros (l1 & l2 & [= ->] & ? & ?). eauto.
    + apply first_by_ident_None.
    + rewrite build_lookup_match, catalog_match_is_Some.
      intros (x & Hx & _ & Hs).
      destruct (first_by_ident ident wanted items) eqn:E; [eauto|].
      apply first_by_ident_None in E. rewrite Forall_forall in E.
      by destruct (E x Hx).
  - split_and!.
    + intros x. split; [done|]. by intros (? & ? & ? & _).
    + split; [constructor|done].
    + by intros [??].
Qed.

Lemma get_by_ident_spec_witness :
  is_Some (get_movie_by_tmdb_id (Listed matrix_catalog) (PyStr "603")).
Proof.
  apply (get_by_ident_spec rm_tmdbId (Listed matrix_catalog) (PyStr "603")).
  eexists. by vm_compute.
Defined.

(** The scan and the map disagree on which of two items with the same
    identifier they return, and only the scan finds an item without one. *)
Example scan_versus_map :
  (get_movie_by_tmdb_id (Listed matrix_catalog) (PyInt 603) ≫= rm_id) = Some 11%Z ∧
  (build_lookup rm_tmdbId matrix_catalog !! "603" ≫= rm_id) = Some 12%Z ∧
  (get_movie_by_tmdb_id (Listed three_films) PyNone ≫= rm_id) = Some 3%Z ∧
  build_lookup rm_tmdbId three_films !! "None" = None.
Proof. split_and!; by vm_compute. Qed.

(** ** Trailing slashes of a base URL *)

Lemma rstrip_slash_cons c s :
  rstrip_slash (String c s) =
  match rstrip_slash s with
  | EmptyString => if Ascii.eqb c "/" then EmptyString else String c EmptyString
  | String d t => String c (String d t)
  end.
Proof. reflexivity. Qed.

Lemma app_cons_string c s t : String c s +:+ t = String c (s +:+ t).
Proof. reflexivity. Qed.

Lemma rstrip_slashes n : rstrip_slash (slashes n) = "".
Proof.
  induction n as [|n IH]; [done|].
  change (slashes (S n)) with (String "/" (slashes n)).
  by rewrite rstrip_slash_cons, IH.
Qed.

Lemma rstrip_app_slashes t n : rstrip_slash (t +:+ slashes n) = rstrip_slash t.
Proof.
  induction t as [|c t IH]; [apply rstrip_slashes|].
  by rewrite app_cons_string, !rstrip_slash_cons, IH.
Qed.

Lemma rstrip_fixed t : ends_with_slash t = false → rstrip_slash t = t.
Proof.
  induction t as [|c t IH]; [done|]. intros H.
  rewrite rstrip_slash_cons. destruct t as [|d t].
  - simpl in *. by rewrite H.
  - rewrite IH by exact H. done.
Qed.

Lemma rstrip_decompose s : ∃ n, s = rstrip_slash s +:+ slashes n.
Proof.
  induction s as [|c s [n IH]]; [by exists 0|].
  rewrite rstrip_slash_cons. destruct (rstrip_slash s) as [|d t].
  - destruct (Ascii.eqb c "/") eqn:E.
    + apply Ascii.eqb_eq in E as ->. exists (S n). by rewrite IH at 1.
    + exists n. by rewrite IH at 1.
  - exists n. by rewrite IH at 1.
Qed.

Lemma rstrip_no_trailing s : ends_with_slash (rstrip_slash s) = false.
Proof.
  induction s as [|c s IH]; [done|].
  rewrite rstrip_slash_cons. destruct (rstrip_slash s) as [|d t].
  - by destruct (Ascii.eqb c "/") eqn:E; simpl; [|rewrite E].
  - exact IH.
Qed.

(** X11: [rstrip("/")] returns the one string without a trailing slash
    that differs from its argument by trailing slashes only; so it is
    idempotent, and base URLs that differ only by trailing slashes give
    the same login URL. *)
Theorem rstrip_slash_spec s t :
  (rstrip_slash s = t ↔
     (∃ n, s = t +:+ slashes n) ∧ ends_with_slash t = false) ∧
  rstrip_slash (rstrip_slash s) = rstrip_slash s ∧
  (∀ n, authenticate_url (s +:+ slashes n) = authenticate_url s).
Proof.
  split_and!.
  - split.
    + intros <-. split; [apply rstrip_decompose|apply rstrip_no_trailing].
    + intros [[n ->] Ht]. by rewrite rstrip_app_slashes, rstrip_fixed.
  - apply rstrip_fixed, rstrip_no_trailing.
  - intros n. unfold authenticate_url. by rewrite rstrip_app_slashes.
Qed.

Example login_url_slashes :
  authenticate_url "http://jf:8096//" = "http://jf:8096/Users/AuthenticateByName" ∧
  authenticate_url "http://jf:8096" = "http://jf:8096/Users/AuthenticateByName".
Proof. split; reflexivity. Qed.

(** ** What [/api/report] answers *)

Lemma model_dump_not_sentinel st rep j : model_dump st rep = Some j → j ≠ no_report.
Proof.
  unfold model_dump. destruct (report_data st rep); [|done].
  intros [= <-]. discriminate.
Qed.

Lemma movies_at_valid st refs :
  Forall (λ r, r < length (movie_objs st)) refs → is_Some (movies_at st refs).
Proof.
  intros H. apply mapM_is_Some. eapply Forall_impl; [exact H|].
  intros r Hr. by apply lookup_lt_is_Some.
Qed.

Lemma series_at_valid st refs :
  Forall (λ r, r < length (series_objs st)) refs → is_Some (series_at st refs).
Proof.
  intros H. apply mapM_is_Some. eapply Forall_impl; [exact H|].
  intros r Hr. by apply lookup_lt_is_Some.
Qed.

Lemma report_valid_data st rep : report_valid st rep → is_Some (report_data st rep).
Proof.
  intros (Hu & Hm & Hs). unfold movie_buckets, series_buckets in *.
  apply Forall_app in Hm as [Hma Hms].
  apply Forall_app in Hs as [Hfa Hs]. apply Forall_app in Hs as [Hfs Hs].
  apply Forall_app in Hs as [Hpa Hps].
  unfold report_data.
  assert (is_Some (mapM (user_data st) (users rep))) as [us ->].
  { apply mapM_is_Some. eapply Forall_impl; [exact Hu|].
    intros u [Hum Hus]. simpl. unfold user_data.
    destruct (movies_at_valid st _ Hum) as [ms ->].
    destruct (series_at_valid st _ Hus) as [ss ->]. by eexists. }
  destruct (movies_at_valid st _ Hma) as [? ->].
  destruct (movies_at_valid st _ Hms) as [? ->].
  destruct (series_at_valid st _ Hfa) as [? ->].
  destruct (series_at_valid st _ Hfs) as [? ->].
  destruct (series_at_valid st _ Hpa) as [? ->].
  destruct (series_at_valid st _ Hps) as [? ->].
  by eexists.
Qed.

Lemma generate_report_valid svc st users_data st' rep :
  valid_users st users_data →
  generate_report svc st users_data = Some (st', rep) → report_valid st' rep.
Proof.
  intros Hv Hrun.
  destruct (generate_report_spec svc st users_data Hv)
    as (mobjs & sobjs & Hrun' & Hml & Hsl).
  rewrite Hrun' in Hrun. injection Hrun as <- <-.
  assert (length mobjs = length (movie_objs st)) as Hlm
    by apply (length_of_lookups _ _ _ Hml).
  assert (length sobjs = length (series_objs st)) as Hls
    by apply (length_of_lookups
                (λ r o, attached series_key set_series_watchers _ _ r
                          (attached series_key set_series_watchers _ _ r o))
                _ _ Hsl).
  unfold report_valid, valid_users, movie_buckets, series_buckets. simpl.
  rewrite Hlm, Hls. split_and!.
  - exact Hv.
  - apply Forall_forall. intros r Hr.
    apply filed_from_visit in Hr as (v & Hin & <-).
    apply movie_visits_inv in Hin as (ud & m & _ & _ & Hm & _).
    by eapply lookup_lt_Some.
  - apply Forall_forall. intros r Hr.
    assert (∃ v, v ∈ series_visits (series_objs st) users_data ∧ v_ref v = r)
      as (v & Hin & <-).
    { rewrite app_assoc in Hr. apply elem_of_app in Hr as [Hr|Hr];
        by eapply filed_from_visit. }
    apply series_visits_inv in Hin as (ud & s & _ & _ & Hs & _).
    by eapply lookup_lt_Some.
Qed.

(** X12: whatever the state of the web app, as long as [/api/report] can
    dump, its answer is the "No report available" object exactly when no
    report has been set; the dump of a report is never that object. *)
Theorem get_report_sentinel st app j :
  get_report st app = Some j →
  (j = no_report ↔ current_report app = None).
Proof.
  unfold get_report. destruct (current_report app) as [rep|].
  - intros Hj. apply model_dump_not_sentinel in Hj. split; [done|done].
  - intros [= <-]. done.
Qed.

Lemma get_report_sentinel_witness :
  no_report = no_report ↔ current_report app_start = None.
Proof. apply (get_report_sentinel demo_store). reflexivity. Defined.

Lemma collect_data_valid svc w c st c' st' rep :
  collect_data svc w c st = (c', st', Ok rep) → report_valid st' rep.
Proof.
  unfold collect_data.
  destruct (authenticate (jellyfin w) c) as [[[]|e] c1]; [| |done].
  - destruct (collect_users_spec (jellyfin w) c1
                (build_lookup rm_tmdbId (get_all (radarr_movies w)))
                (build_lookup ss_tvdbId (get_all (sonarr_series w)))
                (get_users (jellyfin w) c1) st [] [])
      as (st1 & uds & Hrun & Hv & _); [by constructor|by constructor|].
    rewrite Hrun.
    destruct (generate_report svc st1 uds) as [[st2 report]|] eqn:Hgen; [|done].
    intros [= <- <- <-]. by eapply generate_report_valid.
  - intros [= <- <- <-]. split_and!; by constructor.
Qed.

(** X13: whenever [collect_data] returns a report, after a failed login
    as well as after a successful one and from any store, every reference
    of the report names an object of the resulting store; so the report
    that main.py hands to [set_report] can be dumped, and [/api/report]
    answers with that dump and not with "No report available". *)
Theorem collected_report_served svc w c st app c' st' app' :
  main_collect svc w c st app = (c', st', Ok app') →
  ∃ rep j, collect_data svc w c st = (c', st', Ok rep) ∧
           current_report app' = Some rep ∧
           report_valid st' rep ∧
           model_dump st' rep = Some j ∧
           get_report st' app' = Some j ∧ j ≠ no_report.
Proof.
  unfold main_collect.
  destruct (collect_data svc w c st) as [[c1 st1] [rep|e]] eqn:Hc; [|done].
  intros [= <- <- <-].
  pose proof (collect_data_valid _ _ _ _ _ _ _ Hc) as Hv.
  destruct (report_valid_data _ _ Hv) as [d Hd].
  exists rep, (dump_report d). unfold get_report, model_dump. simpl.
  rewrite Hd. split_and!; try done.
Qed.

Lemma collected_report_served_witness :
  main_collect no_urls family_world admin_client empty_store app_start =
    (logged_in, family_store, Ok family_app) ∧
  ∃ rep j,
    collect_data no_urls family_world admin_client empty_store =
      (logged_in, family_store, Ok rep) ∧
    current_report family_app = Some rep ∧
    report_valid family_store rep ∧
    model_dump family_store rep = Some j ∧
    get_report family_store family_app = Some j ∧
    j ≠ no_report.
Proof.
  split; [by vm_compute|].
  apply (collected_report_served no_urls family_world admin_client empty_store
           app_start).
  by vm_compute.
Defined.

(** ** What [collect_data] allocates *)

Lemma collect_users_fresh srv c rl sl users : ∀ st uds,
  ∃ newm news,
    (fold_left (collect_user srv c rl sl) users (st, uds)).1 =
      mkStore (movie_objs st ++ newm) (series_objs st ++ news) ∧
    mjoin (watched_movies <$> (fold_left (collect_user srv c rl sl) users (st, uds)).2) =
      mjoin (watched_movies <$> uds) ++ seq (length (movie_objs st)) (length newm) ∧
    mjoin (watched_series <$> (fold_left (collect_user srv c rl sl) users (st, uds)).2) =
      mjoin (watched_series <$> uds) ++ seq (length (series_objs st)) (length news).
Proof.
  induction users as [|user users IH]; intros st uds.
  - exists [], []. simpl. rewrite !app_nil_r. by destruct st.
  - simpl. rewrite collect_user_spec.
    destruct (IH (mkStore (movie_objs st ++ parsed_movies srv c rl user)
                          (series_objs st ++ parsed_series srv c sl user))
                 (uds ++ [mkUserWatchData (u_Id user) (u_Name user)
                    (seq (length (movie_objs st))
                         (length (parsed_movies srv c rl user)))
                    (seq (length (series_objs st))
                         (length (parsed_series srv c sl user)))]))
      as (newm & news & Hst & Hm & Hs).
    exists (parsed_movies srv c rl user ++ newm),
           (parsed_series srv c sl user ++ news).
    rewrite Hst, Hm, Hs. simpl.
    rewrite !fmap_app, !join_app. simpl.
    rewrite !app_nil_r, !length_app, !seq_app, <-!app_assoc. done.
Qed.

Lemma collect_data_allocates_run svc w c st c1 :
  authenticate (jellyfin w) c = (Ok true, c1) →
  ∃ st' rep,
    collect_data svc w c st = (c1, st', Ok rep) ∧
    collection_allocates (jellyfin w) c1
      (build_lookup rm_tmdbId (get_all (radarr_movies w)))
      (get_users (jellyfin w) c1) st st' rep.
Proof.
  intros Hauth. unfold collect_data. rewrite Hauth.
  set (srv := jellyfin w).
  set (rl := build_lookup rm_tmdbId (get_all (radarr_movies w))).
  set (sl := build_lookup ss_tvdbId (get_all (sonarr_series w))).
  set (us := get_users srv c1).
  destruct (collect_users_spec srv c1 rl sl us st [] [])
    as (st1 & uds & Hrun & Hv & Hrec); [by constructor|by constructor|].
  destruct (collect_users_fresh srv c1 rl sl us st [])
    as (newm & news & Hst & Hfm & Hfs).
  rewrite Hrun in Hst, Hfm, Hfs. simpl in Hst, Hfm, Hfs. rewrite Hrun.
  destruct (generate_report_spec svc st1 uds Hv)
    as (mobjs & sobjs & Hgen & Hml & Hsl).
  rewrite Hgen. eexists _, _. split; [reflexivity|].
  assert (length mobjs = length (movie_objs st1)) as Hlm
    by apply (length_of_lookups _ _ _ Hml).
  assert (length sobjs = length (series_objs st1)) as Hls
    by apply (length_of_lookups
                (λ r o, attached series_key set_series_watchers _ _ r
                          (attached series_key set_series_watchers _ _ r o))
                _ _ Hsl).
  unfold collection_allocates. simpl. rewrite Hlm, Hls, Hfm, Hfs.
  subst st1. simpl in *. rewrite !length_app.
  replace (length (movie_objs st) + length newm - length (movie_objs st))
    with (length newm) by lia.
  replace (length (series_objs st) + length news - length (series_objs st))
    with (length news) by lia.
  split_and!; try reflexivity.
  - intros r Hr. rewrite Hml.
    rewrite (lookup_app_l (movie_objs st)) by done.
    destruct (movie_objs st !! r) as [m|]; [|done]. simpl. f_equal.
    apply (attached_unfiled movie_key set_movie_watchers (length uds));
      [|apply od_build_NoDup].
    intros Hin. apply filed_from_visit in Hin as (v & Hin & <-).
    apply movie_visits_inv in Hin as (ud & m' & Hud & Href & _).
    assert (v_ref v ∈ mjoin (watched_movies <$> uds)) as Hj.
    { apply list_elem_of_join. exists (watched_movies ud). split; [done|].
      by apply list_elem_of_fmap_2. }
    rewrite Hfm in Hj. apply elem_of_seq in Hj. lia.
  - intros r Hr. rewrite Hsl.
    rewrite (lookup_app_l (series_objs st)) by done.
    destruct (series_objs st !! r) as [s|]; [|done]. simpl. f_equal.
    assert (∀ wvs, r ∉
              filed_all (length uds)
                (data_build (krs_of (series_visits (series_objs st ++ news) uds)))
                (od_build (kus_of wvs)) ++
              filed_some (length uds)
                (data_build (krs_of (series_visits (series_objs st ++ news) uds)))
                (od_build (kus_of wvs))) as Hnot.
    { intros wvs Hin. apply filed_from_visit in Hin as (v & Hin & <-).
      apply series_visits_inv in Hin as (ud & s' & Hud & Href & _).
      assert (v_ref v ∈ mjoin (watched_series <$> uds)) as Hj.
      { apply list_elem_of_join. exists (watched_series ud). split; [done|].
        by apply list_elem_of_fmap_2. }
      rewrite Hfs in Hj. apply elem_of_seq in Hj. lia. }
    rewrite (attached_unfiled series_key set_series_watchers (length uds) _ _ r s
               (Hnot _) (od_build_NoDup _)).
    apply (attached_unfiled series_key set_series_watchers (length uds) _ _ r s
             (Hnot _) (od_build_NoDup _)).
  - eapply Forall2_impl; [exact Hrec|].
    intros user ud (Hid & Hname & Hmov & _). split_and!; [done..|].
    unfold movies_at, parsed_movies in Hmov. apply mapM_Some in Hmov.
    apply Forall2_fmap_r in Hmov.
    eapply Forall2_impl; [exact Hmov|].
    intros r movie Hr. simpl in Hr. rewrite Hml, Hr. simpl. f_equal.
    destruct (attached_is_set movie_key set_movie_watchers m_watched_by_users
                set_movie_watchers_id
                (data_build (krs_of (movie_visits (movie_objs st ++ newm) uds)))
                (od_build (kus_of (movie_visits (movie_objs st ++ newm) uds)))
                r (parse_movie movie rl)) as [ws ->].
    reflexivity.
Qed.

(** X14: whenever [collect_data] returns a report after a successful
    login, it has left every object that existed before as it was; the
    records of the report name the objects created by the call, each by
    exactly one reference and in order of creation; there is one record
    per user of the media server, in order, with that user's id and name;
    and the movies of a record are, watcher lists apart, the parsed forms
    of the movies fetched for that user, one for one and in fetch order. *)
Theorem collect_data_allocates svc w c st c1 st' rep :
  authenticate (jellyfin w) c = (Ok true, c1) →
  collect_data svc w c st = (c1, st', Ok rep) →
  collection_allocates (jellyfin w) c1
    (build_lookup rm_tmdbId (get_all (radarr_movies w)))
    (get_users (jellyfin w) c1) st st' rep.
Proof.
  intros Hauth Hrun.
  destruct (collect_data_allocates_run svc w c st c1 Hauth)
    as (st0 & rep0 & Hrun0 & Halloc).
  rewrite Hrun in Hrun0. by injection Hrun0 as <- <-.
Qed.

Lemma collect_data_allocates_witness :
  collection_allocates cinema_server logged_in
    (build_lookup rm_tmdbId matrix_catalog) (get_users cinema_server logged_in)
    demo_store cinema_after.1 cinema_after.2.
Proof.
  apply (collect_data_allocates no_urls cinema_world admin_client demo_store
           logged_in); [reflexivity|by vm_compute].
Defined.

(** In that household the store held three films before; the call adds
    alice's two and bob's one, and the records name them in that order. *)
Example cinema_records :
  watched_movies <$> users cinema_after.2 = [[3; 4]; [5]] ∧
  m_title <$> drop 3 (movie_objs cinema_after.1) =
    ["The Matrix"; "Dune"; "The Matrix"] ∧
  take 3 (movie_objs cinema_after.1) = movie_objs demo_store.
Proof. split_and!; by vm_compute. Qed.

(** ** What [authenticate] leaves on the client *)

(** X15: [authenticate] never changes the username or the password; the
    stored user id changes only when the call returns true; the stored
    token changes only on a 2xx answer whose JSON body has an
    [AccessToken], and on every such answer that token is left on the
    client, also when the call then raises because [User] or its [Id] is
    missing: the token is assigned before the user id is looked up. *)
Theorem authenticate_client_state srv c :
  let resp := post_AuthenticateByName srv (jf_username c) (jf_password c) in
  let r := (authenticate srv c).1 in
  let c' := (authenticate srv c).2 in
  jf_username c' = jf_username c ∧ jf_password c' = jf_password c ∧
  (jf_user_id c' ≠ jf_user_id c → r = Ok true) ∧
  (access_token c' ≠ access_token c →
     ∃ status data token,
       resp = Responded status (Json data) ∧ is_success status = true ∧
       subscript data "AccessToken" = Ok token) ∧
  (∀ status data token,
     resp = Responded status (Json data) → is_success status = true →
     subscript data "AccessToken" = Ok token →
     access_token c' = Some token ∧
     ((∀ user uid, subscript data "User" = Ok user → subscript user "Id" ≠ Ok uid) →
      (∃ e, r = Raise e) ∧ jf_user_id c' = jf_user_id c)).
Proof.
  intros resp r c'. subst r c'. unfold authenticate. fold resp.
  destruct resp as [status p|] eqn:Hresp; simpl; [|by split_and!].
  destruct (is_success status) eqn:Hs;
    [|split_and!; try done; intros; simplify_eq; congruence].
  destruct p as [|data]; [by split_and!|].
  destruct (subscript data "AccessToken") as [token|e] eqn:Ht;
    [|split_and!; try done; intros; simplify_eq; congruence].
  destruct (subscript data "User") as [user|e] eqn:Hu.
  - destruct (subscript user "Id") as [uid|e] eqn:Hi; simpl.
    + split_and!; try done.
      * intros _. by exists status, data, token.
      * intros ??? [= <- <-] _. rewrite Ht. intros [= <-]. split; [done|].
        intros Hno. by destruct (Hno user uid).
    + split_and!; try done.
      * intros _. by exists status, data, token.
      * intros ??? [= <- <-] _. rewrite Ht. intros [= <-]. split; [done|].
        intros _. split; [by exists e|done].
  - simpl. split_and!; try done.
    + intros _. by exists status, data, token.
    + intros ??? [= <- <-] _. rewrite Ht. intros [= <-]. split; [done|].
      intros _. split; [by exists e|done].
Qed.

(** A 200 answer with a token and no [User]: the call raises [KeyError],
    and the client it leaves holds the token without a user id. *)
Example token_without_user :
  authenticate token_only_server admin_client =
    (Raise KeyError, mkClient "admin" "secret" (Some (JStr "t0k3n")) None).
Proof. reflexivity. Qed.

(** ** Collecting while a catalog cannot be reached *)

Lemma collect_users_store srv c rl sl users : ∀ st uds,
  (fold_left (collect_user srv c rl sl) users (st, uds)).1 =
  mkStore (movie_objs st ++ (users ≫= parsed_movies srv c rl))
          (series_objs st ++ (users ≫= parsed_series srv c sl)).
Proof.
  induction users as [|user users IH]; intros st uds.
  - simpl. rewrite !app_nil_r. by destruct st.
  - rewrite !bind_cons, !app_assoc. simpl fold_left.
    by rewrite collect_user_spec, IH.
Qed.

Lemma lookup_provider_empty {A} (ext_id : option string) :
  lookup_provider (∅ : gmap string A) ext_id = None.
Proof.
  unfold lookup_provider. destruct ext_id as [t|]; [|done].
  destruct (truthy (PyStr t)); [apply lookup_empty|done].
Qed.

Lemma catalog_outage_run svc w c st c1 :
  authenticate (jellyfin w) c = (Ok true, c1) →
  ∃ st' rep,
    collect_data svc w c st = (c1, st', Ok rep) ∧
    (get_all (radarr_movies w) = [] →
     ∀ r m, length (movie_objs st) ≤ r → movie_objs st' !! r = Some m →
       m_in_radarr m = false ∧ m_radarr_id m = None) ∧
    (get_all (sonarr_series w) = [] →
     ∀ r s, length (series_objs st) ≤ r → series_objs st' !! r = Some s →
       s_in_sonarr s = false ∧ s_sonarr_id s = None ∧
       s_sonarr_title_slug s = None).
Proof.
  intros Hauth. unfold collect_data. rewrite Hauth.
  set (srv := jellyfin w).
  set (rl := build_lookup rm_tmdbId (get_all (radarr_movies w))).
  set (sl := build_lookup ss_tvdbId (get_all (sonarr_series w))).
  set (us := get_users srv c1).
  destruct (collect_users_spec srv c1 rl sl us st [] [])
    as (st1 & uds & Hrun & Hv & _); [by constructor|by constructor|].
  pose proof (collect_users_store srv c1 rl sl us st []) as Hst.
  rewrite Hrun in Hst. simpl in Hst. rewrite Hrun.
  destruct (generate_report_spec svc st1 uds Hv)
    as (mobjs & sobjs & Hgen & Hml & Hsl).
  rewrite Hgen. eexists _, _. split; [reflexivity|].
  subst st1. simpl in *. split.
  - intros Hnone r m Hr. rewrite Hml, lookup_app_r by done.
    destruct ((us ≫= parsed_movies srv c1 rl) !! (r - length (movie_objs st)))
      as [m0|] eqn:Hm0; [|done].
    simpl. intros [= <-].
    apply list_elem_of_lookup_2, list_elem_of_bind in Hm0 as (user & Hm0 & _).
    apply list_elem_of_fmap in Hm0 as (movie & -> & _).
    destruct (attached_is_set movie_key set_movie_watchers m_watched_by_users
                set_movie_watchers_id
                (data_build (krs_of (movie_visits
                   (movie_objs st ++ (us ≫= parsed_movies srv c1 rl)) uds)))
                (od_build (kus_of (movie_visits
                   (movie_objs st ++ (us ≫= parsed_movies srv c1 rl)) uds)))
                r (parse_movie movie rl)) as [ws ->].
    unfold rl. rewrite Hnone. unfold parse_movie. simpl.
    change (build_lookup rm_tmdbId []) with (∅ : gmap string RadarrMovie).
    by rewrite lookup_provider_empty.
  - intros Hnone r s Hr. rewrite Hsl, lookup_app_r by done.
    destruct ((us ≫= parsed_series srv c1 sl) !! (r - length (series_objs st)))
      as [s0|] eqn:Hs0; [|done].
    simpl. intros [= <-].
    apply list_elem_of_lookup_2, list_elem_of_bind in Hs0 as (user & Hs0 & _).
    apply list_elem_of_omap in Hs0 as (item & _ & Hs0).
    set (Ds := data_build (krs_of (series_visits
                 (series_objs st ++ (us ≫= parsed_series srv c1 sl)) uds))).
    destruct (attached_is_set series_key set_series_watchers s_watched_by_users
                set_series_watchers_id Ds
                (od_build (kus_of (full_visits (series_visits
                   (series_objs st ++ (us ≫= parsed_series srv c1 sl)) uds))))
                r s0) as [ws ->].
    destruct (attached_is_set series_key set_series_watchers s_watched_by_users
                set_series_watchers_id Ds
                (od_build (kus_of (partial_visits (series_visits
                   (series_objs st ++ (us ≫= parsed_series srv c1 sl)) uds))))
                r (set_series_watchers ws s0)) as [ws' ->].
    simpl. unfold sl in Hs0. rewrite Hnone in Hs0. unfold parse_series in Hs0.
    change (build_lookup ss_tvdbId []) with (∅ : gmap string SonarrSeries) in Hs0.
    rewrite lookup_provider_empty in Hs0.
    destruct (is_series_fully_watched srv c1 (it_Id item) (u_Id user))
      as [[full watched] total].
    destruct (watched =? 0)%Z; [done|]. by injection Hs0 as <-.
Qed.

(** X16: a catalog that cannot be fetched reads like an empty catalog:
    [get_all_movies] and [get_all_series] turn every failure into the
    empty list, and then, whenever [collect_data] returns a report after a
    successful login, every movie the call created is marked as absent
    from Radarr, without a Radarr id, and every series as absent from
    Sonarr, without a Sonarr id or title slug, whatever provider ids the
    items carry. *)
Theorem catalog_outage svc w c st c1 st' rep :
  authenticate (jellyfin w) c = (Ok true, c1) →
  collect_data svc w c st = (c1, st', Ok rep) →
  (get_all (radarr_movies w) = [] →
   ∀ r m, length (movie_objs st) ≤ r → movie_objs st' !! r = Some m →
     m_in_radarr m = false ∧ m_radarr_id m = None) ∧
  (get_all (sonarr_series w) = [] →
   ∀ r s, length (series_objs st) ≤ r → series_objs st' !! r = Some s →
     s_in_sonarr s = false ∧ s_sonarr_id s = None ∧
     s_sonarr_title_slug s = None).
Proof.
  intros Hauth Hrun.
  destruct (catalog_outage_run svc w c st c1 Hauth)
    as (st0 & rep0 & Hrun0 & Hout).
  rewrite Hrun in Hrun0. by injection Hrun0 as <- <-.
Qed.

Lemma catalog_outage_witness :
  (∀ r m, length (movie_objs demo_store) ≤ r →
     movie_objs outage_after.1 !! r = Some m →
     m_in_radarr m = false ∧ m_radarr_id m = None) ∧
  (∀ r s, length (series_objs demo_store) ≤ r →
     series_objs outage_after.1 !! r = Some s →
     s_in_sonarr s = false ∧ s_sonarr_id s = None ∧
     s_sonarr_title_slug s = None).
Proof.
  destruct (catalog_outage no_urls cinema_outage admin_client demo_store
              logged_in outage_after.1 outage_after.2) as [Hm Hs];
    [reflexivity|by vm_compute|].
  split; [apply Hm; reflexivity|apply Hs; reflexivity].
Defined.

(** The film "The Matrix" carries the TMDB id 603 and the series "Dark"
    the TVDB id 334824.  With the catalogs reachable both are joined with
    their catalog entries; during the outage the same items are created
    with the same provider ids and marked absent. *)
Example outage_hides_catalog :
  (λ m, (m_tmdb_id m, m_in_radarr m, m_radarr_id m)) <$>
    movie_objs cinema_after.1 !! 3 = Some (Some "603", true, Some 12%Z) ∧
  (λ m, (m_tmdb_id m, m_in_radarr m, m_radarr_id m)) <$>
    movie_objs outage_after.1 !! 3 = Some (Some "603", false, None) ∧
  (λ s, (s_tvdb_id s, s_in_sonarr s, s_sonarr_id s)) <$>
    series_objs cinema_after.1 !! 2 = Some (Some "334824", true, Some 7%Z) ∧
  (λ s, (s_tvdb_id s, s_in_sonarr s, s_sonarr_id s)) <$>
    series_objs outage_after.1 !! 2 = Some (Some "334824", false, None).
Proof. split_and!; by vm_compute. Qed.

(** ** Collecting while the users cannot be listed *)

(** X17: when the login succeeds and the request for the users fails (a
    transport error or a status outside 2xx), [collect_data] raises
    nothing, touches no object, and returns a report without users and
    with six empty buckets; unlike the report after a failed login it
    carries the three URLs of the service. *)
Theorem users_request_failed svc w c st c1 :
  authenticate (jellyfin w) c = (Ok true, c1) →
  http_failed (get_Users (jellyfin w) (access_token c1)) →
  collect_data svc w c st =
    (c1, st, Ok (mkReport [] [] [] [] [] [] []
                   (svc_jellyfin_url svc) (svc_radarr_url svc)
                   (svc_sonarr_url svc))).
Proof.
  intros Hauth Hfail. unfold collect_data. rewrite Hauth.
  unfold get_users. rewrite (fetched_failed _ Hfail). simpl.
  by destruct st.
Qed.

Lemma users_request_failed_witness :
  collect_data no_urls
    (mkWorld (login_only (Responded 200 good_login)) CallFailed CallFailed)
    admin_client demo_store =
  (logged_in, demo_store,
   Ok (mkReport [] [] [] [] [] [] []
         (svc_jellyfin_url no_urls) (svc_radarr_url no_urls)
         (svc_sonarr_url no_urls))).
Proof.
  apply (users_request_failed no_urls
           (mkWorld (login_only (Responded 200 good_login)) CallFailed CallFailed)
           admin_client demo_store logged_in); [reflexivity|exact I].
Defined.

(** ** Generating the report again *)

Section attached_again.
Context {Obj : Type} (key : Obj → string) (setw : list string → Obj → Obj).
Hypothesis key_setw : ∀ ws o, key (setw ws o) = key o.
Hypothesis setw_setw : ∀ ws ws' o, setw ws (setw ws' o) = setw ws o.

Lemma attached_as D (W : odict) r o o' :
  key o' = key o →
  attached key setw D W r o' =
  match od_get (key o) W with
  | Some ws => if decide (D !! key o = Some r) then setw ws o' else o'
  | None => o'
  end.
Proof. unfold attached. by intros ->. Qed.

Lemma attached_again D (W : odict) r o :
  attached key setw D W r (attached key setw D W r o) = attached key setw D W r o.
Proof.
  rewrite (attached_as D W r o (attached key setw D W r o))
    by (by apply attached_key).
  unfold attached. destruct (od_get (key o) W) as [ws|]; [|done].
  case_decide; [|done]. apply setw_setw.
Qed.

Lemma attached_both_again D (Wf Wp : odict) r o :
  attached key setw D Wp r (attached key setw D Wf r
    (attached key setw D Wp r (attached key setw D Wf r o))) =
  attached key setw D Wp r (attached key setw D Wf r o).
Proof.
  set (o1 := attached key setw D Wf r o).
  assert (key o1 = key o) as H1 by (by apply attached_key).
  set (o2 := attached key setw D Wp r o1).
  assert (key o2 = key o) as H2
    by (unfold o2; by rewrite attached_key).
  set (o3 := attached key setw D Wf r o2).
  assert (key o3 = key o) as H3
    by (unfold o3; by rewrite attached_key).
  rewrite (attached_as D Wp r o o3 H3).
  unfold o3. rewrite (attached_as D Wf r o o2 H2).
  unfold o2. rewrite (attached_as D Wp r o o1 H1).
  destruct (od_get (key o) Wp) as [wp|];
    destruct (od_get (key o) Wf) as [wf|] eqn:Hf;
    repeat case_decide; rewrite ?setw_setw; try done.
  all: unfold o1, attached; rewrite ?Hf; repeat case_decide;
    by rewrite ?setw_setw.
Qed.
End attached_again.

Lemma movie_visits_ext (f : nat → MovieInfo → MovieInfo) objs objs' uds :
  (∀ r, objs' !! r = f r <$> objs !! r) →
  (∀ r o, movie_key (f r o) = movie_key o) →
  movie_visits objs' uds = movie_visits objs uds.
Proof.
  intros Hl Hk. unfold movie_visits.
  induction uds as [|u uds IH]; [done|]. rewrite !bind_cons, IH. f_equal.
  induction (watched_movies u) as [|r refs IHr]; [done|].
  assert (movie_visit objs' u r = movie_visit objs u r) as Hr.
  { unfold movie_visit. rewrite Hl. destruct (objs !! r); [|done].
    simpl. by rewrite Hk. }
  destruct (movie_visit objs u r) as [v|] eqn:Hv.
  - by rewrite !(omap_cons_Some _ _ _ v), IHr.
  - by rewrite !omap_cons_None, IHr.
Qed.

Lemma series_visits_ext (f : nat → SeriesInfo → SeriesInfo) objs objs' uds :
  (∀ r, objs' !! r = f r <$> objs !! r) →
  (∀ r o, series_key (f r o) = series_key o ∧
          s_is_fully_watched (f r o) = s_is_fully_watched o) →
  series_visits objs' uds = series_visits objs uds.
Proof.
  intros Hl Hk. unfold series_visits.
  induction uds as [|u uds IH]; [done|]. rewrite !bind_cons, IH. f_equal.
  induction (watched_series u) as [|r refs IHr]; [done|].
  assert (series_visit objs' u r = series_visit objs u r) as Hr.
  { unfold series_visit. rewrite Hl. destruct (objs !! r) as [o|]; [|done].
    simpl. destruct (Hk r o) as [-> ->]. done. }
  destruct (series_visit objs u r) as [v|] eqn:Hv.
  - by rewrite !(omap_cons_Some _ _ _ v), IHr.
  - by rewrite !omap_cons_None, IHr.
Qed.

(** X18: generating the report a second time from the same user records
    changes nothing: the watcher lists are assigned, not extended, and
    neither keys nor flags depend on them, so the second run returns the
    same report and leaves the store as the first run left it. *)
Theorem generate_report_idempotent svc st users_data st' rep :
  valid_users st users_data →
  generate_report svc st users_data = Some (st', rep) →
  generate_report svc st' users_data = Some (st', rep).
Proof.
  intros Hv Hrun.
  destruct (generate_report_spec svc st users_data Hv)
    as (mobjs & sobjs & Hrun' & Hml & Hsl).
  rewrite Hrun' in Hrun. injection Hrun as <- <-.
  assert (length mobjs = length (movie_objs st)) as Hlm
    by apply (length_of_lookups _ _ _ Hml).
  assert (length sobjs = length (series_objs st)) as Hls
    by apply (length_of_lookups
                (λ r o, attached series_key set_series_watchers _ _ r
                          (attached series_key set_series_watchers _ _ r o))
                _ _ Hsl).
  assert (valid_users (mkStore mobjs sobjs) users_data) as Hv'.
  { unfold valid_users in *. simpl. by rewrite Hlm, Hls. }
  destruct (generate_report_spec svc (mkStore mobjs sobjs) users_data Hv')
    as (mobjs' & sobjs' & Hrun2 & Hml2 & Hsl2).
  simpl in Hrun2, Hml2, Hsl2.
  assert (movie_visits mobjs users_data =
          movie_visits (movie_objs st) users_data) as Hmv.
  { apply (movie_visits_ext _ _ _ _ Hml). intros r o.
    apply (attached_key movie_key set_movie_watchers movie_key_set). }
  assert (series_visits sobjs users_data =
          series_visits (series_objs st) users_data) as Hsv.
  { apply (series_visits_ext _ _ _ _ Hsl). intros r o. split.
    - by rewrite !(attached_key series_key set_series_watchers series_key_set).
    - destruct (attached_is_set series_key set_series_watchers s_watched_by_users
                  set_series_watchers_id
                  (data_build (krs_of (series_visits (series_objs st) users_data)))
                  (od_build (kus_of (full_visits
                     (series_visits (series_objs st) users_data))))
                  r o) as [ws ->].
      destruct (attached_is_set series_key set_series_watchers s_watched_by_users
                  set_series_watchers_id
                  (data_build (krs_of (series_visits (series_objs st) users_data)))
                  (od_build (kus_of (partial_visits
                     (series_visits (series_objs st) users_data))))
                  r (set_series_watchers ws o)) as [ws' ->].
      reflexivity. }
  rewrite Hmv, Hsv in Hrun2. rewrite Hmv in Hml2. rewrite Hsv in Hsl2.
  rewrite Hrun2. f_equal. f_equal. f_equal.
  - apply list_eq. intros r. rewrite Hml2, Hml.
    destruct (movie_objs st !! r) as [m|]; [|done]. simpl. f_equal.
    by apply (attached_again movie_key set_movie_watchers movie_key_set).
  - apply list_eq. intros r. rewrite Hsl2, Hsl.
    destruct (series_objs st !! r) as [s|]; [|done]. simpl. f_equal.
    by apply (attached_both_again series_key set_series_watchers series_key_set).
Qed.

Lemma generate_report_idempotent_witness :
  generate_report no_urls demo_after.1 demo_users = Some demo_after.
Proof.
  apply (generate_report_idempotent no_urls demo_store demo_users).
  - unfold valid_users. repeat (constructor; simpl); lia.
  - by vm_compute.
Defined.

(** ** What the series buckets mean *)

Lemma carrying_pos key_at k refs :
  0 < length (carrying key_at k refs) ↔ k ∈ omap key_at refs.
Proof.
  unfold carrying. induction refs as [|r refs IH].
  - simpl. split; [lia|by intros ?%elem_of_nil].
  - rewrite filter_cons. destruct (key_at r) as [k'|] eqn:Hk.
    + rewrite (omap_cons_Some _ _ _ k') by done. rewrite elem_of_cons.
      case_decide as Heq.
      * simpl. split; [intros _; left; congruence|lia].
      * rewrite IH. split; [by right|]. intros [->|?]; [done|done].
    + rewrite omap_cons_None by done. by rewrite decide_False by congruence.
Qed.

Lemma carrying_NoDup key_at k refs :
  NoDup (omap key_at refs) → length (carrying key_at k refs) ≤ 1.
Proof.
  unfold carrying. induction refs as [|r refs IH]; [simpl; lia|].
  rewrite filter_cons. destruct (key_at r) as [k'|] eqn:Hk.
  - rewrite (omap_cons_Some _ _ _ k') by done. rewrite NoDup_cons.
    intros [Hnot Hnd]. case_decide as Heq; [|by apply IH].
    assert (k' = k) as -> by congruence.
    apply (not_iff_compat (carrying_pos key_at k refs)) in Hnot.
    unfold carrying in Hnot. simpl. lia.
  - rewrite omap_cons_None by done. rewrite decide_False by congruence.
    apply IH.
Qed.

Lemma omap_filter_NoDup {A B} (f : A → option B) (P : A → Prop)
    `{∀ x, Decision (P x)} (l : list A) :
  NoDup (omap f l) → NoDup (omap f (filter P l)).
Proof.
  induction l as [|x l IH]; [done|].
  rewrite filter_cons. destruct (f x) as [y|] eqn:Hy.
  - rewrite (omap_cons_Some _ _ _ y) by done. rewrite NoDup_cons.
    intros [Hnot Hnd]. case_decide; [|by apply IH].
    rewrite (omap_cons_Some _ _ _ y) by done. apply NoDup_cons.
    split; [|by apply IH]. intros Hin. apply Hnot.
    apply list_elem_of_omap in Hin as (z & Hz & Hfz).
    apply list_elem_of_filter in Hz as [_ Hz].
    apply list_elem_of_omap. eauto.
  - rewrite omap_cons_None by done. intros Hnd.
    case_decide; [|by apply IH]. rewrite omap_cons_None by done. by apply IH.
Qed.

Lemma watchers_of_cons key_at items u users k :
  length (watchers_of key_at items (u :: users) k) =
  length (carrying key_at k (items u)) +
  length (watchers_of key_at items users k).
Proof. unfold watchers_of. by rewrite bind_cons, length_app, length_fmap. Qed.

Lemma watchers_count_le key_at items users k :
  Forall (λ u, length (carrying key_at k (items u)) ≤ 1) users →
  length (watchers_of key_at items users k) ≤ length users.
Proof.
  induction 1 as [|u users Hu _ IH]; [done|].
  rewrite watchers_of_cons. simpl. lia.
Qed.

Lemma watchers_count_all key_at items users k :
  Forall (λ u, length (carrying key_at k (items u)) ≤ 1) users →
  length (watchers_of key_at items users k) = length users ↔
  ∀ u, u ∈ users → 0 < length (carrying key_at k (items u)).
Proof.
  induction 1 as [|u users Hu Hus IH].
  - split; [by intros _ ? ?%elem_of_nil|done].
  - pose proof (watchers_count_le key_at items users k Hus) as Hle.
    rewrite watchers_of_cons. simpl. split.
    + intros Hlen u' [->|Hin]%elem_of_cons; [lia|].
      apply IH; [lia|done].
    + intros Hall.
      assert (0 < length (carrying key_at k (items u))) by (apply Hall; left).
      assert (length (watchers_of key_at items users k) = length users)
        by (apply IH; intros u' Hin; apply Hall; by right).
      lia.
Qed.

Lemma watchers_count_pos key_at items users k :
  0 < length (watchers_of key_at items users k) ↔
  ∃ u, u ∈ users ∧ 0 < length (carrying key_at k (items u)).
Proof.
  induction users as [|u users IH].
  - split; [simpl; lia|by intros (? & ?%elem_of_nil & _)].
  - rewrite watchers_of_cons. split.
    + intros Hpos.
      destruct (decide (0 < length (carrying key_at k (items u)))) as [Hu|Hu].
      * exists u. split; [left|done].
      * destruct IH as [IH _]. destruct IH as (u' & Hin & Hu'); [lia|].
        exists u'. split; [by right|done].
    + intros (u' & [->|Hin]%elem_of_cons & Hu'); [lia|].
      destruct IH as [_ IH]. specialize (IH (ex_intro _ u' (conj Hin Hu'))). lia.
Qed.

Lemma watchers_count_some key_at items users k :
  Forall (λ u, length (carrying key_at k (items u)) ≤ 1) users →
  length (watchers_of key_at items users k) ≠ length users ↔
  ∃ u, u ∈ users ∧ ¬ 0 < length (carrying key_at k (items u)).
Proof.
  intros Hle. rewrite (watchers_count_all _ _ _ _ Hle). split.
  - intros Hnot.
    assert (¬ Forall (λ u, 0 < length (carrying key_at k (items u))) users)
      as HnF by (rewrite Forall_forall; exact Hnot).
    apply not_Forall_Exists in HnF; [|intros u; apply _].
    apply Exists_exists in HnF as (u & Hin & Hu). eauto.
  - intros (u & Hin & Hu) Hall. apply Hu. by apply Hall.
Qed.

Lemma flagged_count_le st users_data (full : bool) k :
  distinct_user_keys st users_data →
  Forall (λ u, length (carrying (series_key_at st) k (flagged st full u)) ≤ 1)
         users_data.
Proof.
  intros Hd. eapply Forall_impl; [exact Hd|]. intros u [_ Hnd]. simpl.
  apply carrying_NoDup. unfold flagged. by apply omap_filter_NoDup.
Qed.

Lemma filed_by_count st users_data r s (full : bool) :
  let sv := series_visits (series_objs st) users_data in
  let Ds := data_build (krs_of sv) in
  let W := od_build (kus_of (filter (λ v, v_full v = full) sv)) in
  let c := length (watchers_of (series_key_at st) (flagged st full) users_data
                     (series_key s)) in
  Ds !! series_key s = Some r →
  (∀ k ws, (k, ws) ∈ W → Ds !! k = Some r → k = series_key s) →
  (r ∈ filed_all (length users_data) Ds W ↔ c ≠ 0 ∧ c = length users_data) ∧
  (r ∈ filed_some (length users_data) Ds W ↔ c ≠ 0 ∧ c ≠ length users_data).
Proof.
  intros sv Ds W c HD Hkey.
  assert (∀ ws, (series_key s, ws) ∈ W ↔
            ws = watchers_of (series_key_at st) (flagged st full) users_data
                   (series_key s) ∧ c ≠ 0) as Hent.
  { intros ws. unfold W, sv. rewrite od_build_elem_of, ws_of_series_visits.
    unfold c. split; intros [-> Hne]; (split; [done|]).
    - by destruct (watchers_of _ _ _ _).
    - by destruct (watchers_of _ _ _ _). }
  rewrite elem_of_filed_all, elem_of_filed_some. split; split.
  - intros (k & ws & Hin & Hlen & HD').
    assert (k = series_key s) as -> by eauto.
    apply Hent in Hin as [-> Hne]. done.
  - intros [Hne Hlen]. eexists _, _. split_and!; [by apply Hent|done|done].
  - intros (k & ws & Hin & Hlen & HD').
    assert (k = series_key s) as -> by eauto.
    apply Hent in Hin as [-> Hne]. done.
  - intros [Hne Hlen]. eexists _, _. split_and!; [by apply Hent|done|done].
Qed.

(** X19: for valid input in which no record repeats a title/year key, an
    entry of a series bucket is under "fully watched by all" exactly when
    every user holds a fully watched item of its key, and under "fully
    watched by some" exactly when some user holds such an item and some
    user holds none; the same for the partially watched buckets and the
    items that are not fully watched.  The flag of the entry itself plays
    no part. *)
Theorem series_buckets_by_coverage svc st users_data :
  valid_users st users_data → distinct_user_keys st users_data →
  ∃ st' rep, generate_report svc st users_data = Some (st', rep) ∧
             series_buckets_meaning st users_data rep.
Proof.
  intros Hv Hd.
  destruct (generate_report_spec svc st users_data Hv)
    as (mobjs & sobjs & Hrun & _ & Hsl).
  eexists _, _. split; [exact Hrun|].
  pose proof (series_final_full st users_data sobjs Hsl) as HF.
  pose proof (series_final_partial st users_data sobjs Hsl) as HP.
  intros r s Hr Hs. unfold series_buckets in Hr. simpl in *.
  set (sv := series_visits (series_objs st) users_data) in *.
  set (Ds := data_build (krs_of sv)) in *.
  assert (∀ (full : bool) k ws,
            (k, ws) ∈ od_build (kus_of (filter (λ v, v_full v = full) sv)) →
            Ds !! k = Some r → k = series_key s) as Hkey.
  { intros [] k ws Hin HD.
    - destruct (HF k ws r Hin HD) as (s' & Hs' & Hk & _). congruence.
    - destruct (HP k ws r Hin HD) as (s' & Hs' & Hk & _). congruence. }
  assert (∃ (full : bool) k ws,
            (k, ws) ∈ od_build (kus_of (filter (λ v, v_full v = full) sv)) ∧
            Ds !! k = Some r) as (full0 & k0 & ws0 & Hin0 & HD0).
  { rewrite !elem_of_app in Hr. destruct Hr as [Hr|[Hr|[Hr|Hr]]].
    - apply elem_of_filed_all in Hr as (k & ws & ? & _ & ?). by exists true, k, ws.
    - apply elem_of_filed_some in Hr as (k & ws & ? & _ & ?). by exists true, k, ws.
    - apply elem_of_filed_all in Hr as (k & ws & ? & _ & ?). by exists false, k, ws.
    - apply elem_of_filed_some in Hr as (k & ws & ? & _ & ?). by exists false, k, ws. }
  assert (k0 = series_key s) as -> by eauto.
  assert (length users_data ≠ 0) as Hn.
  { apply od_build_elem_of in Hin0 as [-> Hne]. unfold sv in Hne.
    rewrite ws_of_series_visits in Hne. intros Hz.
    apply length_zero_iff_nil in Hz. rewrite Hz in Hne. done. }
  assert (∀ full : bool,
            let c := length (watchers_of (series_key_at st) (flagged st full)
                               users_data (series_key s)) in
            (c ≠ 0 ∧ c = length users_data ↔
               ∀ u, u ∈ users_data →
                 series_key s ∈ user_flagged_keys st full u) ∧
            (c ≠ 0 ∧ c ≠ length users_data ↔
               (∃ u, u ∈ users_data ∧
                  series_key s ∈ user_flagged_keys st full u) ∧
               (∃ u, u ∈ users_data ∧
                  series_key s ∉ user_flagged_keys st full u))) as Hcount.
  { intros full c.
    pose proof (flagged_count_le st users_data full (series_key s) Hd) as Hle.
    pose proof (watchers_count_all _ _ _ _ Hle) as Hall.
    pose proof (watchers_count_some _ _ _ _ Hle) as Hsome.
    pose proof (watchers_count_pos (series_key_at st) (flagged st full)
                  users_data (series_key s)) as Hpos.
    fold c in Hall, Hsome, Hpos. unfold user_flagged_keys. split.
    - split.
      + intros [_ Hc]. destruct Hall as [Hall _]. intros u Hu.
        apply carrying_pos. by apply Hall.
      + intros Hk. destruct Hall as [_ Hall].
        assert (c = length users_data) as Hc.
        { apply Hall. intros u Hu. apply carrying_pos. by apply Hk. }
        split; [lia|done].
    - split.
      + intros [Hne Hc]. split.
        * destruct Hpos as [Hpos _].
          destruct Hpos as (u & Hu & Hcu); [lia|].
          exists u. split; [done|]. by apply carrying_pos.
        * destruct Hsome as [Hsome _].
          destruct (Hsome Hc) as (u & Hu & Hcu).
          exists u. split; [done|]. by rewrite <-carrying_pos.
      + intros [(u & Hu & Hk) (u' & Hu' & Hk')]. split.
        * destruct Hpos as [_ Hpos].
          assert (0 < c); [|lia].
          apply Hpos. exists u. split; [done|]. by apply carrying_pos.
        * destruct Hsome as [_ Hsome]. apply Hsome.
          exists u'. split; [done|]. by rewrite carrying_pos. }
  destruct (filed_by_count st users_data r s true HD0 (Hkey true))
    as [Hfa Hfs].
  destruct (filed_by_count st users_data r s false HD0 (Hkey false))
    as [Hpa Hps].
  destruct (Hcount true) as [Hta Hts]. destruct (Hcount false) as [Hfa' Hfs'].
  unfold full_visits, partial_visits. fold sv Ds in Hfa, Hfs, Hpa, Hps.
  rewrite Hfa, Hfs, Hpa, Hps. done.
Qed.

Lemma series_buckets_by_coverage_witness :
  ∃ st' rep, generate_report no_urls split_store split_users = Some (st', rep) ∧
             series_buckets_meaning split_store split_users rep.
Proof.
  apply series_buckets_by_coverage.
  - unfold valid_users. repeat (constructor; simpl); lia.
  - unfold distinct_user_keys.
    repeat (constructor; [split; apply (bool_decide_unpack _); by vm_compute|]).
    constructor.
Defined.
